(** * The wetlands polygon merge engine (wetlands_merge_grid.py)

    A shallow embedding of [process_chunk], [create_spatial_chunks],
    [write_duckdb_compatible_geoparquet], [merge_grid] and its
    [test_output], and the properties of the merge engine that follow from
    that code. Module [Upstream] embeds the blocks that fetch the features
    ([get_wfs_capabilities], [load_wetlands_data], [process_batch],
    [combine_batches]) over Python values, module [Downstream] the block
    that validates the merged file ([geo_validate_geometries]).

    Conventions of the embedding.
    - Coordinates are Python floats in the source; here they are exact
      rationals ([Q]), so no rounding takes place.
    - The geometry libraries (shapely, libpysal, the WKB encoder) are not part
      of the repository: they are the fields of the class [GeoBackend].
      Section [Lattice] gives a concrete backend (polygons made of unit grid
      squares) on which every function below runs.
    - A Python exception is a [Raise] result; the file system is a finite map
      from paths to files that [merge_grid] threads through.
    - Wall-clock and memory figures of the returned dictionary are left out.
    - The WFS service and the SQL of DuckDB's spatial extension are outside
      the repository as well: classes [WfsService] and [SpatialSql]. *)

From stdpp Require Import gmap strings list fin_maps sorting pretty.
From Stdlib Require Import QArith Qround Qminmax Lqa.

Local Open Scope nat_scope.

(** ** Exceptions *)

Inductive exn :=
| ValueError (msg : string)
| FileNotFoundError
| LibraryError.

Inductive res (A : Type) :=
| Ok (a : A)
| Raise (e : exn).
Arguments Ok {A} a.
Arguments Raise {A} e.

Definition res_bind {A B} (m : res A) (k : A → res B) : res B :=
  match m with
  | Ok a => k a
  | Raise e => Raise e
  end.

Notation "'try!' x := m 'in' k" := (res_bind m (λ x, k))
  (at level 10, x name, m at level 100, k at level 200).

Fixpoint res_mapM {A B} (f : A → res B) (l : list A) : res (list B) :=
  match l with
  | [] => Ok []
  | a :: l' => try! b := f a in try! bs := res_mapM f l' in Ok (b :: bs)
  end.

Definition is_ok {A} (m : res A) : bool :=
  match m with Ok _ => true | Raise _ => false end.

(** ** Boxes and the geometry backend *)

Record bbox := BBox { minx : Q; miny : Q; maxx : Q; maxy : Q }.

Definition in_box (p : Q * Q) (b : bbox) : Prop :=
  (minx b <= fst p)%Q ∧ (fst p <= maxx b)%Q ∧
  (miny b <= snd p)%Q ∧ (snd p <= maxy b)%Q.

(** The calls the engine makes into shapely, libpysal and the WKB encoder.
    [queen_raises] says on which frames [Queen.from_dataframe] (or the
    dissolve that follows it inside the same [try]) raises. [boundary_pt] is
    the point set of a geometry's boundary; the code never calls it, it is
    what the contiguity rule of the specification speaks about. *)
Class GeoBackend := {
  geom : Type;
  geom_bounds : geom → bbox;
  intersects_box : geom → bbox → bool;
  is_valid : geom → bool;
  make_valid : geom → geom;
  unary_union : list geom → geom;
  queen_contiguous : geom → geom → bool;
  queen_raises : list (option geom) → bool;
  wkb_dumps : geom → option (list Byte.byte);
  boundary_pt : geom → Q * Q → Prop
}.

(** ** Frames *)

Record CRS := MkCRS { to_epsg : option Z }.

Definition epsg4326 : CRS := MkCRS (Some 4326%Z).

Record frame (R : Type) :=
  Frame { columns : list string; crs : option CRS; rows : list R }.
Arguments Frame {R} columns crs rows.
Arguments columns {R} f.
Arguments crs {R} f.
Arguments rows {R} f.

(** [pd.concat(frames, ignore_index=True)]: the rows in order, the columns
    in order of first appearance, the CRS of the (agreeing) geo frames. *)
Definition pd_concat {R} (frames : list (frame R)) : frame R :=
  Frame (foldl (λ acc f, acc ++ filter (λ c, c ∉ acc) (columns f)) [] frames)
        (head frames ≫= crs)
        (mjoin (rows <$> frames)).

(** The CRS guard that appears three times in the source:
    [None] is replaced by EPSG:4326, anything else than 4326 raises. *)
Definition require_epsg4326 (c : option CRS) : res (option CRS) :=
  match c with
  | None => Ok (Some epsg4326)
  | Some c' =>
      if decide (to_epsg c' = Some 4326%Z) then Ok (Some c')
      else Raise (ValueError "Unexpected CRS - Pipeline requires EPSG:4326")
  end.

(** ** Connected components of a weights object

    [W.component_labels]: nodes [0 .. n-1], an edge wherever the weights
    object relates two nodes (in either direction), labels [0, 1, ...] given
    to the components in the order of their smallest node. *)

Definition relabel (from to : nat) (labels : list nat) : list nat :=
  map (λ l, if decide (l = from) then to else l) labels.

Definition link (labels : list nat) (e : nat * nat) : list nat :=
  let li := nth (fst e) labels (fst e) in
  let lj := nth (snd e) labels (snd e) in
  relabel (li `max` lj) (li `min` lj) labels.

Definition graph_edges (n : nat) (W : nat → nat → bool) : list (nat * nat) :=
  filter (λ e, W (fst e) (snd e) = true) (i ← seq 0 n; (λ j, (i, j)) <$> seq 0 n).

Definition root_labels (n : nat) (W : nat → nat → bool) : list nat :=
  foldl link (seq 0 n) (graph_edges n W).

Definition label_rank (roots : list nat) (l : nat) : nat :=
  length (filter (λ k, nth k roots k = k) (seq 0 l)).

Definition component_labels (n : nat) (W : nat → nat → bool) : list nat :=
  let roots := root_labels n W in
  label_rank roots <$> roots.

(** Connectivity in the graph of a weights object: the least equivalence
    relation that holds the edges between the nodes [0 .. n-1]. *)
Inductive connected (n : nat) (W : nat → nat → bool) : nat → nat → Prop :=
| connected_refl i : connected n W i i
| connected_edge i j : i < n → j < n → W i j = true → connected n W i j
| connected_sym i j : connected n W i j → connected n W j i
| connected_trans i j k :
    connected n W i j → connected n W j k → connected n W i k.

(** The same closure over an explicit list of edges. *)
Inductive linked (es : list (nat * nat)) : nat → nat → Prop :=
| linked_refl i : linked es i i
| linked_edge i j : (i, j) ∈ es → linked es i j
| linked_sym i j : linked es i j → linked es j i
| linked_trans i j k : linked es i j → linked es j k → linked es i k.

(** What holds of the labels after the edges [es] were linked. *)
Definition labels_invariant (n : nat) (es : list (nat * nat)) (L : list nat) : Prop :=
  length L = n ∧
  (∀ i l, L !! i = Some l → l < n ∧ L !! l = Some l) ∧
  (∀ i j, linked es i j → L !! i = L !! j) ∧
  (∀ i j, i < n → j < n → L !! i = L !! j → linked es i j).

(** ** Dissolve

    [df.dissolve(by='component_id', aggfunc=...)]: one output row per label,
    labels ascending, the rows of a group in frame order. *)

Definition group_keys (labels : list nat) : list nat :=
  filter (λ c, c ∈ labels) (seq 0 (S (max_list labels))).

Definition group_members {R} (c : nat) (labels : list nat) (rs : list R) : list R :=
  snd <$> filter (λ lr, fst lr = c) (zip labels rs).

Definition dissolve {R O} (labels : list nat) (rs : list R)
    (agg : nat → list R → O) : list O :=
  (λ c, agg c (group_members c labels rs)) <$> group_keys labels.

Section Engine.
Context `{B : GeoBackend}.

(** An input feature: the upstream formatter keeps exactly the columns
    [gridcode] and [geometry]. *)
Record feature := Feature { f_gridcode : Z; f_geometry : option geom }.

(** A row of a merged frame. [temp_id] is present only on the rows of the
    concatenated chunk results (the fall-back path keeps that column). *)
Record merged_row := MergedRow {
  component_id : nat;
  geometry : option geom;
  gridcode : Z;
  merged_count : nat;
  temp_id : option nat
}.

Definition queen_weights (gs : list (option geom)) (i j : nat) : bool :=
  match gs !! i, gs !! j with
  | Some (Some a), Some (Some b) => queen_contiguous a b
  | _, _ => false
  end.

(** [Queen.from_dataframe(df)] followed by [W.component_labels]. *)
Definition queen_component_labels (gs : list (option geom)) : res (list nat) :=
  if queen_raises gs then Raise LibraryError
  else Ok (component_labels (length gs) (queen_weights gs)).

(** The geometry of a dissolved group: the union of its non-null members. *)
Definition union_geometry (gs : list (option geom)) : option geom :=
  Some (unary_union (omap id gs)).

Definition first_gridcode {R} (code : R → Z) (members : list R) : Z :=
  match members with
  | [] => 0%Z
  | r :: _ => code r
  end.

(** *** process_chunk (lines 22-68) *)

Definition fix_geometry (g : option geom) : option geom :=
  match g with
  | Some g' => if is_valid g' then Some g' else Some (make_valid g')
  | None => None
  end.

Definition revalidate (m : merged_row) : merged_row :=
  MergedRow (component_id m) (make_valid <$> geometry m)
            (gridcode m) (merged_count m) (temp_id m).

Definition process_chunk (chunk_gdf : frame feature) (code : Z)
    : res (option (frame merged_row)) :=
  let filtered := filter (λ r, f_gridcode r = code) (rows chunk_gdf) in
  if decide (length filtered = 0) then Ok None
  else
    try! checked := require_epsg4326 (crs chunk_gdf) in
    let fixed := (λ r, Feature (f_gridcode r) (fix_geometry (f_geometry r)))
                   <$> filtered in
    try! components := queen_component_labels (f_geometry <$> fixed) in
    let merged_df :=
      dissolve components fixed
        (λ c members,
           MergedRow c (union_geometry (f_geometry <$> members))
                     (first_gridcode f_gridcode members)
                     (length members) None) in
    Ok (Some (Frame ["component_id"; "geometry"; "gridcode"; "merged_count"]
                    (Some epsg4326) (revalidate <$> merged_df))).

(** The rows of a chunk that [process_chunk] builds its graph on: the
    features of the code, their geometries repaired (lines 26-41). *)
Definition chunk_members (chunk_gdf : frame feature) (code : Z) : list feature :=
  (λ r, Feature (f_gridcode r) (fix_geometry (f_geometry r)))
    <$> filter (λ r, f_gridcode r = code) (rows chunk_gdf).

(** *** create_spatial_chunks (lines 71-104) *)

Definition qmin_list (d : Q) (l : list Q) : Q :=
  match l with
  | [] => d
  | x :: l' => foldl Qmin x l'
  end.

Definition qmax_list (d : Q) (l : list Q) : Q :=
  match l with
  | [] => d
  | x :: l' => foldl Qmax x l'
  end.

(** [gdf.total_bounds]: null geometries are skipped. A frame without any
    geometry has NaN bounds in the source; no geometry intersects a box
    built from them, and none is there to be tested, so the value chosen
    here for that case is never observed. *)
Definition total_bounds (rs : list feature) : bbox :=
  let bs := geom_bounds <$> omap f_geometry rs in
  BBox (qmin_list 0 (minx <$> bs)) (qmin_list 0 (miny <$> bs))
       (qmax_list 0 (maxx <$> bs)) (qmax_list 0 (maxy <$> bs)).

Definition of_nat_Q (n : nat) : Q := inject_Z (Z.of_nat n).

Definition chunk_box (b : bbox) (chunk_width chunk_height : Q) (i j : nat) : bbox :=
  let chunk_minx := (minx b + of_nat_Q i * chunk_width)%Q in
  let chunk_miny := (miny b + of_nat_Q j * chunk_height)%Q in
  BBox chunk_minx chunk_miny
       (chunk_minx + chunk_width)%Q (chunk_miny + chunk_height)%Q.

(** [gdf.intersects(chunk_box)], row by row; a null geometry gives False. *)
Definition row_intersects (bx : bbox) (r : feature) : bool :=
  match f_geometry r with
  | Some g => intersects_box g bx
  | None => false
  end.

(** [int(np.ceil(np.sqrt(num_chunks)))]; the square root of a negative number
    is NaN and [int(NaN)] raises. *)
Definition chunks_per_side (num_chunks : Z) : res nat :=
  if decide (num_chunks < 0)%Z
  then Raise (ValueError "cannot convert float NaN to integer")
  else Ok (Z.to_nat (Z.sqrt_up num_chunks)).

Definition create_spatial_chunks (gdf : frame feature) (num_chunks : Z)
    : res (list (frame feature)) :=
  let b := total_bounds (rows gdf) in
  try! side := chunks_per_side num_chunks in
  let chunk_width := ((maxx b - minx b) / of_nat_Q side)%Q in
  let chunk_height := ((maxy b - miny b) / of_nat_Q side)%Q in
  Ok (foldl (λ chunks i,
        foldl (λ chunks j,
          let bx := chunk_box b chunk_width chunk_height i j in
          let chunk_gdf :=
            Frame (columns gdf) (crs gdf)
                  (filter (λ r, row_intersects bx r = true) (rows gdf)) in
          if decide (0 < length (rows chunk_gdf)) then chunks ++ [chunk_gdf]
          else chunks)
        chunks (seq 0 side))
      [] (seq 0 side)).

(** *** The output file *)

Unset Elimination Schemes.
Inductive json :=
| JStr (s : string)
| JList (items : list json)
| JObj (fields : list (string * json)).
Set Elimination Schemes.

(** A row of the written table: the geometry is WKB bytes. A column that a
    concatenated frame lacks for a row is null ([None]). *)
Record wkb_row := WkbRow {
  w_component_id : nat;
  w_geometry : list Byte.byte;
  w_gridcode : Z;
  w_merged_count : nat;
  w_temp_id : option nat
}.

Record parquet_table := ParquetTable {
  pq_columns : list string;
  pq_metadata : gmap string json;
  pq_rows : list wkb_row
}.

Inductive file :=
| GeoParquetFile (gdf : frame feature)
| ParquetFile (table : parquet_table)
| EmptyFile.

(** *** write_duckdb_compatible_geoparquet (lines 107-197) *)

Definition geo_metadata : json :=
  JObj [("columns",
         JObj [("geometry",
                JObj [("encoding", JStr "WKB");
                      ("geometry_type", JStr "GeometryCollection");
                      ("crs", JStr "EPSG:4326")])]);
        ("primary_column", JStr "geometry");
        ("version", JStr "1.0.0-beta.1")].

Definition json_field (k : string) (j : json) : option json :=
  match j with
  | JObj fields => (λ hit, hit.2.2) <$> list_find (λ kv, kv.1 = k) fields
  | _ => None
  end.

Definition json_path (ks : list string) (j : json) : option json :=
  foldl (λ o k, o ≫= json_field k) (Some j) ks.

Definition safe_to_wkb (g : option geom) : option (list Byte.byte) :=
  match g with
  | Some g' => if is_valid g' then wkb_dumps g' else None
  | None => None
  end.

(** [pa.Table.from_pandas(df)]: the schema metadata holds the pandas
    description of the columns under the key [pandas] and nothing else. *)
Definition table_from_pandas (cols : list string) (rs : list wkb_row) : parquet_table :=
  ParquetTable cols {[ "pandas" := JObj [("columns", JList (JStr <$> cols))] ]} rs.

Definition write_duckdb_compatible_geoparquet
    (gdf : frame merged_row) (output_path : string) (fs : gmap string file)
    : res unit * gmap string file :=
  match require_epsg4326 (crs gdf) with
  | Raise e => (Raise e, fs)
  | Ok checked =>
      let df := filter (λ r, is_Some (geometry r)) (rows gdf) in
      let df := (λ r, MergedRow (component_id r) (fix_geometry (geometry r))
                                (gridcode r) (merged_count r) (temp_id r)) <$> df in
      let df := omap (λ r, (λ w, WkbRow (component_id r) w (gridcode r)
                                        (merged_count r) (temp_id r))
                             <$> safe_to_wkb (geometry r)) df in
      let table := table_from_pandas (columns gdf) df in
      let metadata := pq_metadata table in
      let table :=
        if decide (is_Some (metadata !! "geo")) then table
        else ParquetTable (pq_columns table) (<["geo" := geo_metadata]> metadata)
                          (pq_rows table) in
      (Ok (), <[output_path := ParquetFile table]> fs)
  end.

(** *** merge_grid (lines 200-432) *)

Record cat_stats := CatStats { original_features : nat; merged_features : nat }.

Record data_item := DataItem {
  input_path : option string;
  metadata : gmap string json;
  num_chunks : option Z
}.

(** The returned dictionary: [input_path], [metadata] (the caller's entries
    plus [merged_features_count] and [merge_stats]) and
    [performance_metrics] (the two totals of [efficiency_metrics], of which
    [reduction_percent] and [compression_ratio] are functions, and
    [processing.num_chunks]). *)
Record merge_output := MergeOutput {
  out_input_path : string;
  out_metadata : gmap string json;
  out_merged_features_count : nat;
  out_merge_stats : gmap Z cat_stats;
  out_original_features : nat;
  out_merged_features : nat;
  out_num_chunks : nat
}.

Definition gridcodes : list Z := [12; 60]%Z.

Definition initial_merge_stats : gmap Z cat_stats :=
  {[ 12%Z := CatStats 0 0; 60%Z := CatStats 0 0 ]}.

Definition stats_original (merge_stats : gmap Z cat_stats) (code : Z) : nat :=
  default 0 (original_features <$> merge_stats !! code).

Definition set_original (n : nat) (s : cat_stats) : cat_stats :=
  CatStats n (merged_features s).

Definition set_merged (n : nat) (s : cat_stats) : cat_stats :=
  CatStats (original_features s) n.

(** Lines 264-270: the original counts per code and their total. *)
Definition count_originals (gdf : frame feature) : gmap Z cat_stats * nat :=
  foldl (λ st code,
           let count := length (filter (λ r, f_gridcode r = code) (rows gdf)) in
           (alter (set_original count) code st.1, st.2 + count))
        (initial_merge_stats, 0) gridcodes.

(** Lines 286-303: every chunk is processed for the code; the results that
    are neither [None] nor empty are kept. *)
Definition chunk_results_for (chunks : list (frame feature)) (code : Z)
    : res (list (frame merged_row)) :=
  try! results := res_mapM (λ chunk, process_chunk chunk code) chunks in
  Ok (filter (λ r, 0 < length (rows r)) (omap id results)).

Definition with_temp_ids (rs : list merged_row) : list merged_row :=
  imap (λ i r, MergedRow (component_id r) (geometry r) (gridcode r)
                         (merged_count r) (Some i)) rs.

(** Lines 306-336: the chunk results are concatenated and merged once more;
    when that raises, the concatenated frame itself is the result. *)
Definition stitch (chunk_results : list (frame merged_row)) : frame merged_row :=
  let cat := pd_concat chunk_results in
  let merged_df := Frame (columns cat ++ ["temp_id"]) (crs cat)
                         (with_temp_ids (rows cat)) in
  match queen_component_labels (geometry <$> rows merged_df) with
  | Ok components =>
      Frame ["component_id"; "geometry"; "gridcode"; "merged_count"] (crs merged_df)
        (dissolve components (rows merged_df)
           (λ c members,
              MergedRow c (union_geometry (geometry <$> members))
                        (first_gridcode gridcode members)
                        (sum_list (merged_count <$> members)) None))
  | Raise e => merged_df
  end.

(** Lines 278-336: one round of the loop over the codes. *)
Definition merge_code (chunks : list (frame feature))
    (st : list (frame merged_row) * gmap Z cat_stats) (code : Z)
    : res (list (frame merged_row) * gmap Z cat_stats) :=
  if decide (stats_original st.2 code = 0) then Ok st
  else
    try! chunk_results := chunk_results_for chunks code in
    match chunk_results with
    | [] => Ok st
    | _ :: _ =>
        let merged := stitch chunk_results in
        Ok (st.1 ++ [merged], alter (set_merged (length (rows merged))) code st.2)
    end.

Fixpoint res_foldM {A S} (f : S → A → res S) (st : S) (l : list A) : res S :=
  match l with
  | [] => Ok st
  | a :: l' => try! st' := f st a in res_foldM f st' l'
  end.

Definition merge_all (chunks : list (frame feature)) (merge_stats : gmap Z cat_stats)
    : res (list (frame merged_row) * gmap Z cat_stats) :=
  res_foldM (merge_code chunks) ([], merge_stats) gridcodes.

Definition empty_gdf (c : option CRS) : frame merged_row :=
  Frame ["gridcode"; "merged_count"; "component_id"; "geometry"] c [].

(** The frame handed to the writer (lines 346-360). *)
Definition output_frame (all_merged_dfs : list (frame merged_row)) (c : option CRS)
    : frame merged_row :=
  match all_merged_dfs with
  | [] => empty_gdf c
  | _ :: _ => pd_concat all_merged_dfs
  end.

Definition total_merged (merge_stats : gmap Z cat_stats) : nat :=
  sum_list (merged_features <$> (snd <$> map_to_list merge_stats)).

(** The partitioner as the specification words it (section 4.2): the cells
    of the [s] by [s] grid over the bounding box, listed column by column,
    and for each cell the features that intersect it, empty cells dropped. *)
Definition grid_cells (b : bbox) (s : nat) : list bbox :=
  let w := ((maxx b - minx b) / of_nat_Q s)%Q in
  let h := ((maxy b - miny b) / of_nat_Q s)%Q in
  i ← seq 0 s; (λ j, chunk_box b w h i j) <$> seq 0 s.

Definition cell_members (rs : list feature) (cell : bbox) : list feature :=
  filter (λ r, row_intersects cell r = true) rs.

Definition partition_spec (rs : list feature) (s : nat) : list (list feature) :=
  filter (λ members, members ≠ []) (cell_members rs <$> grid_cells (total_bounds rs) s).

(** Lines 259-336 on their own: the merged frames and the statistics that
    [merge_grid] computes from the frame it read and the chunk count. *)
Definition merge_engine (gdf : frame feature) (k : Z)
    : res (list (frame merged_row) * gmap Z cat_stats) :=
  try! chunks := create_spatial_chunks gdf k in
  merge_all chunks (count_originals gdf).1.

(** The merged features of one code in the engine's output. *)
Definition category_output (code : Z) (out : list (frame merged_row)) : list merged_row :=
  filter (λ r, gridcode r = code) (mjoin (rows <$> out)).

(** The merged features of one code that a run of the engine returns
    ([None] when the run raises). *)
Definition engine_output (gdf : frame feature) (k : Z) (code : Z)
    : option (list merged_row) :=
  match merge_engine gdf k with
  | Ok out => Some (category_output code out.1)
  | Raise _ => None
  end.

(** The frame that the fall-back path of the stitch returns. *)
Definition unstitched (chunk_results : list (frame merged_row)) : frame merged_row :=
  Frame (columns (pd_concat chunk_results) ++ ["temp_id"])
        (crs (pd_concat chunk_results))
        (with_temp_ids (rows (pd_concat chunk_results))).

(** [absorbed g m]: the geometry [m] was built from [g] by the unions and
    re-validations of the two merges. *)
Inductive absorbed : geom → geom → Prop :=
| absorbed_self g : absorbed g g
| absorbed_union g h gs : h ∈ gs → absorbed g h → absorbed g (unary_union gs)
| absorbed_valid g h : absorbed g h → absorbed g (make_valid h).

(** What the touch rule of the specification asks of the geometry
    libraries: geometries whose boundaries share a point are contiguous; a
    boundary point of a geometry lies in its bounding box, and the geometry
    intersects every box that holds the point. *)
Record touch_laws : Prop := TouchLaws {
  touching_is_contiguous g h p :
    boundary_pt g p → boundary_pt h p → queen_contiguous g h = true;
  boundary_in_bounds g p : boundary_pt g p → in_box p (geom_bounds g);
  boundary_meets_box g p bx :
    boundary_pt g p → in_box p bx → intersects_box g bx = true
}.

(** An output of the engine read back as its input: every merged feature
    becomes a feature with its code and geometry. ([process_chunk] keeps the
    columns [gridcode], [geometry] and the count of [temp_id]; any other
    column of its input, [merged_count] included, is dropped by the
    dissolve.) *)
Definition refeed (out : list (frame merged_row)) : frame feature :=
  Frame ["gridcode"; "geometry"] (Some epsg4326)
        ((λ r, Feature (gridcode r) (geometry r)) <$> mjoin (rows <$> out)).

(** The non-null geometries of the features of one code. *)
Definition code_geometries (code : Z) (rs : list feature) : list geom :=
  omap f_geometry (filter (λ r, f_gridcode r = code) rs).

(** Geometries among which nothing is left to merge: valid, listed once
    each, and contiguous to none but themselves. *)
Definition settled (gs : list geom) : Prop :=
  NoDup gs ∧
  (∀ g, g ∈ gs → is_valid g = true) ∧
  (∀ g h, g ∈ gs → h ∈ gs → queen_contiguous g h = true → g = h).

(** What the re-run argument asks of the geometry libraries. *)
Record merge_laws : Prop := MergeLaws {
  make_valid_is_valid g bx :
    intersects_box g bx = true → is_valid (make_valid g) = true;
  make_valid_of_valid g : is_valid g = true → make_valid g = g;
  union_is_valid gs :
    gs ≠ [] → (∀ g, g ∈ gs → is_valid g = true) → is_valid (unary_union gs) = true;
  union_of_copies g n : is_valid g = true → unary_union (replicate (S n) g) = g;
  valid_is_self_contiguous g : is_valid g = true → queen_contiguous g g = true;
  union_contiguous gs hs :
    queen_contiguous (unary_union gs) (unary_union hs) = true →
    ∃ g h, g ∈ gs ∧ h ∈ hs ∧ queen_contiguous g h = true;
  valid_has_boundary g : is_valid g = true → ∃ p, boundary_pt g p
}.

(** The chunk cut out by one cell. *)
Definition chunk_of (gdf : frame feature) (cell : bbox) : frame feature :=
  Frame (columns gdf) (crs gdf) (cell_members (rows gdf) cell).

(** A frame produced by one of the two merges for the code [code]. *)
Definition merged_frame_for (code : Z) (f : frame merged_row) : Prop :=
  crs f = Some epsg4326 ∧
  rows f ≠ [] ∧
  Forall (λ r, gridcode r = code ∧ is_Some (geometry r)) (rows f).

(** What the loop over the codes keeps true. [stats0] is the statistics
    record after the original counts were set. *)
Definition loop_invariant (stats0 : gmap Z cat_stats)
    (st : list (frame merged_row) * gmap Z cat_stats) : Prop :=
  dom st.2 = dom stats0 ∧
  (∀ c, original_features <$> st.2 !! c = original_features <$> stats0 !! c) ∧
  (∀ c s, st.2 !! c = Some s → original_features s = 0 → merged_features s = 0) ∧
  Forall (λ f, ∃ code, code ∈ gridcodes ∧ stats_original stats0 code ≠ 0 ∧
                       merged_frame_for code f) st.1.

(** What a dissolve by the component labels of the weights [W] returns:
    [labels] are component labels of the graph, and [out] has exactly one
    row per label. *)
Definition one_row_per_component (n : nat) (W : nat → nat → bool)
    (labels : list nat) (out : list merged_row) : Prop :=
  length labels = n ∧
  (∀ i j, i < n → j < n → labels !! i = labels !! j ↔ connected n W i j) ∧
  NoDup (component_id <$> out) ∧
  (∀ c, c ∈ component_id <$> out ↔ c ∈ labels).

(** The geometry of the row that the stitch builds for the label [c]. *)
Definition stitched_geometry (labels : list nat) (members : list merged_row)
    (c : nat) : geom :=
  unary_union (omap geometry (group_members c labels members)).

(** Whether the stitch of a code took the fall-back path. *)
Definition stitch_degraded (gdf : frame feature) (k : Z) (code : Z) : bool :=
  match create_spatial_chunks gdf k with
  | Ok chunks =>
      match chunk_results_for chunks code with
      | Ok (f :: fs) => queen_raises (geometry <$> rows (unstitched (f :: fs)))
      | _ => false
      end
  | Raise _ => false
  end.

End Engine.

(** [tempfile.mkstemp]: the operating system picks the name of the new file
    from the names in use. *)
Class TempFiles := { mkstemp : gset string → string }.

Section MergeGrid.
Context `{B : GeoBackend} `{T : TempFiles}.

(** Lines 245-432: the work on the frame that was read. *)
Definition merge_loaded (item : data_item) (gdf0 : frame feature)
    (fs : gmap string file) : res merge_output * gmap string file :=
  match require_epsg4326 (crs gdf0) with
  | Raise e => (Raise e, fs)
  | Ok c =>
    let gdf := Frame (columns gdf0) c (rows gdf0) in
    let counted := count_originals gdf in
    match create_spatial_chunks gdf (default 4%Z (num_chunks item)) with
    | Raise e => (Raise e, fs)
    | Ok chunks =>
      match merge_all chunks counted.1 with
      | Raise e => (Raise e, fs)
      | Ok merged =>
        let output_path := mkstemp (dom fs) in
        let fs := <[output_path := EmptyFile]> fs in
        let written :=
          write_duckdb_compatible_geoparquet
            (output_frame merged.1 (crs gdf)) output_path fs in
        match written.1 with
        | Raise e => (Raise e, written.2)
        | Ok _ =>
          let total_merged_features := total_merged merged.2 in
          (Ok (MergeOutput output_path (metadata item) total_merged_features
                           merged.2 counted.2 total_merged_features
                           (length chunks)), written.2)
        end
      end
    end
  end.

(** Lines 221-235: the input path must be present and non-empty, and
    [gpd.read_parquet] must find a geo frame there. *)
Definition merge_grid (item : data_item) (fs : gmap string file)
    : res merge_output * gmap string file :=
  match input_path item with
  | None => (Raise (ValueError "No input path provided for merging"), fs)
  | Some path =>
    if decide (path = "") then
      (Raise (ValueError "No input path provided for merging"), fs)
    else
      match fs !! path with
      | Some (GeoParquetFile gdf0) => merge_loaded item gdf0 fs
      | _ => (Raise FileNotFoundError, fs)
      end
  end.

End MergeGrid.

(** *** test_output (lines 435-444)

    The block's own test of the returned dictionary. The three keys it asks
    for are the fields of [merge_output]; what is left to check is that the
    output is there and that its file exists. *)

Inductive assertion :=
| Passed
| AssertionError (msg : string).

Section TestOutput.
Context `{B : GeoBackend}.

Definition test_output (output : option merge_output) (fs : gmap string file)
    : assertion :=
  match output with
  | None => AssertionError "The output is undefined"
  | Some out =>
      if decide (is_Some (fs !! out_input_path out)) then Passed
      else AssertionError "Output GeoParquet file should exist"
  end.

End TestOutput.

(** ** A concrete backend: polygons made of unit grid squares

    A geometry is a list of cells [(i, j)], the cell standing for the closed
    square [[i, i+1] x [j, j+1]]. A geometry is valid when its cells are
    listed once each in ascending order and there is at least one;
    [make_valid] sorts and removes repetitions. The boundary of a geometry
    is made of the grid edges with a cell of the geometry on one side only,
    so two boundaries share a point exactly when they share a grid vertex. *)

Module Lattice.

Definition cell : Type := Z * Z.

Definition cell_ltb (c d : cell) : bool :=
  bool_decide (c.1 < d.1 ∨ (c.1 = d.1 ∧ c.2 < d.2))%Z.

(** The order of the cells: by column, then by row. *)
Definition cell_lt (c d : cell) : Prop :=
  (c.1 < d.1 ∨ (c.1 = d.1 ∧ c.2 < d.2))%Z.

Fixpoint insert_cell (c : cell) (g : list cell) : list cell :=
  match g with
  | [] => [c]
  | d :: g' =>
      if cell_ltb c d then c :: d :: g'
      else if bool_decide (c = d) then d :: g'
      else d :: insert_cell c g'
  end.

Definition normalize (g : list cell) : list cell := foldr insert_cell [] g.

Fixpoint ascending (g : list cell) : bool :=
  match g with
  | [] => true
  | c :: g' =>
      match g' with
      | [] => true
      | d :: _ => cell_ltb c d && ascending g'
      end
  end.

Definition valid (g : list cell) : bool :=
  bool_decide (g ≠ []) && ascending g.

Definition zq (z : Z) : Q := inject_Z z.

Definition bounds (g : list cell) : bbox :=
  BBox (qmin_list 0 (zq <$> (fst <$> g))) (qmin_list 0 (zq <$> (snd <$> g)))
       (qmax_list 0 ((λ c, zq (c.1 + 1)) <$> g)) (qmax_list 0 ((λ c, zq (c.2 + 1)) <$> g)).

Definition cell_meets_box (bx : bbox) (c : cell) : bool :=
  Qle_bool (zq c.1) (maxx bx) && Qle_bool (minx bx) (zq (c.1 + 1)) &&
  Qle_bool (zq c.2) (maxy bx) && Qle_bool (miny bx) (zq (c.2 + 1)).

Definition meets_box (g : list cell) (bx : bbox) : bool :=
  existsb (cell_meets_box bx) g.

(** The cells whose square contains the point [p]: one, two or four. *)
Definition cells_at (p : Q * Q) : list cell :=
  i ← [(Qceiling p.1 - 1)%Z; Qfloor p.1];
  (λ j, (i, j)) <$> [(Qceiling p.2 - 1)%Z; Qfloor p.2].

Definition on_boundary (g : list cell) (p : Q * Q) : bool :=
  existsb (λ c, bool_decide (c ∈ g)) (cells_at p) &&
  existsb (λ c, bool_decide (c ∉ g)) (cells_at p).

Definition corners (g : list cell) : list cell :=
  c ← g; [(c.1, c.2); (c.1 + 1, c.2); (c.1, c.2 + 1); (c.1 + 1, c.2 + 1)]%Z.

Definition contiguous (g h : list cell) : bool :=
  existsb (λ v, on_boundary g (zq v.1, zq v.2) && on_boundary h (zq v.1, zq v.2))
          (corners g).

Definition byte_of_Z (z : Z) : Byte.byte :=
  default Byte.x00 (Byte.of_N (Z.to_N (z `mod` 256))).

Definition dumps (g : list cell) : option (list Byte.byte) :=
  Some (c ← g; [byte_of_Z c.1; byte_of_Z c.2]).

(** The backend; [raises] says on which frames the contiguity builder
    raises. *)
Definition backend (raises : list (option (list cell)) → bool) : GeoBackend := {|
  geom := list cell;
  geom_bounds := bounds;
  intersects_box := meets_box;
  is_valid := valid;
  make_valid := normalize;
  unary_union := λ gs, normalize (mjoin gs);
  queen_contiguous := contiguous;
  queen_raises := raises;
  wkb_dumps := dumps;
  boundary_pt := λ g p, on_boundary g p = true
|}.

(** The rectangle of cells [[x0, x1) x [y0, y1)], in ascending order. *)
Definition rect (x0 y0 x1 y1 : Z) : list cell :=
  i ← seqZ x0 (x1 - x0); (λ j, (i, j)) <$> seqZ y0 (y1 - y0).

End Lattice.

(** ** Concrete inputs on the lattice backend *)

Module Scenario.
Import Lattice.

(** The contiguity builder never raises. *)
Definition clean : GeoBackend := backend (λ _, false).

(** The contiguity builder raises on every frame of two rows or more (as it
    would when it runs out of memory on the concatenated frame). *)
Definition failing : GeoBackend := backend (λ gs, bool_decide (2 ≤ length gs)).

Definition tmp : TempFiles := {| mkstemp := λ _, "/tmp/merged.parquet" |}.

Definition input_columns : list string := ["gridcode"; "geometry"].

(** A feature with a geometry, on either backend. *)
Definition feat (B : GeoBackend) (mk : list cell → @geom B) (code : Z) (g : list cell)
    : @feature B :=
  @Feature B code (Some (mk g)).

Definition on_clean (code : Z) (g : list cell) : @feature clean :=
  feat clean (λ g, g) code g.

Definition on_failing (code : Z) (g : list cell) : @feature failing :=
  feat failing (λ g, g) code g.

(** One square of side 2, code 12. *)
Definition one_square : frame (@feature clean) :=
  Frame input_columns (Some epsg4326) [on_clean 12 (rect 0 0 2 2)].

(** The square [[1,5] x [1,5]] and the ring of width 1 around it, code 12. *)
Definition ring : list cell := filter (λ c, c ∉ rect 1 1 5 5) (rect 0 0 6 6).

Definition core_and_ring : frame (@feature clean) :=
  Frame input_columns (Some epsg4326)
        [on_clean 12 (rect 1 1 5 5); on_clean 12 ring].

(** Two unit squares far from each other, code 12, for either backend. *)
Definition far_squares : frame (@feature clean) :=
  Frame input_columns (Some epsg4326)
        [on_clean 12 [(0, 0)%Z]; on_clean 12 [(3, 3)%Z]].

Definition far_squares_failing : frame (@feature failing) :=
  Frame input_columns (Some epsg4326)
        [on_failing 12 [(0, 0)%Z]; on_failing 12 [(3, 3)%Z]].

(** Two unit squares that share an edge, code 12. *)
Definition adjacent_squares : frame (@feature clean) :=
  Frame input_columns (Some epsg4326)
        [on_clean 12 [(0, 0)%Z]; on_clean 12 [(1, 0)%Z]].

(** Two unit squares that share an edge, code 7. *)
Definition adjacent_squares_code7 : frame (@feature clean) :=
  Frame input_columns (Some epsg4326)
        [on_clean 7 [(0, 0)%Z]; on_clean 7 [(1, 0)%Z]].

(** A frame tagged with another CRS. *)
Definition utm_frame : frame (@feature clean) :=
  Frame input_columns (Some (MkCRS (Some 25832%Z))) [on_clean 12 (rect 0 0 2 2)].

Definition empty_frame : frame (@feature clean) :=
  Frame input_columns (Some epsg4326) [].

Definition item_for (path : string) (k : option Z) : data_item :=
  DataItem (Some path) ∅ k.

Definition fs_with (B : GeoBackend) (gdf : frame (@feature B)) : gmap string (@file B) :=
  {[ "in.parquet" := @GeoParquetFile B gdf ]}.

(** The chunks of the far-apart squares and their results for code 12, on
    the backend whose contiguity builder raises. *)
Definition far_chunks : list (frame (@feature failing)) :=
  match @create_spatial_chunks failing far_squares_failing 4 with
  | Ok chunks => chunks
  | Raise _ => []
  end.

Definition far_results : list (frame (@merged_row failing)) :=
  match @chunk_results_for failing far_chunks 12 with
  | Ok results => results
  | Raise _ => []
  end.

Definition far_first : frame (@merged_row failing) :=
  default (Frame [] None []) (head far_results).

(** The run on the two adjacent squares of code 12, four chunks. *)
Definition adjacent_out : list (frame (@merged_row clean)) * gmap Z cat_stats :=
  match @merge_engine clean adjacent_squares 4 with
  | Ok out => out
  | Raise _ => ([], ∅)
  end.

(** The same input merged with one chunk. *)
Definition adjacent_once : list (frame (@merged_row clean)) * gmap Z cat_stats :=
  match @merge_engine clean adjacent_squares 1 with
  | Ok out => out
  | Raise _ => ([], ∅)
  end.

(** The output [adjacent_out] fed to the engine again, four chunks. *)
Definition adjacent_again : list (frame (@merged_row clean)) * gmap Z cat_stats :=
  match @merge_engine clean (@refeed clean adjacent_out.1) 4 with
  | Ok out => out
  | Raise _ => ([], ∅)
  end.

(** The two adjacent squares as one chunk, merged for code 12. *)
Definition adjacent_merged : frame (@merged_row clean) :=
  match @process_chunk clean adjacent_squares 12 with
  | Ok (Some f) => f
  | _ => Frame [] None []
  end.

End Scenario.

(** ** The batch pipeline upstream of the merge

    [load_wetlands_data] (wetlands_load_wfs.py) plans the batches,
    [process_batch] (wetlands_process_batch.py) fetches one, and
    [combine_batches] (wetlands_combine_batches.py) joins what was fetched.

    Conventions of this part.
    - The dictionaries that the blocks hand to each other hold JSON values;
      [pyval] is the type of those values. A dictionary is the list of its
      entries in insertion order, each key once.
    - The WFS server and the XML and JSON parsers are not part of the
      repository: [WfsService] gives the answer to each request, already
      parsed or with the exception that the libraries raise.
    - An exception is a value of [error]; one that the code raises with
      [raise ... from e] keeps its cause.
    - The clock is read twice by [combine_batches]; the difference of the
      two readings is the argument [elapsed]. *)

Module Upstream.

Unset Elimination Schemes.
Inductive pyval :=
| PNone
| PBool (b : bool)
| PInt (z : Z)
| PFloat (q : Q)
| PStr (s : string)
| PList (items : list pyval)
| PDict (fields : list (string * pyval)).
Set Elimination Schemes.

Inductive error :=
| ValueError_ (msg : string)
| TypeError_ (msg : string)
| NotIterable (v : pyval)
| NoAttribute (v : pyval) (attribute : string)
| NoLength (v : pyval)
| NotAFloat (v : pyval)
| ZeroDivisionError_
| RequestException_ (msg : string)
| ParseError_ (msg : string)
| RuntimeError_ (msg : string)
| LayerNotFound (layer : string) (available : list string)
| RuntimeErrorFrom (prefix : string) (cause : error).

Inductive outcome (A : Type) :=
| Returns (a : A)
| Raises (e : error).
Arguments Returns {A} a.
Arguments Raises {A} e.

(** [bool(v)] *)
Definition truthy (v : pyval) : bool :=
  match v with
  | PNone => false
  | PBool b => b
  | PInt z => negb (z =? 0)%Z
  | PFloat q => negb (Qeq_bool q 0)
  | PStr s => negb (String.eqb s "")
  | PList items => match items with [] => false | _ :: _ => true end
  | PDict fields => match fields with [] => false | _ :: _ => true end
  end.

(** [d.get(k)]; [k in d] is [is_Some (dict_get k d)]. *)
Definition dict_get (k : string) (d : list (string * pyval)) : option pyval :=
  (λ hit, hit.2.2) <$> list_find (λ kv, kv.1 = k) d.

(** [d[k] = v] *)
Fixpoint dict_set (k : string) (v : pyval) (d : list (string * pyval))
    : list (string * pyval) :=
  match d with
  | [] => [(k, v)]
  | kv :: d' => if decide (kv.1 = k) then (k, v) :: d' else kv :: dict_set k v d'
  end.

(** [d.update(other)] *)
Definition dict_update (other d : list (string * pyval)) : list (string * pyval) :=
  foldl (λ acc kv, dict_set kv.1 kv.2 acc) d other.

(** What iterating over a value yields ([list.extend]) and what [len]
    counts: the items of a list, the characters of a string, the keys of a
    dictionary; [None] for a value that cannot be iterated. *)
Definition items_of (v : pyval) : option (list pyval) :=
  match v with
  | PList items => Some items
  | PStr s => Some ((λ a, PStr (String a EmptyString)) <$> String.list_ascii_of_string s)
  | PDict fields => Some ((λ kv, PStr kv.1) <$> fields)
  | _ => None
  end.

Definition of_nat (n : nat) : pyval := PInt (Z.of_nat n).

(** *** combine_batches (wetlands_combine_batches.py, lines 12-134) *)

Record combine_state := CombineState {
  cs_metadata : pyval;
  cs_features : list pyval;
  cs_stats : list pyval
}.

(** The returned dictionary (lines 94-97 and 127-130). *)
Definition combined (features : list pyval) (metadata : pyval) : pyval :=
  PDict [("geojson_data",
          PDict [("type", PStr "FeatureCollection"); ("features", PList features)]);
         ("metadata", metadata)].

(** The entry of [batch_stats] for the batch at index [i] (lines 82-85). *)
Definition batch_stat (i : nat) (items : list pyval) : pyval :=
  PDict [("batch_index", of_nat (i + 1)); ("feature_count", of_nat (length items))].

(** Lines 74-75: the metadata is taken from a batch only while none was
    found, that is while the variable is still [None]. *)
Definition pick_metadata (current : pyval) (fields : list (string * pyval)) : pyval :=
  match current, dict_get "metadata" fields with
  | PNone, Some m => m
  | _, _ => current
  end.

(** Lines 60-85: one round of the loop, for the batch at index [i]. *)
Definition combine_step (st : combine_state) (i : nat) (batch : pyval)
    : outcome combine_state :=
  match batch with
  | PDict fields =>
      match dict_get "geojson_data" fields with
      | None => Raises (ValueError_ ("Batch " +:+ pretty i +:+ " missing geojson_data"))
      | Some (PDict geojson_data) =>
          match dict_get "features" geojson_data with
          | None =>
              Raises (ValueError_ ("Batch " +:+ pretty i +:+ " has invalid GeoJSON structure"))
          | Some batch_features =>
              let metadata := pick_metadata (cs_metadata st) fields in
              match items_of batch_features with
              | None => Raises (NotIterable batch_features)
              | Some items =>
                  Returns (CombineState metadata (cs_features st ++ items)
                                        (cs_stats st ++ [batch_stat i items]))
              end
          end
      | Some _ =>
          Raises (ValueError_ ("Batch " +:+ pretty i +:+ " has invalid GeoJSON structure"))
      end
  | _ => Raises (TypeError_ ("Batch " +:+ pretty i +:+ " is not a dictionary"))
  end.

Fixpoint combine_loop (st : combine_state) (i : nat) (batches : list pyval)
    : outcome combine_state :=
  match batches with
  | [] => Returns st
  | batch :: rest =>
      match combine_step st i batch with
      | Returns st' => combine_loop st' (S i) rest
      | Raises e => Raises e
      end
  end.

(** Line 42: a value that is not a list is one batch. *)
Definition batches_of (data : pyval) : list pyval :=
  match data with
  | PList items => items
  | _ => [data]
  end.

(** Lines 117-124. *)
Definition update_metadata (elapsed : Q) (n_batches : nat) (st : combine_state)
    : outcome pyval :=
  let feature_count := length (cs_features st) in
  let features_per_second :=
    if Qlt_le_dec 0 elapsed then PFloat (inject_Z (Z.of_nat feature_count) / elapsed)
    else PInt 0 in
  if truthy (cs_metadata st) then
    match cs_metadata st with
    | PDict metadata =>
        Returns (PDict (dict_update
                          [("total_features", of_nat feature_count);
                           ("num_batches", of_nat n_batches);
                           ("batch_stats", PList (cs_stats st));
                           ("processing_time_seconds", PFloat elapsed);
                           ("features_per_second", features_per_second)]
                          metadata))
    | other => Raises (NoAttribute other "update")
    end
  else Returns (cs_metadata st).

Definition combine_batches (elapsed : Q) (data : pyval) : outcome pyval :=
  if truthy data then
    match batches_of data with
    | [] => Raises (ValueError_ "No batches to combine")
    | batches =>
        match combine_loop (CombineState PNone [] []) 0 batches with
        | Raises e => Raises e
        | Returns st =>
            match update_metadata elapsed (length batches) st with
            | Raises e => Raises e
            | Returns metadata => Returns (combined (cs_features st) metadata)
            end
        end
    end
  else Raises (ValueError_ "No data provided to combine_batches").

(** The features that a batch brings, when it is a dictionary with a
    GeoJSON dictionary that has them. *)
Definition batch_items (batch : pyval) : option (list pyval) :=
  match batch with
  | PDict fields =>
      match dict_get "geojson_data" fields with
      | Some (PDict geojson_data) => dict_get "features" geojson_data ≫= items_of
      | _ => None
      end
  | _ => None
  end.

(** The metadata entry of a batch, if it has one that is not [None]. *)
Definition metadata_entry (batch : pyval) : option pyval :=
  match batch with
  | PDict fields =>
      match dict_get "metadata" fields with
      | Some PNone => None
      | entry => entry
      end
  | _ => None
  end.

(** *** The WFS service *)

Record layer_info := LayerInfo { title : option string; default_crs : option string }.

Inductive capabilities_response :=
| CapabilitiesUnreachable (msg : string)
| CapabilitiesMalformed (msg : string)
| Capabilities (feature_types : list (string * layer_info)).

(** The attribute [numberMatched] of the answer to a [resultType=hits]
    request, as [int(root.get('numberMatched', 0))] reads it: absent, a
    text on which [int] raises [ValueError] with the given message, or a
    number. *)
Inductive number_matched :=
| Missing
| NotANumber (msg : string)
| Number (n : Z).

Inductive hits_response :=
| HitsUnreachable (msg : string)
| HitsMalformed (msg : string)
| Hits (matched : number_matched).

(** [response.json()] either gives a value or raises; the decode error of
    the requests library is a [RequestException] in its newer versions and
    a plain [ValueError] in the older ones. *)
Inductive features_response :=
| FeaturesUnreachable (msg : string)
| DecodeRequestError (msg : string)
| DecodeValueError (msg : string)
| Json (v : pyval).

(** The parameters of a [GetFeature] request (lines 46-55). *)
Record wfs_request := WfsRequest {
  rq_url : string;
  rq_typenames : string;
  rq_srsname : string;
  rq_output_format : string;
  rq_count : Z;
  rq_start_index : Z
}.

Class WfsService := {
  get_capabilities : string → capabilities_response;
  get_hits : string → string → hits_response;
  get_features : wfs_request → features_response
}.

(** The dictionaries of the loader, with the keys it gives them. *)
Record batch_metadata := BatchMetadata {
  wfs_url : string;
  layer_name : string;
  batch_size : Z;
  num_batches : Z;
  total_features : Z
}.

Record batch_item := BatchItem { batch_index : Z; item_metadata : batch_metadata }.

Record block_metadata := BlockMetadata { block_uuid : string }.

Record loader_config := LoaderConfig {
  cfg_wetlands_url : option string;
  cfg_layer_name : option string;
  cfg_batch_size : option Z
}.

Section Blocks.
Context `{W : WfsService}.

(** *** get_wfs_capabilities (wetlands_load_wfs.py, lines 12-53) *)

Definition get_wfs_capabilities (url : string) : outcome (list (string * layer_info)) :=
  match get_capabilities url with
  | CapabilitiesUnreachable msg => Raises (RequestException_ msg)
  | CapabilitiesMalformed msg => Raises (ParseError_ msg)
  | Capabilities [] =>
      Raises (RuntimeErrorFrom "Failed to get WFS capabilities: "
                (RuntimeError_ "No feature types found in WFS capabilities response"))
  | Capabilities feature_types => Returns feature_types
  end.

(** *** load_wetlands_data (lines 57-146) *)

Definition failed_to_load (cause : error) : error :=
  RuntimeErrorFrom "Failed to load wetlands data: " cause.

(** Lines 118-133. *)
Definition batch_plan (url layer : string) (size batches total : Z)
    : list batch_item * list block_metadata :=
  ((λ i, BatchItem i (BatchMetadata url layer size batches total)) <$> seqZ 0 batches,
   (λ i, BlockMetadata ("batch_" +:+ pretty i)) <$> seqZ 0 batches).

Definition load_wetlands_data (config : loader_config)
    : outcome (list batch_item * list block_metadata) :=
  let url := default "https://wfs2-miljoegis.mim.dk/natur/ows" (cfg_wetlands_url config) in
  let layer := default "natur:kulstof2022" (cfg_layer_name config) in
  let size := default 50000%Z (cfg_batch_size config) in
  match get_wfs_capabilities url with
  | Raises (RequestException_ msg) => Raises (RequestException_ msg)
  | Raises (ParseError_ msg) => Raises (ParseError_ msg)
  | Raises e => Raises (failed_to_load e)
  | Returns feature_types =>
      if decide (layer ∈ feature_types.*1) then
        match get_hits url layer with
        | HitsUnreachable msg => Raises (RequestException_ msg)
        | HitsMalformed msg => Raises (ParseError_ msg)
        | Hits (NotANumber msg) => Raises (failed_to_load (ValueError_ msg))
        | Hits matched =>
            let total := match matched with Number n => n | _ => 0%Z end in
            if decide (total = 0%Z) then
              Raises (failed_to_load
                        (RuntimeError_ ("No features found for layer " +:+ layer)))
            else if decide (size = 0%Z) then Raises (failed_to_load ZeroDivisionError_)
            else
              let batches := ((total + size - 1) `div` size)%Z in
              Returns (batch_plan url layer size batches total)
        end
      else Raises (failed_to_load (LayerNotFound layer feature_types.*1))
  end.

(** *** process_batch (wetlands_process_batch.py, lines 13-82)

    The input is a batch item as [load_wetlands_data] builds it: a
    dictionary with its metadata, so the two guards of lines 24-31 pass. *)

Definition batch_request (data : batch_item) : wfs_request :=
  let metadata := item_metadata data in
  WfsRequest (wfs_url metadata) (layer_name metadata) "EPSG:4326" "application/json"
             (batch_size metadata) (batch_index data * batch_size metadata).

Definition metadata_dict (m : batch_metadata) : pyval :=
  PDict [("wfs_url", PStr (wfs_url m));
         ("layer_name", PStr (layer_name m));
         ("batch_size", PInt (batch_size m));
         ("num_batches", PInt (num_batches m));
         ("total_features", PInt (total_features m))].

Definition failed_to_process (index : Z) (cause : error) : error :=
  RuntimeErrorFrom ("Failed to process batch " +:+ pretty index +:+ ": ") cause.

Definition process_batch (data : batch_item) : outcome pyval :=
  match get_features (batch_request data) with
  | FeaturesUnreachable msg => Raises (RequestException_ msg)
  | DecodeRequestError msg => Raises (RequestException_ msg)
  | DecodeValueError msg =>
      Raises (RuntimeErrorFrom "Invalid GeoJSON response from server: " (ValueError_ msg))
  | Json geojson_data =>
      match geojson_data with
      | PDict fields =>
          let features := default (PList []) (dict_get "features" fields) in
          match items_of features with
          | Some _ =>
              Returns (PDict [("batch_index", PInt (batch_index data));
                              ("geojson_data", geojson_data);
                              ("metadata", metadata_dict (item_metadata data))])
          | None => Raises (failed_to_process (batch_index data) (NoLength features))
          end
      | other => Raises (failed_to_process (batch_index data) (NoAttribute other "get"))
      end
  end.

(** The page of features that the server holds for a batch item. *)
Definition page_of (item : batch_item) : option (list pyval) :=
  match get_features (batch_request item) with
  | Json (PDict fields) => dict_get "features" fields ≫= items_of
  | _ => None
  end.

End Blocks.

End Upstream.

(** ** The validator downstream of the merge (geo_validate_geometries.py)

    The SQL that DuckDB runs is not part of the repository: [SpatialSql]
    gives what the geometry stages select and the errors that reading a file
    can raise. The Python around the SQL is modelled as it is written: the
    choice of the input path, the guards, the temporary output file and its
    removal when anything raises. Standard SQL is assumed for the
    aggregates: [COUNT] of no rows is zero, [AVG], [MIN] and [MAX] of no
    rows are NULL, which Python reads as [None]. *)

Module Downstream.
Import Upstream.

Record validation_rules := ValidationRules {
  min_points : Z;
  min_area_m2 : Q;
  max_area_m2 : Q
}.

(** The dictionary given to the block: the two path keys and the three
    rules under [metadata.validation_rules], each present or not. *)
Record validation_input := ValidationInput {
  v_input_path : option string;
  v_formatted_data_path : option string;
  v_min_points : option Z;
  v_min_area_m2 : option Q;
  v_max_area_m2 : option Q
}.

(** A feature that passed the checks, with what the SQL measured on it. *)
Record measured := Measured { num_points : Z; area_m2 : Q }.

Record validation_stats := ValidationStats {
  input_features : nat;
  valid_features : nat;
  avg_points : Q;
  min_points_found : Z;
  max_points_found : Z;
  avg_area_m2 : Q;
  min_area_found : Q;
  max_area_found : Q
}.

Record validation_output := ValidationOutput {
  validated_data_path : string;
  validated_count : nat;
  original_feature_count : nat;
  applied_rules : validation_rules;
  stats : validation_stats
}.

(** [s.endswith(suffix)] *)
Definition ends_with (suffix s : string) : bool :=
  (String.length suffix <=? String.length s) &&
  String.eqb (String.substring (String.length s - String.length suffix)
                               (String.length suffix) s) suffix.

(** [AVG] over the numbers of a column; [None] is NULL. *)
Definition sql_avg (l : list Q) : option Q :=
  match l with
  | [] => None
  | _ :: _ => Some (foldr Qplus 0 l / inject_Z (Z.of_nat (length l)))%Q
  end.

(** [data.get('input_path') or data.get('formatted_data_path')] *)
Definition chosen_path (data : validation_input) : option string :=
  match v_input_path data with
  | Some p => if String.eqb p "" then v_formatted_data_path data else Some p
  | None => v_formatted_data_path data
  end.

Definition rules_of (data : validation_input) : validation_rules :=
  ValidationRules (default 4%Z (v_min_points data))
                  (default 1%Q (v_min_area_m2 data))
                  (default (100000000 # 1)%Q (v_max_area_m2 data)).

Section Validator.
Context `{B : GeoBackend} `{T : TempFiles}.

(** What a path can hold: a file of the merge engine, or the features
    that a validation run wrote. *)
Inductive stored :=
| Written (f : file)
| Validated (features : list measured).

(** What DuckDB and its spatial extension do, left open: whether the
    extension can be installed and loaded (lines 72-74), the text of the
    error for a path that holds no Parquet file (lines 80-84), whether the
    first statistics query fails (lines 93-99), the features that the four
    stages of lines 111-162 keep, and whether the [COPY] of lines 178-185
    fails. *)
Class SpatialSql := {
  spatial_extension : option error;
  unreadable : string → string;
  statistics_error : stored → option error;
  select_valid : validation_rules → stored → outcome (list measured);
  copy_error : list measured → option error
}.

Context `{D : SpatialSql}.

(** [parquet_schema(path)] restricted to the name [geometry]: [None] when
    the file is no Parquet file. *)
Definition has_geometry_column (f : stored) : option bool :=
  match f with
  | Written (ParquetFile table) => Some (bool_decide ("geometry" ∈ pq_columns table))
  | Written (GeoParquetFile gdf) => Some (bool_decide ("geometry" ∈ columns gdf))
  | Written EmptyFile => None
  | Validated _ => Some true
  end.

(** [COUNT( * )] *)
Definition count_features (f : stored) : nat :=
  match f with
  | Written (ParquetFile table) => length (pq_rows table)
  | Written (GeoParquetFile gdf) => length (rows gdf)
  | Written EmptyFile => 0
  | Validated features => length features
  end.

(** Lines 165-204: the aggregates over the valid features, read into the
    statistics. [float(None)] raises when there is no valid feature. *)
Definition statistics_of (feature_count : nat) (valid : list measured)
    : outcome validation_stats :=
  match sql_avg (inject_Z <$> (num_points <$> valid)),
        sql_avg (area_m2 <$> valid), valid with
  | Some points, Some area, first :: others =>
      Returns (ValidationStats feature_count (length valid) points
                 (foldl Z.min (num_points first) (num_points <$> others))
                 (foldl Z.max (num_points first) (num_points <$> others))
                 area
                 (qmin_list 0 (area_m2 <$> valid))
                 (qmax_list 0 (area_m2 <$> valid)))
  | _, _, _ => Raises (NotAFloat PNone)
  end.

(** Lines 76-216: what runs inside the [try]. *)
Definition validation_attempt (input_path : string) (rules : validation_rules)
    (fs : gmap string stored) : outcome (list measured * validation_stats) :=
  match fs !! input_path ≫= (λ f, (λ has, (f, has)) <$> has_geometry_column f) with
  | None => Raises (ValueError_ ("Invalid input file: " +:+ unreadable input_path))
  | Some (f, false) =>
      Raises (ValueError_ "Invalid input file: Input file must have a 'geometry' column")
  | Some (f, true) =>
      match statistics_error f with
      | Some e => Raises e
      | None =>
          let feature_count := count_features f in
          if decide (feature_count = 0) then
            Raises (ValueError_ "Input file contains no features")
          else
            match select_valid rules f with
            | Raises e => Raises e
            | Returns valid =>
                match copy_error valid with
                | Some e => Raises e
                | None =>
                    match statistics_of feature_count valid with
                    | Raises e => Raises e
                    | Returns statistics => Returns (valid, statistics)
                    end
                end
            end
      end
  end.

(** geo_validate_geometries (lines 12-233) *)
Definition geo_validate_geometries (data : validation_input) (fs : gmap string stored)
    : outcome validation_output * gmap string stored :=
  match chosen_path data with
  | None =>
      (Raises (ValueError_
         "No input path provided. Must provide 'input_path' or 'formatted_data_path'"), fs)
  | Some input_path =>
      if String.eqb input_path "" then
        (Raises (ValueError_
           "No input path provided. Must provide 'input_path' or 'formatted_data_path'"), fs)
      else if negb (ends_with ".parquet" input_path) then
        (Raises (ValueError_ "Input must be a GeoParquet file"), fs)
      else
        let rules := rules_of data in
        let output_path := mkstemp (dom fs) in
        let fs := <[output_path := Written EmptyFile]> fs in
        match spatial_extension with
        | Some e => (Raises e, fs)
        | None =>
            match validation_attempt input_path rules fs with
            | Raises e =>
                (Raises (RuntimeErrorFrom "Validation failed: " e), delete output_path fs)
            | Returns (valid, statistics) =>
                (Returns (ValidationOutput output_path (valid_features statistics)
                            (input_features statistics) rules statistics),
                 <[output_path := Validated valid]> fs)
            end
        end
  end.

End Validator.

End Downstream.

(** ** More concrete inputs *)

Module Cases.
Import Lattice Scenario.

(** The chunks of the two adjacent squares, four chunks asked for. *)
Definition adjacent_chunks : list (frame (@feature clean)) :=
  match @create_spatial_chunks clean adjacent_squares 4 with
  | Ok chunks => chunks
  | Raise _ => []
  end.

(** The two adjacent squares on the backend whose builder raises. *)
Definition adjacent_squares_failing : frame (@feature failing) :=
  Frame input_columns (Some epsg4326)
        [on_failing 12 [(0, 0)%Z]; on_failing 12 [(1, 0)%Z]].

(** One feature of code 12 with its geometry and one of code 60 without. *)
Definition one_without_geometry : frame (@feature clean) :=
  Frame input_columns (Some epsg4326)
        [on_clean 12 [(0, 0)%Z]; @Feature clean 60 None].

Definition without_geometry_out : list (frame (@merged_row clean)) * gmap Z cat_stats :=
  match @merge_engine clean one_without_geometry 4 with
  | Ok out => out
  | Raise _ => ([], ∅)
  end.

(** The run of [merge_grid] on the one square, default chunk count. *)
Definition square_run : res merge_output * gmap string (@file clean) :=
  @merge_grid clean tmp (item_for "in.parquet" None) (fs_with clean one_square).

Definition square_out : merge_output :=
  match square_run.1 with
  | Ok out => out
  | Raise _ => MergeOutput "" ∅ 0 ∅ 0 0 0
  end.

(** The run of [merge_grid] on the far-apart squares, on the backend whose
    builder raises on the concatenated chunk results. *)
Definition far_run : res merge_output * gmap string (@file failing) :=
  @merge_grid failing tmp (item_for "in.parquet" None)
              (fs_with failing far_squares_failing).

Definition far_out : merge_output :=
  match far_run.1 with
  | Ok out => out
  | Raise _ => MergeOutput "" ∅ 0 ∅ 0 0 0
  end.

(** The two chunks of the far-apart squares, written out. *)
Definition far_chunk (x y : Z) : frame (@feature failing) :=
  Frame input_columns (Some epsg4326) [on_failing 12 [(x, y)]].

(** The run of [merge_grid] on two squares of a class that is not merged. *)
Definition code7_run : res merge_output * gmap string (@file clean) :=
  @merge_grid clean tmp (item_for "in.parquet" None) (fs_with clean adjacent_squares_code7).

Definition code7_out : merge_output :=
  match code7_run.1 with
  | Ok out => out
  | Raise _ => MergeOutput "" ∅ 0 ∅ 0 0 0
  end.

(** A DuckDB in which nothing fails and no feature passes the checks. *)
Definition strict_sql : @Downstream.SpatialSql clean := {|
  Downstream.spatial_extension := None;
  Downstream.unreadable := λ _, "not a Parquet file";
  Downstream.statistics_error := λ _, None;
  Downstream.select_valid := λ _ _, Upstream.Returns [];
  Downstream.copy_error := λ _, None
|}.

End Cases.

Module UpstreamCases.
Import Upstream.

Definition page (names : list string) : pyval :=
  PDict [("type", PStr "FeatureCollection"); ("features", PList (PStr <$> names))].

(** A batch with the given features and, if any, the given metadata. *)
Definition batch (names : list string) (entry : option pyval) : pyval :=
  PDict (("geojson_data", page names) ::
         match entry with
         | Some m => [("metadata", m)]
         | None => []
         end).

Definition two_batches : pyval :=
  PList [batch ["a"] (Some (PDict [("source", PStr "wfs")])); batch ["b"; "c"] None].

Definition two_batches_combined : pyval :=
  match combine_batches 1 two_batches with
  | Returns result => result
  | Raises _ => PNone
  end.

(** Three batches: none, an empty and a full metadata dictionary. *)
Definition mixed_metadata : pyval :=
  PList [batch ["a"] None; batch ["b"] (Some (PDict []));
         batch ["c"] (Some (PDict [("source", PStr "wfs")]))].

(** A service that announces three features and serves them two at a
    time. *)
Definition three_features : WfsService := {|
  get_capabilities := λ _,
    Capabilities [("natur:kulstof2022", LayerInfo None (Some "EPSG:4326"))];
  get_hits := λ _ _, Hits (Number 3);
  get_features := λ rq,
    if (rq_start_index rq =? 0)%Z then Json (page ["a"; "b"]) else Json (page ["c"])
|}.

(** A service whose answer to [GetFeature] has no [features]. *)
Definition no_features : WfsService := {|
  get_capabilities := λ _, Capabilities [("natur:kulstof2022", LayerInfo None None)];
  get_hits := λ _ _, Hits (Number 3);
  get_features := λ _, Json (PDict [("type", PStr "ExceptionReport")])
|}.

Definition by_two : loader_config := LoaderConfig None None (Some 2%Z).

Definition by_zero : loader_config := LoaderConfig None None (Some 0%Z).

Definition plan : list batch_item * list block_metadata :=
  match @load_wetlands_data three_features by_two with
  | Returns p => p
  | Raises _ => ([], [])
  end.

Definition plan_metadata : batch_metadata :=
  BatchMetadata "https://wfs2-miljoegis.mim.dk/natur/ows" "natur:kulstof2022" 2 2 3.

Definition planned_items : list batch_item :=
  [BatchItem 0 plan_metadata; BatchItem 1 plan_metadata].

Definition fetched_pages : list pyval :=
  [PDict [("batch_index", PInt 0); ("geojson_data", page ["a"; "b"]);
          ("metadata", metadata_dict plan_metadata)];
   PDict [("batch_index", PInt 1); ("geojson_data", page ["c"]);
          ("metadata", metadata_dict plan_metadata)]].

Definition pages_combined : pyval :=
  match combine_batches 1 (PList fetched_pages) with
  | Returns result => result
  | Raises _ => PNone
  end.

End UpstreamCases.

(** * Properties *)

(** ** Labels and groups *)

Lemma relabel_length (a b : nat) (labels : list nat) :
  length (relabel a b labels) = length labels.
Proof. unfold relabel. by rewrite length_map. Qed.

Lemma foldl_link_length (es : list (nat * nat)) (labels : list nat) :
  length (foldl link labels es) = length labels.
Proof.
  revert labels. induction es as [|e es IH]; intros labels; simpl; [done|].
  rewrite IH. unfold link. apply relabel_length.
Qed.

Lemma root_labels_length (n : nat) (W : nat → nat → bool) :
  length (root_labels n W) = n.
Proof. unfold root_labels. by rewrite foldl_link_length, length_seq. Qed.

Lemma component_labels_length (n : nat) (W : nat → nat → bool) :
  length (component_labels n W) = n.
Proof. unfold component_labels. by rewrite length_fmap, root_labels_length. Qed.

(** *** The labels are the connected components *)

Lemma linked_mono (es es' : list (nat * nat)) (i j : nat) :
  es ⊆ es' → linked es i j → linked es' i j.
Proof.
  intros Hsub. induction 1.
  - apply linked_refl.
  - apply linked_edge. by apply Hsub.
  - by apply linked_sym.
  - by eapply linked_trans.
Qed.

Lemma labels_invariant_init (n : nat) : labels_invariant n [] (seq 0 n).
Proof.
  split_and!.
  - apply length_seq.
  - intros i l Hi. apply lookup_seq in Hi as [-> Hi]. simpl.
    split; [done|]. by apply lookup_seq_lt.
  - intros i j H. induction H; try congruence.
    by apply elem_of_nil in H.
  - intros i j Hi Hj. rewrite !lookup_seq_lt by done. intros [= ->].
    apply linked_refl.
Qed.

Lemma relabel_lookup (a b : nat) (L : list nat) (i : nat) :
  relabel a b L !! i = (λ l, if decide (l = a) then b else l) <$> L !! i.
Proof. unfold relabel. apply list_lookup_fmap. Qed.

Lemma labels_invariant_link (n : nat) (es : list (nat * nat)) (L : list nat) (a b : nat) :
  a < n → b < n →
  labels_invariant n es L →
  labels_invariant n (es ++ [(a, b)]) (link L (a, b)).
Proof.
  intros Ha Hb (Hlen & Hroot & Hsound & Hcomplete).
  destruct (lookup_lt_is_Some_2 L a) as [la Hla]; [lia|].
  destruct (lookup_lt_is_Some_2 L b) as [lb Hlb]; [lia|].
  unfold link. cbn [fst snd].
  rewrite (nth_lookup_Some _ _ _ _ Hla), (nth_lookup_Some _ _ _ _ Hlb).
  destruct (Hroot _ _ Hla) as [Hla_lt Hla_root].
  destruct (Hroot _ _ Hlb) as [Hlb_lt Hlb_root].
  set (hi := la `max` lb). set (lo := la `min` lb).
  assert (Hlo_root : L !! lo = Some lo).
  { unfold lo. destruct (Nat.min_spec la lb) as [[_ ->]|[_ ->]]; done. }
  assert (Hlo_lt : lo < n) by (unfold lo; lia).
  assert (Hab : linked (es ++ [(a, b)]) a b).
  { apply linked_edge. apply elem_of_app. right. by apply list_elem_of_singleton. }
  assert (Hmono : ∀ i j, linked es i j → linked (es ++ [(a, b)]) i j).
  { intros i j. apply linked_mono. intros e He. apply elem_of_app. by left. }
  (* the two nodes whose labels are [hi] and [lo] are linked by the new edge *)
  assert (Hends : ∃ x y, x < n ∧ y < n ∧ L !! x = Some hi ∧ L !! y = Some lo ∧
                         linked (es ++ [(a, b)]) x y).
  { unfold hi, lo. destruct (Nat.max_spec la lb) as [[Hlt ->]|[Hle ->]].
    - rewrite Nat.min_l by lia. exists b, a. split_and!; try done.
      by apply linked_sym.
    - rewrite Nat.min_r by lia. exists a, b. by split_and!. }
  destruct Hends as (x & y & Hx & Hy & Hxl & Hyl & Hxy).
  split_and!.
  - by rewrite relabel_length.
  - intros i l. rewrite relabel_lookup.
    destruct (L !! i) as [li|] eqn:Hli; [|done]. simpl. intros [= <-].
    destruct (Hroot _ _ Hli) as [Hli_lt Hli_root].
    case_decide as Hc.
    + split; [done|]. rewrite relabel_lookup, Hlo_root. simpl.
      by case_decide.
    + split; [done|]. rewrite relabel_lookup, Hli_root. simpl.
      by rewrite decide_False.
  - intros i j H. induction H as [i|i j Hin|i j _ IH|i j k _ IH1 _ IH2].
    + done.
    + apply elem_of_app in Hin as [Hin|Hin].
      * rewrite !relabel_lookup. f_equal. apply Hsound. by apply linked_edge.
      * apply list_elem_of_singleton in Hin. injection Hin as -> ->.
        rewrite !relabel_lookup, Hla, Hlb. simpl. f_equal.
        unfold hi, lo. repeat case_decide; lia.
    + done.
    + congruence.
  - intros i j Hi Hj. rewrite !relabel_lookup.
    destruct (lookup_lt_is_Some_2 L i) as [li Hli]; [lia|].
    destruct (lookup_lt_is_Some_2 L j) as [lj Hlj]; [lia|].
    rewrite Hli, Hlj. simpl. intros [= Heq].
    assert (Hto : ∀ u v lu, u < n → v < n → L !! u = Some lu → L !! v = Some lu →
                    linked (es ++ [(a, b)]) u v).
    { intros u v lu Hu Hv H1 H2. apply Hmono, Hcomplete; [done..|]. congruence. }
    repeat case_decide; subst.
    + by eapply Hto.
    + eapply linked_trans; [by eapply (Hto i x)|].
      eapply linked_trans; [exact Hxy|]. by eapply (Hto y j).
    + eapply linked_trans; [by eapply (Hto i y)|].
      eapply linked_trans; [apply linked_sym, Hxy|]. by eapply (Hto x j).
    + by eapply Hto.
Qed.

Lemma labels_invariant_foldl (n : nat) (done es : list (nat * nat)) (L : list nat) :
  Forall (λ e, e.1 < n ∧ e.2 < n) es →
  labels_invariant n done L →
  labels_invariant n (done ++ es) (foldl link L es).
Proof.
  revert done L. induction es as [|[a b] es IH]; intros done L Hes HL; simpl.
  - by rewrite app_nil_r.
  - apply Forall_cons_1 in Hes as [[Ha Hb] Hes]. simpl in *.
    replace (done ++ (a, b) :: es) with ((done ++ [(a, b)]) ++ es)
      by (by rewrite <- app_assoc).
    apply IH; [done|]. by apply labels_invariant_link.
Qed.

Lemma graph_edges_elem (n : nat) (W : nat → nat → bool) (i j : nat) :
  (i, j) ∈ graph_edges n W ↔ i < n ∧ j < n ∧ W i j = true.
Proof.
  unfold graph_edges. rewrite list_elem_of_filter, list_elem_of_bind. simpl. split.
  - intros (HW & x & Hx & Hxn). apply list_elem_of_fmap in Hx as (y & [= -> ->] & Hy).
    apply elem_of_seq in Hxn, Hy. split_and!; [lia..|done].
  - intros (Hi & Hj & HW). split; [done|]. exists i. split.
    + apply list_elem_of_fmap. exists j. split; [done|]. apply elem_of_seq. lia.
    + apply elem_of_seq. lia.
Qed.

Lemma linked_connected (n : nat) (W : nat → nat → bool) (i j : nat) :
  linked (graph_edges n W) i j ↔ connected n W i j.
Proof.
  split; induction 1.
  - apply connected_refl.
  - apply graph_edges_elem in H as (? & ? & ?). by apply connected_edge.
  - by apply connected_sym.
  - by eapply connected_trans.
  - apply linked_refl.
  - apply linked_edge, graph_edges_elem. done.
  - by apply linked_sym.
  - by eapply linked_trans.
Qed.

Lemma root_labels_invariant (n : nat) (W : nat → nat → bool) :
  labels_invariant n (graph_edges n W) (root_labels n W).
Proof.
  unfold root_labels.
  apply (labels_invariant_foldl n [] (graph_edges n W) (seq 0 n)).
  - apply Forall_forall. intros [i j] H.
    apply graph_edges_elem in H as (? & ? & _). done.
  - apply labels_invariant_init.
Qed.

Lemma label_rank_lt (roots : list nat) (l1 l2 : nat) :
  l1 < l2 → nth l1 roots l1 = l1 → label_rank roots l1 < label_rank roots l2.
Proof.
  intros Hlt Hroot. unfold label_rank.
  replace l2 with (l1 + S (l2 - S l1)) by lia.
  rewrite seq_app, filter_app, length_app. simpl.
  rewrite filter_cons_True by done. simpl. lia.
Qed.

Lemma label_rank_inj (roots : list nat) (l1 l2 : nat) :
  nth l1 roots l1 = l1 → nth l2 roots l2 = l2 →
  label_rank roots l1 = label_rank roots l2 → l1 = l2.
Proof.
  intros H1 H2 Heq. destruct (Nat.lt_total l1 l2) as [Hlt|[->|Hlt]]; [|done|].
  - pose proof (label_rank_lt roots l1 l2 Hlt H1). lia.
  - pose proof (label_rank_lt roots l2 l1 Hlt H2). lia.
Qed.

(** Two nodes carry the same label exactly when they are connected. *)
Lemma component_labels_connected (n : nat) (W : nat → nat → bool) (i j : nat) :
  i < n → j < n →
  component_labels n W !! i = component_labels n W !! j ↔ connected n W i j.
Proof.
  intros Hi Hj. rewrite <- linked_connected.
  destruct (root_labels_invariant n W) as (Hlen & Hroot & Hsound & Hcomplete).
  unfold component_labels. rewrite !list_lookup_fmap.
  destruct (lookup_lt_is_Some_2 (root_labels n W) i) as [li Hli]; [lia|].
  destruct (lookup_lt_is_Some_2 (root_labels n W) j) as [lj Hlj]; [lia|].
  split.
  - rewrite Hli, Hlj. simpl. intros [= Heq].
    apply Hcomplete; [done..|]. rewrite Hli, Hlj. f_equal.
    destruct (Hroot _ _ Hli) as [_ Hri]. destruct (Hroot _ _ Hlj) as [_ Hrj].
    apply (label_rank_inj (root_labels n W)); [| |done].
    + by apply nth_lookup_Some.
    + by apply nth_lookup_Some.
  - intros H. by rewrite (Hsound _ _ H).
Qed.

(** Labels are numbered in the order in which the components first occur:
    with edges between the nodes two apart, the even nodes are component 0
    and the odd ones component 1. *)
Example component_labels_numbering :
  component_labels 5 (λ i j, bool_decide (i + 2 = j ∨ j + 2 = i)) = [0; 1; 0; 1; 0].
Proof. reflexivity. Qed.

Lemma group_keys_elem (labels : list nat) (c : nat) :
  c ∈ group_keys labels ↔ c ∈ labels.
Proof.
  unfold group_keys. rewrite list_elem_of_filter, elem_of_seq. split; [tauto|].
  intros H. split; [done|]. split; [lia|].
  pose proof (max_list_elem_of_le _ _ H). lia.
Qed.

Lemma group_keys_NoDup (labels : list nat) : NoDup (group_keys labels).
Proof. unfold group_keys. apply NoDup_filter, NoDup_seq. Qed.

Lemma group_members_elem {R} (c : nat) (labels : list nat) (rs : list R) (r : R) :
  r ∈ group_members c labels rs ↔ ∃ i, labels !! i = Some c ∧ rs !! i = Some r.
Proof.
  unfold group_members. rewrite list_elem_of_fmap. split.
  - intros ([l r'] & -> & H). apply list_elem_of_filter in H as [Hl H]. simpl in *.
    apply list_elem_of_lookup in H as [i Hi]. apply lookup_zip_with_Some in Hi.
    destruct Hi as (x & y & [= <- <-] & Hx & Hy). subst. eauto.
  - intros (i & Hl & Hr). exists (c, r). split; [done|].
    apply list_elem_of_filter. split; [done|].
    apply list_elem_of_lookup. exists i. apply lookup_zip_with_Some. eauto.
Qed.

Lemma group_members_nonempty {R} (c : nat) (labels : list nat) (rs : list R) :
  c ∈ labels → length labels ≤ length rs → group_members c labels rs ≠ [].
Proof.
  intros Hc Hlen. apply list_elem_of_lookup in Hc as [i Hi].
  destruct (lookup_lt_is_Some_2 rs i) as [r Hr].
  { apply lookup_lt_Some in Hi. lia. }
  intros Hnil. assert (H : r ∈ group_members c labels rs).
  { apply group_members_elem. eauto. }
  rewrite Hnil in H. by apply elem_of_nil in H.
Qed.

Lemma dissolve_elem {R O} (labels : list nat) (rs : list R)
    (agg : nat → list R → O) (o : O) :
  o ∈ dissolve labels rs agg ↔
  ∃ c, c ∈ labels ∧ o = agg c (group_members c labels rs).
Proof.
  unfold dissolve. rewrite list_elem_of_fmap.
  split; intros (c & H1 & H2); exists c.
  - by rewrite <- group_keys_elem.
  - by rewrite group_keys_elem.
Qed.

(** ** The CRS guard *)

Lemma require_epsg4326_ok (c c' : option CRS) :
  require_epsg4326 c = Ok c' → ∃ x, c' = Some x ∧ to_epsg x = Some 4326%Z.
Proof.
  destruct c as [x|]; simpl.
  - case_decide; [|discriminate]. intros [= <-]. eauto.
  - intros [= <-]. by exists epsg4326.
Qed.

Lemma require_epsg4326_idem (c c' : option CRS) :
  require_epsg4326 c = Ok c' → require_epsg4326 c' = Ok c'.
Proof.
  intros H. destruct (require_epsg4326_ok _ _ H) as (x & -> & Hx).
  simpl. by rewrite decide_True.
Qed.

Lemma require_epsg4326_mismatch (x : CRS) :
  to_epsg x ≠ Some 4326%Z → ∃ msg, require_epsg4326 (Some x) = Raise (ValueError msg).
Proof. intros H. simpl. rewrite decide_False by done. eauto. Qed.

(** ** What the per-chunk and the stitching merge return *)

Section EngineFacts.
Context `{B : GeoBackend}.

Lemma queen_component_labels_length (gs : list (option geom)) (labels : list nat) :
  queen_component_labels gs = Ok labels → length labels = length gs.
Proof.
  unfold queen_component_labels. destruct (queen_raises gs); [done|].
  intros [= <-]. apply component_labels_length.
Qed.

Lemma process_chunk_frame (chunk : frame feature) (code : Z) (f : frame merged_row) :
  process_chunk chunk code = Ok (Some f) →
  merged_frame_for code f ∧
  columns f = ["component_id"; "geometry"; "gridcode"; "merged_count"] ∧
  Forall (λ r, temp_id r = None) (rows f).
Proof.
  unfold process_chunk. case_decide as Hlen; [done|].
  destruct (require_epsg4326 _) as [ck|]; [|done]. simpl.
  set (filtered := filter _ (rows chunk)) in *.
  set (fixed := _ <$> filtered).
  destruct (queen_component_labels _) as [labels|] eqn:Hq; [|done]. simpl.
  intros [= <-]. simpl.
  apply queen_component_labels_length in Hq. rewrite length_fmap in Hq.
  assert (Hfl : length fixed = length filtered) by apply length_fmap.
  assert (Hfixed : ∀ r, r ∈ fixed → f_gridcode r = code).
  { intros r Hr. apply list_elem_of_fmap in Hr as (r0 & -> & Hr0).
    by apply list_elem_of_filter in Hr0 as [? _]. }
  split; [split; [done|split]|split; [done|]].
  - destruct labels as [|l labels]; [simpl in Hq; lia|].
    intros Hnil. apply fmap_nil_inv in Hnil.
    assert (H : l ∈ group_keys (l :: labels)) by (apply group_keys_elem; left).
    unfold dissolve in Hnil. apply fmap_nil_inv in Hnil. rewrite Hnil in H.
    by apply elem_of_nil in H.
  - apply Forall_forall. intros r Hr.
    apply list_elem_of_fmap in Hr as (r0 & -> & Hr0).
    apply dissolve_elem in Hr0 as (c & Hc & ->). simpl. split; [|by eexists].
    pose proof (group_members_nonempty c labels fixed Hc) as Hne.
    destruct (group_members c labels fixed) as [|m ms] eqn:Hm.
    { exfalso. apply Hne; [lia|done]. }
    simpl. apply Hfixed.
    assert (Hin : m ∈ group_members c labels fixed) by (rewrite Hm; left).
    apply group_members_elem in Hin as (i & _ & Hi).
    by apply list_elem_of_lookup_2 in Hi.
  - apply Forall_forall. intros r Hr.
    apply list_elem_of_fmap in Hr as (r0 & -> & Hr0).
    by apply dissolve_elem in Hr0 as (c & Hc & ->).
Qed.

Lemma res_mapM_ok {A C} (f : A → res C) (l : list A) (out : list C) :
  res_mapM f l = Ok out → Forall2 (λ a b, f a = Ok b) l out.
Proof.
  revert out. induction l as [|a l IH]; intros out; simpl.
  - intros [= <-]. constructor.
  - destruct (f a) as [b|] eqn:Hb; [|done]. simpl.
    destruct (res_mapM f l) as [bs|]; [|done]. simpl.
    intros [= <-]. constructor; [done|]. by apply IH.
Qed.

Lemma chunk_results_for_frames (chunks : list (frame feature)) (code : Z)
    (results : list (frame merged_row)) :
  chunk_results_for chunks code = Ok results →
  Forall (λ f, merged_frame_for code f ∧ Forall (λ r, temp_id r = None) (rows f)) results.
Proof.
  unfold chunk_results_for.
  destruct (res_mapM _ chunks) as [out|] eqn:Hout; [|done]. simpl.
  intros [= <-]. apply res_mapM_ok in Hout.
  apply Forall_forall. intros f Hf.
  apply list_elem_of_filter in Hf as [_ Hf].
  apply list_elem_of_omap in Hf as (o & Ho & Hid). simpl in Hid. subst o.
  apply list_elem_of_lookup in Ho as [i Hi].
  destruct (Forall2_lookup_r _ _ _ _ _ Hout Hi) as (chunk & _ & Hc).
  destruct (process_chunk_frame _ _ _ Hc) as (? & _ & ?). done.
Qed.

Lemma with_temp_ids_elem (rs : list merged_row) (r : merged_row) :
  r ∈ with_temp_ids rs →
  ∃ r0, r0 ∈ rs ∧ gridcode r = gridcode r0 ∧ geometry r = geometry r0 ∧
        merged_count r = merged_count r0 ∧ component_id r = component_id r0.
Proof.
  unfold with_temp_ids. intros H. apply list_elem_of_lookup in H as [i Hi].
  apply list_lookup_imap_Some in Hi as (r0 & Hr0 & ->).
  exists r0. split; [by eapply list_elem_of_lookup_2|done].
Qed.

Lemma with_temp_ids_length (rs : list merged_row) :
  length (with_temp_ids rs) = length rs.
Proof. unfold with_temp_ids. by rewrite length_imap. Qed.

Lemma pd_concat_crs {R} (f : frame R) (fs : list (frame R)) :
  crs (pd_concat (f :: fs)) = crs f.
Proof. done. Qed.

Lemma pd_concat_rows {R} (fs : list (frame R)) :
  rows (pd_concat fs) = mjoin (rows <$> fs).
Proof. done. Qed.

Lemma stitch_frame (code : Z) (f : frame merged_row) (fs : list (frame merged_row)) :
  Forall (merged_frame_for code) (f :: fs) →
  merged_frame_for code (stitch (f :: fs)).
Proof.
  intros Hall. unfold stitch.
  set (cat := pd_concat (f :: fs)).
  assert (Hcrs : crs cat = Some epsg4326).
  { unfold cat. rewrite pd_concat_crs. by apply Forall_cons_1 in Hall as [[? _] _]. }
  assert (Hrows : Forall (λ r, gridcode r = code ∧ is_Some (geometry r)) (rows cat)).
  { apply Forall_forall. intros r Hr. unfold cat in Hr.
    rewrite pd_concat_rows in Hr.
    apply list_elem_of_join in Hr as (l & Hr & Hl).
    apply list_elem_of_fmap in Hl as (g & -> & Hg).
    rewrite Forall_forall in Hall. destruct (Hall g Hg) as (_ & _ & Hg').
    rewrite Forall_forall in Hg'. by apply Hg'. }
  assert (Hne : rows cat ≠ []).
  { simpl. apply Forall_cons_1 in Hall as [(_ & Hf & _) _].
    destruct (rows f); [done|]. done. }
  set (merged_rows := with_temp_ids (rows cat)).
  assert (Hlen : length merged_rows = length (rows cat))
    by apply with_temp_ids_length.
  assert (Hne' : merged_rows ≠ []).
  { intros Hnil. apply Hne, nil_length_inv. by rewrite <- Hlen, Hnil. }
  assert (Htemp : Forall (λ r, gridcode r = code ∧ is_Some (geometry r)) merged_rows).
  { apply Forall_forall. intros r Hr.
    apply with_temp_ids_elem in Hr as (r0 & Hr0 & -> & -> & _).
    rewrite Forall_forall in Hrows. by apply Hrows. }
  cbn [rows crs columns].
  destruct (queen_component_labels _) as [labels|] eqn:Hq.
  - apply queen_component_labels_length in Hq. rewrite length_fmap in Hq.
    split; [done|split]; cbn [rows].
    + destruct labels as [|l labels].
      { simpl in Hq. symmetry in Hq. by apply nil_length_inv in Hq. }
      intros Hnil. unfold dissolve in Hnil. apply fmap_nil_inv in Hnil.
      assert (H : l ∈ group_keys (l :: labels)) by (apply group_keys_elem; left).
      rewrite Hnil in H. by apply elem_of_nil in H.
    + apply Forall_forall. intros r Hr.
      apply dissolve_elem in Hr as (c & Hc & ->). simpl. split; [|by eexists].
      assert (Hle : length labels ≤ length merged_rows) by lia.
      pose proof (group_members_nonempty c labels _ Hc Hle) as Hn.
      destruct (group_members c labels merged_rows) as [|m ms] eqn:Hm; [done|]. simpl.
      assert (Hin : m ∈ group_members c labels merged_rows) by (rewrite Hm; left).
      apply group_members_elem in Hin as (i & _ & Hi).
      apply list_elem_of_lookup_2 in Hi.
      rewrite Forall_forall in Htemp. by apply Htemp.
  - by split.
Qed.

Lemma merge_code_invariant (chunks : list (frame feature)) (stats0 : gmap Z cat_stats)
    (st st' : list (frame merged_row) * gmap Z cat_stats) (code : Z) :
  code ∈ gridcodes →
  loop_invariant stats0 st →
  merge_code chunks st code = Ok st' →
  loop_invariant stats0 st'.
Proof.
  intros Hcode (Hdom & Horig & Hzero & Hframes). unfold merge_code.
  case_decide as Hz; [by intros [= <-]|].
  destruct (chunk_results_for chunks code) as [results|] eqn:Hres; [|done]. simpl.
  destruct results as [|f fs]; [by intros [= <-]|].
  intros [= <-]. apply chunk_results_for_frames in Hres.
  assert (Hall : Forall (merged_frame_for code) (f :: fs)).
  { eapply Forall_impl; [exact Hres|]. by intros ? [? _]. }
  pose proof (stitch_frame code f fs Hall) as Hst.
  split; [|split; [|split]]; simpl.
  - by rewrite dom_alter_L.
  - intros c. rewrite lookup_alter. case_decide; [subst c|by apply Horig].
    rewrite <- Horig. by destruct (st.2 !! code).
  - intros c s. rewrite lookup_alter. case_decide; [subst c|by apply Hzero].
    destruct (st.2 !! code) as [s0|] eqn:Hs0; [|done].
    intros [= <-]. simpl. intros H0. exfalso. apply Hz.
    unfold stats_original. by rewrite Hs0.
  - apply Forall_app. split; [done|]. apply Forall_singleton.
    exists code. split; [done|]. split; [|done].
    unfold stats_original in *. by rewrite <- Horig.
Qed.

Lemma merge_all_invariant (chunks : list (frame feature)) (stats0 : gmap Z cat_stats)
    (st' : list (frame merged_row) * gmap Z cat_stats) :
  (∀ c s, stats0 !! c = Some s → original_features s = 0 → merged_features s = 0) →
  merge_all chunks stats0 = Ok st' →
  loop_invariant stats0 st'.
Proof.
  intros H0. unfold merge_all.
  assert (Hinit : loop_invariant stats0 ([], stats0)) by (by split_and!).
  assert (Hcodes : Forall (λ c, c ∈ gridcodes) gridcodes) by (by apply Forall_forall).
  revert Hinit Hcodes. generalize gridcodes at 2 3.
  generalize (([] : list (frame merged_row)), stats0) as st.
  intros st codes. revert st. induction codes as [|c codes IH]; intros st Hst Hc; simpl.
  - by intros [= <-].
  - apply Forall_cons_1 in Hc as [Hc Hcs].
    destruct (merge_code chunks st c) as [st1|] eqn:Hm; [|done]. simpl.
    apply IH; [|done]. by eapply merge_code_invariant.
Qed.

Lemma count_originals_stats (gdf : frame feature) :
  let n12 := length (filter (λ r, f_gridcode r = 12%Z) (rows gdf)) in
  let n60 := length (filter (λ r, f_gridcode r = 60%Z) (rows gdf)) in
  (count_originals gdf).1 !! 12%Z = Some (CatStats n12 0) ∧
  (count_originals gdf).1 !! 60%Z = Some (CatStats n60 0) ∧
  dom (count_originals gdf).1 = {[12%Z; 60%Z]} ∧
  (count_originals gdf).2 = n12 + n60.
Proof.
  intros n12 n60. unfold count_originals, gridcodes, initial_merge_stats. simpl.
  split_and!.
  - rewrite lookup_alter_ne by done. rewrite lookup_alter_eq.
    by rewrite lookup_insert_eq.
  - rewrite lookup_alter_eq, lookup_alter_ne by done.
    rewrite lookup_insert_ne by done. by rewrite lookup_singleton_eq.
  - rewrite !dom_alter_L, dom_insert_L, dom_singleton_L. done.
  - done.
Qed.

Lemma count_originals_zero (gdf : frame feature) (c : Z) (s : cat_stats) :
  (count_originals gdf).1 !! c = Some s → merged_features s = 0.
Proof.
  destruct (count_originals_stats gdf) as (H12 & H60 & Hdom & _).
  intros Hs. assert (Hin : c ∈ dom (count_originals gdf).1) by by eapply elem_of_dom_2.
  rewrite Hdom in Hin. apply elem_of_union in Hin as [Hin|Hin];
    apply elem_of_singleton in Hin; subst c.
  - rewrite H12 in Hs. by injection Hs as <-.
  - rewrite H60 in Hs. by injection Hs as <-.
Qed.

Lemma gridcodes_elem (code : Z) :
  code ∈ gridcodes ↔ code = 12%Z ∨ code = 60%Z.
Proof. unfold gridcodes. by rewrite elem_of_cons, list_elem_of_singleton. Qed.

Lemma merge_all_skips (chunks : list (frame feature)) (stats0 : gmap Z cat_stats) :
  (∀ code, code ∈ gridcodes → stats_original stats0 code = 0) →
  merge_all chunks stats0 = Ok ([], stats0).
Proof.
  intros H0. unfold merge_all, gridcodes. simpl. unfold merge_code. simpl.
  rewrite decide_True by (apply H0, gridcodes_elem; by left). simpl.
  rewrite decide_True by (apply H0, gridcodes_elem; by right). done.
Qed.

Lemma create_spatial_chunks_ok (gdf : frame feature) (k : Z) :
  (0 ≤ k)%Z → ∃ chunks, create_spatial_chunks gdf k = Ok chunks.
Proof.
  intros Hk. unfold create_spatial_chunks, chunks_per_side.
  rewrite decide_False by lia. simpl. eauto.
Qed.

Lemma stats_original_count (gdf : frame feature) (code : Z) :
  code ∈ gridcodes →
  stats_original (count_originals gdf).1 code
    = length (filter (λ r, f_gridcode r = code) (rows gdf)).
Proof.
  destruct (count_originals_stats gdf) as (H12 & H60 & _ & _).
  intros Hc. unfold stats_original.
  apply gridcodes_elem in Hc as [->| ->]; [by rewrite H12|by rewrite H60].
Qed.

Lemma filter_none_length {A} (P : A → Prop) `{∀ x, Decision (P x)} (l : list A) :
  (∀ x, x ∈ l → ¬ P x) → length (filter P l) = 0.
Proof.
  intros Hn. destruct (filter P l) as [|x l'] eqn:Hf; [done|].
  assert (Hx : x ∈ filter P l) by (rewrite Hf; left).
  apply list_elem_of_filter in Hx as [HP Hx]. by destruct (Hn x Hx).
Qed.

(** *** One merged feature per connected component *)

Lemma filter_unique {A} (P : A → Prop) `{∀ x, Decision (P x)} (l : list A) (i : nat) (x : A) :
  l !! i = Some x → P x →
  (∀ j y, l !! j = Some y → P y → j = i) →
  filter P l = [x].
Proof.
  revert i. induction l as [|a l IH]; intros i Hi Hx Huniq; [done|].
  rewrite filter_cons. destruct i as [|i]; simpl in Hi.
  - injection Hi as ->. rewrite decide_True by done. f_equal.
    destruct (filter P l) as [|y l'] eqn:Hf; [done|]. exfalso.
    assert (Hy : y ∈ filter P l) by (rewrite Hf; left).
    apply list_elem_of_filter in Hy as [HPy Hy].
    apply list_elem_of_lookup in Hy as [j Hj].
    by specialize (Huniq (S j) y Hj HPy).
  - rewrite decide_False.
    + apply (IH i); [done..|]. intros j y Hj Hy.
      specialize (Huniq (S j) y Hj Hy). lia.
    + intros Ha. by specialize (Huniq 0 a eq_refl Ha).
Qed.

Lemma group_members_singleton {R} (labels : list nat) (rs : list R)
    (i c : nat) (r : R) :
  labels !! i = Some c → rs !! i = Some r →
  (∀ j, labels !! j = Some c → j = i) →
  group_members c labels rs = [r].
Proof.
  intros Hl Hr Huniq. unfold group_members.
  rewrite (filter_unique (λ lr : nat * R, lr.1 = c) (zip labels rs) i (c, r)); [done| |done|].
  - apply lookup_zip_with_Some. eauto.
  - intros j [l y] Hj Hy. simpl in Hy. subst l.
    apply lookup_zip_with_Some in Hj as (? & ? & [= <- <-] & Hj & _). by apply Huniq.
Qed.

Lemma omap_id_fmap {A C} (f : A → option C) (l : list A) :
  omap id (f <$> l) = omap f l.
Proof.
  induction l as [|a l IH]; [done|].
  rewrite fmap_cons. cbn [omap list_omap]. cbn [omap] in IH. rewrite IH.
  by destruct (f a).
Qed.

Lemma dissolve_component_ids {R} (labels : list nat) (rs : list R)
    (agg : nat → list R → merged_row) (post : merged_row → merged_row) :
  (∀ c ms, component_id (post (agg c ms)) = c) →
  component_id <$> (post <$> dissolve labels rs agg) = group_keys labels.
Proof.
  intros Hagg. unfold dissolve. rewrite <- !list_fmap_compose.
  transitivity (id <$> group_keys labels); [|apply list_fmap_id].
  apply list_fmap_ext. intros i c _. simpl. apply Hagg.
Qed.

Lemma component_labels_rows {R} (gs : list (option geom)) (rs : list R)
    (agg : nat → list R → merged_row) (post : merged_row → merged_row) :
  (∀ c ms, component_id (post (agg c ms)) = c) →
  one_row_per_component (length gs) (queen_weights gs)
    (component_labels (length gs) (queen_weights gs))
    (post <$> dissolve (component_labels (length gs) (queen_weights gs)) rs agg).
Proof.
  intros Hagg. split_and!.
  - apply component_labels_length.
  - intros i j Hi Hj. by apply component_labels_connected.
  - rewrite dissolve_component_ids by done. apply group_keys_NoDup.
  - intros c. rewrite dissolve_component_ids by done. apply group_keys_elem.
Qed.

(** C8. Each of the two merges returns exactly one row per connected
    component of the contiguity graph of the rows it works on. In
    [process_chunk] the row's geometry is the (re-validated) union of the
    geometries of the component and its [merged_count] is the number of
    features in the component, so a feature connected to no other gives a
    row with [merged_count = 1] and its own geometry; in the stitch the
    geometry is the union of the component's geometries and [merged_count]
    is the sum of the components' own [merged_count]. *)
Theorem component_merger (chunk : frame feature) (code : Z) (f : frame merged_row)
    (results : list (frame merged_row)) :
  (process_chunk chunk code = Ok (Some f) →
     let members := chunk_members chunk code in
     let n := length members in
     let W := queen_weights (f_geometry <$> members) in
     ∃ labels,
       one_row_per_component n W labels (rows f) ∧
       (∀ r, r ∈ rows f →
          let group := group_members (component_id r) labels members in
          group ≠ [] ∧
          geometry r = Some (make_valid (unary_union (omap f_geometry group))) ∧
          merged_count r = length group) ∧
       (∀ i m, members !! i = Some m →
          (∀ j, j < n → connected n W i j → j = i) →
          ∃ r, r ∈ rows f ∧ merged_count r = 1 ∧
               geometry r = Some (make_valid (unary_union (omap f_geometry [m]))))) ∧
  (queen_raises (geometry <$> rows (unstitched results)) = false →
     let members := rows (unstitched results) in
     let n := length members in
     let W := queen_weights (geometry <$> members) in
     ∃ labels,
       one_row_per_component n W labels (rows (stitch results)) ∧
       (∀ r, r ∈ rows (stitch results) →
          let group := group_members (component_id r) labels members in
          group ≠ [] ∧
          geometry r = Some (unary_union (omap geometry group)) ∧
          merged_count r = sum_list (merged_count <$> group))).
Proof.
  split.
  - unfold process_chunk. case_decide as Hlen; [done|].
    destruct (require_epsg4326 _) as [ck|]; [|done]. cbn [res_bind].
    fold (chunk_members chunk code). set (members := chunk_members chunk code).
    unfold queen_component_labels.
    destruct (queen_raises _); [done|]. cbn [res_bind].
    intros [= <-]. cbn zeta. cbn [rows].
    set (gs := f_geometry <$> members).
    assert (Hn : length gs = length members) by apply length_fmap.
    rewrite <- Hn.
    set (labels := component_labels (length gs) (queen_weights gs)).
    pose proof (component_labels_length (length gs) (queen_weights gs)) as Hll.
    fold labels in Hll.
    exists labels. split; [|split].
    + by apply component_labels_rows.
    + intros r Hr. apply list_elem_of_fmap in Hr as (r0 & -> & Hr0).
      apply dissolve_elem in Hr0 as (c & Hc & ->).
      unfold revalidate. cbn [component_id geometry merged_count].
      unfold union_geometry. cbn [fmap option_fmap option_map].
      rewrite omap_id_fmap.
      split; [|done]. apply group_members_nonempty; [done|lia].
    + intros i m Hm Hiso.
      assert (Hi : i < length gs) by (rewrite Hn; by eapply lookup_lt_Some).
      destruct (lookup_lt_is_Some_2 labels i) as [c Hc]; [lia|].
      assert (Hgroup : group_members c labels members = [m]).
      { apply (group_members_singleton labels members i); [done..|].
        intros j Hj. apply Hiso.
        - apply lookup_lt_Some in Hj. lia.
        - apply component_labels_connected; [done| |].
          + apply lookup_lt_Some in Hj. lia.
          + fold labels. congruence. }
      eexists. split.
      * apply list_elem_of_fmap. eexists. split; [done|].
        apply dissolve_elem. exists c. split; [|done].
        by eapply list_elem_of_lookup_2.
      * unfold revalidate. cbn [component_id geometry merged_count].
        unfold union_geometry. cbn [fmap option_fmap option_map].
        by rewrite omap_id_fmap, Hgroup.
  - intros Hq. cbn zeta. unfold stitch. fold (unstitched results).
    unfold queen_component_labels. rewrite Hq.
    set (members := rows (unstitched results)).
    set (gs := geometry <$> members).
    assert (Hn : length gs = length members) by apply length_fmap.
    rewrite <- Hn. cbn [rows].
    set (labels := component_labels (length gs) (queen_weights gs)).
    pose proof (component_labels_length (length gs) (queen_weights gs)) as Hll.
    fold labels in Hll.
    exists labels. split.
    + rewrite <- (list_fmap_id (dissolve _ _ _)). by apply component_labels_rows.
    + intros r Hr. apply dissolve_elem in Hr as (c & Hc & ->).
      cbn [component_id geometry merged_count]. unfold union_geometry.
      rewrite omap_id_fmap.
      split; [|done]. apply group_members_nonempty; [done|lia].
Qed.

(** *** The partitioner *)

Lemma foldl_pointwise {A C} (f g : C → A → C) (l : list A) (acc : C) :
  (∀ c a, f c a = g c a) → foldl f acc l = foldl g acc l.
Proof.
  intros Hfg. revert acc. induction l as [|x l IH]; intros acc; simpl; [done|].
  by rewrite Hfg, IH.
Qed.

Lemma foldl_append_if {A C} (P : A → Prop) `{∀ x, Decision (P x)}
    (F : A → C) (l : list A) (acc : list C) :
  foldl (λ acc x, if decide (P x) then acc ++ [F x] else acc) acc l
  = acc ++ (F <$> filter P l).
Proof.
  revert acc. induction l as [|x l IH]; intros acc; simpl.
  - by rewrite app_nil_r.
  - rewrite IH, filter_cons. case_decide; [|done].
    by rewrite fmap_cons, <- app_assoc.
Qed.

Lemma foldl_append_bind {A C} (G : A → list C) (l : list A) (acc : list C) :
  foldl (λ acc x, acc ++ G x) acc l = acc ++ (x ← l; G x).
Proof.
  revert acc. induction l as [|x l IH]; intros acc; simpl.
  - by rewrite app_nil_r.
  - by rewrite IH, <- app_assoc.
Qed.

Lemma chunk_loops (gdf : frame feature) (b : bbox) (w h : Q) (iseq jseq : list nat)
    (acc : list (frame feature)) :
  foldl (λ chunks i,
    foldl (λ chunks j,
      let bx := chunk_box b w h i j in
      let chunk_gdf :=
        Frame (columns gdf) (crs gdf)
              (filter (λ r, row_intersects bx r = true) (rows gdf)) in
      if decide (0 < length (rows chunk_gdf)) then chunks ++ [chunk_gdf]
      else chunks)
    chunks jseq) acc iseq
  = acc ++ (chunk_of gdf <$>
      filter (λ cell, 0 < length (cell_members (rows gdf) cell))
             (i ← iseq; (λ j, chunk_box b w h i j) <$> jseq)).
Proof.
  revert acc. induction iseq as [|i iseq IH]; intros acc.
  - simpl. by rewrite app_nil_r.
  - cbn [foldl]. rewrite IH, bind_cons.
    rewrite filter_app, fmap_app, app_assoc. f_equal.
    cbn zeta. cbn [rows].
    rewrite (foldl_append_if
               (λ j, 0 < length (cell_members (rows gdf) (chunk_box b w h i j)))
               (λ j, chunk_of gdf (chunk_box b w h i j))).
    f_equal. clear IH. induction jseq as [|j jseq IHj]; [done|].
    rewrite fmap_cons, !filter_cons.
    repeat case_decide; try tauto.
    rewrite !fmap_cons. f_equal. exact IHj.
Qed.

(** The double loop returns the chunks of the non-empty cells in grid
    order. *)
Lemma create_spatial_chunks_cells (gdf : frame feature) (k : Z) :
  (0 ≤ k)%Z →
  create_spatial_chunks gdf k
  = Ok (chunk_of gdf <$>
          filter (λ cell, 0 < length (cell_members (rows gdf) cell))
                 (grid_cells (total_bounds (rows gdf)) (Z.to_nat (Z.sqrt_up k)))).
Proof.
  intros Hk. unfold create_spatial_chunks, chunks_per_side.
  rewrite decide_False by lia. cbn [res_bind]. f_equal.
  by rewrite chunk_loops.
Qed.

Lemma of_nat_Q_succ (n : nat) : (of_nat_Q (S n) == of_nat_Q n + 1)%Q.
Proof.
  unfold of_nat_Q. rewrite Nat2Z.inj_succ, <- Z.add_1_r, inject_Z_plus. reflexivity.
Qed.

Lemma of_nat_Q_pos (n : nat) : 0 < n → (0 < of_nat_Q n)%Q.
Proof.
  intros Hn. unfold of_nat_Q. change 0%Q with (inject_Z 0).
  rewrite <- Zlt_Qlt. lia.
Qed.

Lemma length_bind_fmap {A C D} (F : A → C → D) (l1 : list A) (l2 : list C) :
  length (i ← l1; F i <$> l2) = length l1 * length l2.
Proof.
  induction l1 as [|i l1 IH]; [done|].
  rewrite bind_cons, length_app, length_fmap, IH. simpl. lia.
Qed.

Lemma grid_cells_length (b : bbox) (s : nat) : length (grid_cells b s) = s * s.
Proof. unfold grid_cells. by rewrite length_bind_fmap, length_seq. Qed.


(** *** The grid covers the bounding box *)

Lemma foldl_Qmin_le (a : Q) (l : list Q) :
  (foldl Qmin a l <= a)%Q ∧ ∀ x, x ∈ l → (foldl Qmin a l <= x)%Q.
Proof.
  revert a. induction l as [|y l IH]; intros a; simpl.
  - split; [apply Qle_refl|]. intros x Hx. by apply elem_of_nil in Hx.
  - destruct (IH (Qmin a y)) as [H1 H2]. split.
    + eapply Qle_trans; [exact H1|apply Q.le_min_l].
    + intros x Hx. apply elem_of_cons in Hx as [->|Hx]; [|by apply H2].
      eapply Qle_trans; [exact H1|apply Q.le_min_r].
Qed.

Lemma foldl_Qmax_ge (a : Q) (l : list Q) :
  (a <= foldl Qmax a l)%Q ∧ ∀ x, x ∈ l → (x <= foldl Qmax a l)%Q.
Proof.
  revert a. induction l as [|y l IH]; intros a; simpl.
  - split; [apply Qle_refl|]. intros x Hx. by apply elem_of_nil in Hx.
  - destruct (IH (Qmax a y)) as [H1 H2]. split.
    + eapply Qle_trans; [apply Q.le_max_l|exact H1].
    + intros x Hx. apply elem_of_cons in Hx as [->|Hx]; [|by apply H2].
      eapply Qle_trans; [apply Q.le_max_r|exact H1].
Qed.

Lemma qmin_list_le (d : Q) (l : list Q) (x : Q) :
  x ∈ l → (qmin_list d l <= x)%Q.
Proof.
  destruct l as [|a l]; [intros H; by apply elem_of_nil in H|].
  intros Hx. simpl. destruct (foldl_Qmin_le a l) as [H1 H2].
  apply elem_of_cons in Hx as [->|Hx]; [done|by apply H2].
Qed.

Lemma qmax_list_ge (d : Q) (l : list Q) (x : Q) :
  x ∈ l → (x <= qmax_list d l)%Q.
Proof.
  destruct l as [|a l]; [intros H; by apply elem_of_nil in H|].
  intros Hx. simpl. destruct (foldl_Qmax_ge a l) as [H1 H2].
  apply elem_of_cons in Hx as [->|Hx]; [done|by apply H2].
Qed.

Lemma total_bounds_contains (rs : list feature) (r : feature) (g : geom) (q : Q * Q) :
  r ∈ rs → f_geometry r = Some g →
  in_box q (geom_bounds g) → in_box q (total_bounds rs).
Proof.
  intros Hr Hg (H1 & H2 & H3 & H4).
  assert (Hb : geom_bounds g ∈ geom_bounds <$> omap f_geometry rs).
  { apply list_elem_of_fmap. exists g. split; [done|].
    apply list_elem_of_omap. eauto. }
  unfold total_bounds, in_box. cbn [minx miny maxx maxy]. split_and!.
  - eapply Qle_trans; [|exact H1]. apply qmin_list_le.
    apply list_elem_of_fmap. eauto.
  - eapply Qle_trans; [exact H2|]. apply qmax_list_ge.
    apply list_elem_of_fmap. eauto.
  - eapply Qle_trans; [|exact H3]. apply qmin_list_le.
    apply list_elem_of_fmap. eauto.
  - eapply Qle_trans; [exact H4|]. apply qmax_list_ge.
    apply list_elem_of_fmap. eauto.
Qed.

Lemma interval_cover (lo w x : Q) (m : nat) :
  1 ≤ m → (lo <= x)%Q → (x <= lo + of_nat_Q m * w)%Q →
  ∃ i, i < m ∧ (lo + of_nat_Q i * w <= x)%Q ∧ (x <= lo + of_nat_Q i * w + w)%Q.
Proof.
  induction m as [|m IH]; [lia|]. intros _ Hlo Hhi.
  destruct (Qlt_le_dec x (lo + of_nat_Q m * w)) as [Hlt|Hge].
  - destruct m as [|m].
    + exfalso. change (of_nat_Q 0) with 0%Q in Hlt. lra.
    + destruct IH as (i & Hi & H1 & H2); [lia|done|lra|].
      exists i. split; [lia|done].
  - exists m. split; [lia|]. split; [done|].
    rewrite of_nat_Q_succ in Hhi. lra.
Qed.

Lemma grid_cover (b : bbox) (s : nat) (p : Q * Q) :
  1 ≤ s → in_box p b → ∃ cell, cell ∈ grid_cells b s ∧ in_box p cell.
Proof.
  intros Hs (H1 & H2 & H3 & H4).
  assert (Hpos : (0 < of_nat_Q s)%Q) by (apply of_nat_Q_pos; lia).
  set (w := ((maxx b - minx b) / of_nat_Q s)%Q).
  set (h := ((maxy b - miny b) / of_nat_Q s)%Q).
  assert (Hw : (minx b + of_nat_Q s * w == maxx b)%Q) by (unfold w; field; lra).
  assert (Hh : (miny b + of_nat_Q s * h == maxy b)%Q) by (unfold h; field; lra).
  destruct (interval_cover (minx b) w p.1 s) as (i & Hi & Hi1 & Hi2); [done..|lra|].
  destruct (interval_cover (miny b) h p.2 s) as (j & Hj & Hj1 & Hj2); [done..|lra|].
  exists (chunk_box b w h i j). split.
  - unfold grid_cells. fold w h. apply list_elem_of_bind. exists i. split.
    + apply list_elem_of_fmap. exists j. split; [done|]. apply elem_of_seq. lia.
    + apply elem_of_seq. lia.
  - unfold in_box, chunk_box. cbn [minx miny maxx maxy]. done.
Qed.

(** *** Touching features end in one merged feature *)

Lemma fix_geometry_valid (g : geom) : is_valid g = true → fix_geometry (Some g) = Some g.
Proof. intros H. simpl. by rewrite H. Qed.

Lemma chunk_members_elem (chunk : frame feature) (code : Z) (r : feature) (g : geom) :
  r ∈ rows chunk → f_gridcode r = code → f_geometry r = Some g → is_valid g = true →
  ∃ i, chunk_members chunk code !! i = Some (Feature code (Some g)).
Proof.
  intros Hr Hc Hg Hv.
  assert (Hin : Feature code (Some g) ∈ chunk_members chunk code).
  { unfold chunk_members. apply list_elem_of_fmap. exists r. split.
    - by rewrite Hc, Hg, fix_geometry_valid.
    - by apply list_elem_of_filter. }
  by apply list_elem_of_lookup in Hin.
Qed.

Lemma absorbed_into_union (g : geom) (gs : list geom) :
  g ∈ gs → absorbed g (unary_union gs).
Proof. intros H. eapply absorbed_union; [exact H|apply absorbed_self]. Qed.

Lemma process_chunk_absorbs (chunk : frame feature) (code : Z) (f : frame merged_row)
    (fa fb : feature) (ga gb : geom) :
  process_chunk chunk code = Ok (Some f) →
  fa ∈ rows chunk → fb ∈ rows chunk →
  f_gridcode fa = code → f_gridcode fb = code →
  f_geometry fa = Some ga → f_geometry fb = Some gb →
  is_valid ga = true → is_valid gb = true →
  queen_contiguous ga gb = true →
  ∃ r m, r ∈ rows f ∧ geometry r = Some m ∧ absorbed ga m ∧ absorbed gb m.
Proof.
  intros Hp HA HB HcA HcB HgA HgB HvA HvB Hq.
  destruct (chunk_members_elem chunk code fa ga HA HcA HgA HvA) as [a Ha].
  destruct (chunk_members_elem chunk code fb gb HB HcB HgB HvB) as [b Hb].
  revert Hp. unfold process_chunk. case_decide as Hlen; [done|].
  destruct (require_epsg4326 _) as [ck|]; [|done]. cbn [res_bind].
  fold (chunk_members chunk code). set (members := chunk_members chunk code) in *.
  unfold queen_component_labels.
  destruct (queen_raises _); [done|]. cbn [res_bind].
  intros [= <-]. cbn [rows].
  set (gs := f_geometry <$> members).
  assert (Hn : length gs = length members) by apply length_fmap.
  set (labels := component_labels (length gs) (queen_weights gs)).
  assert (Hla : a < length gs) by (rewrite Hn; by eapply lookup_lt_Some).
  assert (Hlb : b < length gs) by (rewrite Hn; by eapply lookup_lt_Some).
  assert (Hsame : labels !! a = labels !! b).
  { apply component_labels_connected; [done..|]. apply connected_edge; [done..|].
    unfold queen_weights, gs. rewrite !list_lookup_fmap, Ha, Hb. done. }
  destruct (lookup_lt_is_Some_2 labels a) as [c Hc].
  { unfold labels. by rewrite component_labels_length. }
  set (group := group_members c labels members).
  assert (HAin : Feature code (Some ga) ∈ group).
  { apply group_members_elem. eauto. }
  assert (HBin : Feature code (Some gb) ∈ group).
  { apply group_members_elem. exists b. split; [congruence|done]. }
  exists (revalidate (MergedRow c (union_geometry (f_geometry <$> group))
                                (first_gridcode f_gridcode group) (length group) None)).
  exists (make_valid (unary_union (omap f_geometry group))).
  split; [|split].
  - apply list_elem_of_fmap. eexists. split; [done|].
    apply dissolve_elem. exists c. split; [|done]. by eapply list_elem_of_lookup_2.
  - unfold revalidate. cbn [geometry]. unfold union_geometry.
    cbn [fmap option_fmap option_map]. by rewrite omap_id_fmap.
  - split; apply absorbed_valid, absorbed_into_union.
    + apply list_elem_of_omap. by exists (Feature code (Some ga)).
    + apply list_elem_of_omap. by exists (Feature code (Some gb)).
Qed.

Lemma with_temp_ids_lookup (rs : list merged_row) (i : nat) (r : merged_row) :
  rs !! i = Some r →
  with_temp_ids rs !! i
  = Some (MergedRow (component_id r) (geometry r) (gridcode r) (merged_count r) (Some i)).
Proof. intros H. unfold with_temp_ids. by rewrite list_lookup_imap, H. Qed.

Lemma stitch_absorbs (results : list (frame merged_row)) (f : frame merged_row)
    (r1 : merged_row) (m1 : geom) :
  f ∈ results → r1 ∈ rows f → geometry r1 = Some m1 →
  ∃ r m, r ∈ rows (stitch results) ∧ geometry r = Some m ∧
         ∀ g, absorbed g m1 → absorbed g m.
Proof.
  intros Hf Hr1 Hm1.
  assert (Hin : r1 ∈ mjoin (rows <$> results)).
  { apply list_elem_of_join. exists (rows f). split; [done|].
    apply list_elem_of_fmap. eauto. }
  apply list_elem_of_lookup in Hin as [t Ht].
  pose proof (with_temp_ids_lookup _ _ _ Ht) as Ht'.
  set (r1' := MergedRow (component_id r1) (geometry r1) (gridcode r1)
                        (merged_count r1) (Some t)) in *.
  unfold stitch. fold (unstitched results).
  set (members := rows (unstitched results)).
  assert (Hmem : members !! t = Some r1') by exact Ht'.
  destruct (queen_component_labels (geometry <$> members)) as [labels|] eqn:Hq.
  - cbn [rows]. apply queen_component_labels_length in Hq.
    rewrite length_fmap in Hq.
    destruct (lookup_lt_is_Some_2 labels t) as [c Hc].
    { rewrite Hq. by eapply lookup_lt_Some. }
    set (group := group_members c labels members).
    assert (Hg : r1' ∈ group) by (apply group_members_elem; eauto).
    exists (MergedRow c (union_geometry (geometry <$> group))
                      (first_gridcode gridcode group)
                      (sum_list (merged_count <$> group)) None).
    exists (unary_union (omap geometry group)).
    split; [|split].
    + apply dissolve_elem. exists c. split; [|done]. by eapply list_elem_of_lookup_2.
    + cbn [geometry]. unfold union_geometry. by rewrite omap_id_fmap.
    + intros g Hg1. eapply absorbed_union; [|exact Hg1].
      apply list_elem_of_omap. exists r1'. split; [done|]. exact Hm1.
  - exists r1', m1. split; [|split; [exact Hm1|done]].
    by eapply list_elem_of_lookup_2.
Qed.

Lemma process_chunk_some (chunk : frame feature) (code : Z)
    (o : option (frame merged_row)) (fa : feature) :
  process_chunk chunk code = Ok o → fa ∈ rows chunk → f_gridcode fa = code →
  ∃ f, o = Some f.
Proof.
  unfold process_chunk. intros Hp Hfa Hc. case_decide as Hlen.
  - exfalso. apply nil_length_inv in Hlen.
    assert (Hin : fa ∈ filter (λ r, f_gridcode r = code) (rows chunk))
      by (by apply list_elem_of_filter).
    rewrite Hlen in Hin. by apply elem_of_nil in Hin.
  - destruct (require_epsg4326 _); [|done]. cbn [res_bind] in Hp.
    destruct (queen_component_labels _); [|done]. cbn [res_bind] in Hp.
    injection Hp as <-. eauto.
Qed.

Lemma chunk_results_for_elem (chunks : list (frame feature)) (code : Z)
    (results : list (frame merged_row)) (chunk : frame feature) :
  chunk_results_for chunks code = Ok results → chunk ∈ chunks →
  ∃ o, process_chunk chunk code = Ok o ∧
       ∀ f, o = Some f → rows f ≠ [] → f ∈ results.
Proof.
  unfold chunk_results_for.
  destruct (res_mapM _ chunks) as [out|] eqn:Hout; [|done]. cbn [res_bind].
  intros [= <-] Hc. apply res_mapM_ok in Hout.
  apply list_elem_of_lookup in Hc as [i Hi].
  destruct (Forall2_lookup_l _ _ _ _ _ Hout Hi) as (o & Ho & Hp).
  exists o. split; [done|]. intros f -> Hne.
  apply list_elem_of_filter. split.
  - destruct (rows f); [done|simpl; lia].
  - apply list_elem_of_omap. exists (Some f). split; [|done].
    by eapply list_elem_of_lookup_2.
Qed.

Lemma merge_code_result (chunks : list (frame feature))
    (st st' : list (frame merged_row) * gmap Z cat_stats) (code : Z) :
  merge_code chunks st code = Ok st' →
  (∀ c, stats_original st'.2 c = stats_original st.2 c) ∧
  (∃ more, st'.1 = st.1 ++ more) ∧
  (stats_original st.2 code ≠ 0 →
   ∃ results, chunk_results_for chunks code = Ok results ∧
              (results ≠ [] → stitch results ∈ st'.1)).
Proof.
  unfold merge_code. case_decide as Hz.
  { intros [= <-]. split; [done|]. split; [|done]. exists []. by rewrite app_nil_r. }
  destruct (chunk_results_for chunks code) as [results|]; [|done]. cbn [res_bind].
  destruct results as [|f fs].
  { intros [= <-]. split; [done|]. split; [exists []; by rewrite app_nil_r|].
    intros _. exists []. done. }
  intros [= <-]. cbn [fst snd]. split; [|split].
  - intros c. unfold stats_original. rewrite lookup_alter. case_decide; [subst c|done].
    by destruct (st.2 !! code).
  - eauto.
  - intros _. exists (f :: fs). split; [done|]. intros _.
    apply elem_of_app. right. by apply list_elem_of_singleton.
Qed.

Lemma merge_all_code (chunks : list (frame feature)) (stats0 : gmap Z cat_stats)
    (out : list (frame merged_row) * gmap Z cat_stats) (code : Z) :
  merge_all chunks stats0 = Ok out →
  code ∈ gridcodes →
  stats_original stats0 code ≠ 0 →
  ∃ results, chunk_results_for chunks code = Ok results ∧
             (results ≠ [] → stitch results ∈ out.1).
Proof.
  unfold merge_all, gridcodes. cbn [res_foldM].
  destruct (merge_code chunks ([], stats0) 12%Z) as [st1|] eqn:H1; [|done].
  cbn [res_bind].
  destruct (merge_code chunks st1 60%Z) as [st2|] eqn:H2; [|done].
  cbn [res_bind]. intros [= <-] Hcode Hn.
  destruct (merge_code_result _ _ _ _ H1) as (Hs1 & _ & Hr1).
  destruct (merge_code_result _ _ _ _ H2) as (_ & [more Hmore] & Hr2).
  apply gridcodes_elem in Hcode as [-> | ->].
  - destruct (Hr1 Hn) as (results & Hres & Hin). exists results. split; [done|].
    intros Hne. rewrite Hmore. apply elem_of_app. left. by apply Hin.
  - apply Hr2. by rewrite Hs1.
Qed.


(** *** Running the engine on settled geometries *)

Lemma connected_within (n : nat) (W : nat → nat → bool) (R : nat → nat → Prop) :
  (∀ i, R i i) → (∀ i j, R i j → R j i) → (∀ i j k, R i j → R j k → R i k) →
  (∀ i j, i < n → j < n → W i j = true → R i j) →
  ∀ i j, connected n W i j → R i j.
Proof.
  intros Hrefl Hsym Htrans Hedge i j H. induction H; eauto.
Qed.

Lemma code_geometries_elem (code : Z) (rs : list feature) (g : geom) :
  g ∈ code_geometries code rs ↔
  ∃ r, r ∈ rs ∧ f_gridcode r = code ∧ f_geometry r = Some g.
Proof.
  unfold code_geometries. rewrite list_elem_of_omap. split.
  - intros (r & Hr & Hg). apply list_elem_of_filter in Hr as [? ?]. eauto.
  - intros (r & Hr & Hc & Hg). exists r. split; [|done].
    by apply list_elem_of_filter.
Qed.

Lemma code_geometries_cell (code : Z) (rs : list feature) (cell : bbox) :
  code_geometries code (cell_members rs cell) `sublist_of` code_geometries code rs.
Proof.
  unfold code_geometries, cell_members. induction rs as [|r rs IH]; [done|].
  rewrite !filter_cons.
  destruct (decide (row_intersects cell r = true)) as [Hi|Hi].
  - rewrite filter_cons. case_decide; [|done]. cbn [omap list_omap].
    destruct (f_geometry r); [by apply sublist_skip|done].
  - case_decide; [|done]. cbn [omap list_omap].
    destruct (f_geometry r); [by apply sublist_cons|done].
Qed.

Lemma settled_sublist (gs hs : list geom) :
  settled gs → hs `sublist_of` gs → settled hs.
Proof.
  intros (Hnd & Hv & Hq) Hsub. split_and!.
  - by eapply sublist_NoDup.
  - intros g Hg. apply Hv. by eapply elem_of_sublist.
  - intros g h Hg Hh. apply Hq; by eapply elem_of_sublist.
Qed.

Lemma chunk_members_geometries (chunk : frame feature) (code : Z) :
  (∀ r, r ∈ rows chunk → f_gridcode r = code →
        ∃ g, f_geometry r = Some g ∧ is_valid g = true) →
  f_geometry <$> chunk_members chunk code
  = Some <$> code_geometries code (rows chunk).
Proof.
  unfold chunk_members, code_geometries.
  induction (rows chunk) as [|r rs IH]; intros Hall; [done|].
  rewrite filter_cons. case_decide as Hc.
  - destruct (Hall r ltac:(left) Hc) as (g & Hg & Hv).
    rewrite !fmap_cons. cbn [omap list_omap f_geometry]. rewrite Hg.
    rewrite fix_geometry_valid by done. cbn [fmap list_fmap]. f_equal.
    apply IH. intros r' Hr'. apply Hall. by right.
  - apply IH. intros r' Hr'. apply Hall. by right.
Qed.

Lemma omap_all_equal {A C} (f : A → option C) (l : list A) (y : C) :
  (∀ x, x ∈ l → f x = Some y) → omap f l = replicate (length l) y.
Proof.
  induction l as [|a l IH]; intros Hall; [done|].
  cbn [omap list_omap]. rewrite (Hall a) by left. simpl. f_equal.
  apply IH. intros x Hx. apply Hall. by right.
Qed.

Lemma process_chunk_settled (chunk : frame feature) (code : Z) (f : frame merged_row) :
  merge_laws →
  settled (code_geometries code (rows chunk)) →
  (∀ r, r ∈ rows chunk → f_gridcode r = code → is_Some (f_geometry r)) →
  process_chunk chunk code = Ok (Some f) →
  ∀ g, (∃ r, r ∈ rows f ∧ geometry r = Some g) ↔ g ∈ code_geometries code (rows chunk).
Proof.
  intros Laws (Hnd & Hvalid & Hfar) Hsome.
  set (cg := code_geometries code (rows chunk)) in *.
  assert (Hgeo : f_geometry <$> chunk_members chunk code = Some <$> cg).
  { apply chunk_members_geometries. intros r Hr Hc.
    destruct (Hsome r Hr Hc) as [g Hg]. exists g. split; [done|].
    apply Hvalid, code_geometries_elem. eauto. }
  unfold process_chunk. case_decide as Hlen; [done|].
  destruct (require_epsg4326 _) as [ck|]; [|done]. cbn [res_bind].
  fold (chunk_members chunk code). set (members := chunk_members chunk code) in *.
  unfold queen_component_labels.
  destruct (queen_raises _); [done|]. cbn [res_bind].
  intros [= <-]. cbn [rows].
  set (gs := f_geometry <$> members) in *.
  assert (Hn : length gs = length cg) by (by rewrite Hgeo, length_fmap).
  assert (Hnm : length gs = length members) by apply length_fmap.
  set (labels := component_labels (length gs) (queen_weights gs)).
  assert (Hll : length labels = length gs) by apply component_labels_length.
  assert (Hgs : ∀ i gi, cg !! i = Some gi → gs !! i = Some (Some gi)).
  { intros i gi Hi. by rewrite Hgeo, list_lookup_fmap, Hi. }
  assert (Hiso : ∀ i j, i < length gs → j < length gs →
                   labels !! i = labels !! j → i = j).
  { intros i j Hi Hj Hl. apply component_labels_connected in Hl; [|done..].
    revert Hl. apply (connected_within _ _ eq); [done|done|congruence|].
    intros a b Ha Hb HW.
    destruct (lookup_lt_is_Some_2 cg a) as [ga Hga]; [lia|].
    destruct (lookup_lt_is_Some_2 cg b) as [gb Hgb]; [lia|].
    unfold queen_weights in HW. rewrite (Hgs _ _ Hga), (Hgs _ _ Hgb) in HW.
    assert (ga = gb) as ->.
    { apply Hfar; [by eapply list_elem_of_lookup_2..|done]. }
    by eapply NoDup_lookup. }
  assert (Hrow : ∀ i gi, cg !! i = Some gi →
            ∃ c, labels !! i = Some c ∧
                 geometry (revalidate
                   (MergedRow c
                      (union_geometry (f_geometry <$> group_members c labels members))
                      (first_gridcode f_gridcode (group_members c labels members))
                      (length (group_members c labels members)) None)) = Some gi).
  { intros i gi Hi.
    assert (Hilt : i < length gs) by (rewrite Hn; by eapply lookup_lt_Some).
    destruct (lookup_lt_is_Some_2 labels i) as [c Hc]; [lia|].
    destruct (lookup_lt_is_Some_2 members i) as [mi Hmi]; [lia|].
    assert (Hmg : f_geometry mi = Some gi).
    { pose proof (Hgs _ _ Hi) as Hg. unfold gs in Hg.
      rewrite list_lookup_fmap, Hmi in Hg. by injection Hg. }
    exists c. split; [done|].
    rewrite (group_members_singleton labels members i c mi); [|done..|].
    - unfold revalidate, union_geometry. cbn [geometry fmap option_fmap option_map].
      cbn [list_fmap omap list_omap]. rewrite Hmg. cbn [id].
      assert (Hv : is_valid gi = true) by (by eapply Hvalid, list_elem_of_lookup_2).
      pose proof (union_of_copies Laws gi 0 Hv) as Hu. cbn [replicate] in Hu.
      rewrite Hu.
      by rewrite (make_valid_of_valid Laws gi Hv).
    - intros j Hj. apply Hiso; [|done|congruence].
      apply lookup_lt_Some in Hj. lia. }
  intros g. split.
  - intros (r & Hr & Hg). apply list_elem_of_fmap in Hr as (r0 & -> & Hr0).
    apply dissolve_elem in Hr0 as (c & Hc & ->).
    apply list_elem_of_lookup in Hc as [i Hi].
    destruct (lookup_lt_is_Some_2 cg i) as [gi Hgi].
    { apply lookup_lt_Some in Hi. lia. }
    destruct (Hrow i gi Hgi) as (c' & Hc' & Hgeom).
    assert (c' = c) by congruence. subst c'.
    rewrite Hgeom in Hg. injection Hg as <-. by eapply list_elem_of_lookup_2.
  - intros Hg. apply list_elem_of_lookup in Hg as [i Hi].
    destruct (Hrow i g Hi) as (c & Hc & Hgeom).
    eexists. split; [|exact Hgeom].
    apply list_elem_of_fmap. eexists. split; [done|].
    apply dissolve_elem. exists c. split; [|done]. by eapply list_elem_of_lookup_2.
Qed.

Lemma chunk_results_for_source (chunks : list (frame feature)) (code : Z)
    (results : list (frame merged_row)) (f : frame merged_row) :
  chunk_results_for chunks code = Ok results → f ∈ results →
  ∃ chunk, chunk ∈ chunks ∧ process_chunk chunk code = Ok (Some f).
Proof.
  unfold chunk_results_for.
  destruct (res_mapM _ chunks) as [out|] eqn:Hout; [|done]. cbn [res_bind].
  intros [= <-] Hf. apply res_mapM_ok in Hout.
  apply list_elem_of_filter in Hf as [_ Hf].
  apply list_elem_of_omap in Hf as (o & Ho & Hid). simpl in Hid. subst o.
  apply list_elem_of_lookup in Ho as [i Hi].
  destruct (Forall2_lookup_r _ _ _ _ _ Hout Hi) as (chunk & Hc & Hp).
  exists chunk. split; [by eapply list_elem_of_lookup_2|done].
Qed.

Lemma chunk_of_rows (gdf : frame feature) (cell : bbox) (r : feature) :
  r ∈ rows (chunk_of gdf cell) ↔
  r ∈ rows gdf ∧ ∃ g, f_geometry r = Some g ∧ intersects_box g cell = true.
Proof.
  unfold chunk_of, cell_members. cbn [rows]. rewrite list_elem_of_filter.
  unfold row_intersects. split.
  - intros [Hi Hr]. split; [done|]. destruct (f_geometry r) as [g|]; [eauto|done].
  - intros [Hr (g & Hg & Hi)]. split; [|done]. by rewrite Hg.
Qed.

(** The chunk results of settled geometries hold exactly those geometries
    (each once per chunk it was assigned to). *)
Lemma concat_settled (gdf : frame feature) (k : Z) (code : Z)
    (chunks : list (frame feature)) (results : list (frame merged_row)) :
  merge_laws → touch_laws → (1 ≤ k)%Z →
  settled (code_geometries code (rows gdf)) →
  create_spatial_chunks gdf k = Ok chunks →
  chunk_results_for chunks code = Ok results →
  ∀ g, (∃ r, r ∈ mjoin (rows <$> results) ∧ geometry r = Some g)
       ↔ g ∈ code_geometries code (rows gdf).
Proof.
  intros Laws Touch Hk Hset Hchunks Hres g.
  rewrite create_spatial_chunks_cells in Hchunks by lia. injection Hchunks as <-.
  set (s := Z.to_nat (Z.sqrt_up k)) in *.
  assert (Hchunk : ∀ cell f, process_chunk (chunk_of gdf cell) code = Ok (Some f) →
            ∀ h, (∃ r, r ∈ rows f ∧ geometry r = Some h)
                 ↔ h ∈ code_geometries code (rows (chunk_of gdf cell))).
  { intros cell f Hp. apply process_chunk_settled; [done| | |done].
    - eapply settled_sublist; [exact Hset|]. apply code_geometries_cell.
    - intros r Hr _. apply chunk_of_rows in Hr as (_ & h & -> & _). by eexists. }
  split.
  - intros (r & Hr & Hg). apply list_elem_of_join in Hr as (l & Hr & Hl).
    apply list_elem_of_fmap in Hl as (f & -> & Hf).
    destruct (chunk_results_for_source _ _ _ _ Hres Hf) as (chunk & Hc & Hp).
    apply list_elem_of_fmap in Hc as (cell & -> & _).
    eapply elem_of_sublist; [|apply code_geometries_cell].
    apply (Hchunk cell f Hp). eauto.
  - intros Hg. pose proof Hg as Hg0.
    apply code_geometries_elem in Hg as (r0 & Hr0 & Hc0 & Hg0').
    destruct Hset as (_ & Hvalid & _).
    destruct (valid_has_boundary Laws g (Hvalid g Hg0)) as [p Hp].
    assert (Hs : 1 ≤ s).
    { unfold s. assert (0 < Z.sqrt_up k)%Z by (apply Z.sqrt_up_pos; lia). lia. }
    assert (Hpb : in_box p (total_bounds (rows gdf))).
    { eapply total_bounds_contains; [exact Hr0|exact Hg0'|].
      by apply (boundary_in_bounds Touch). }
    destruct (grid_cover _ s p Hs Hpb) as (cell & Hcell & Hpc).
    assert (Hin : r0 ∈ rows (chunk_of gdf cell)).
    { apply chunk_of_rows. split; [done|]. exists g. split; [done|].
      by apply (boundary_meets_box Touch _ p). }
    assert (Hchunk_in : chunk_of gdf cell ∈
              chunk_of gdf <$> filter (λ cell, 0 < length (cell_members (rows gdf) cell))
                                 (grid_cells (total_bounds (rows gdf)) s)).
    { apply list_elem_of_fmap. exists cell. split; [done|].
      apply list_elem_of_filter. split; [|done].
      change (cell_members (rows gdf) cell) with (rows (chunk_of gdf cell)).
      destruct (rows (chunk_of gdf cell)); [by apply elem_of_nil in Hin|simpl; lia]. }
    destruct (chunk_results_for_elem _ _ _ _ Hres Hchunk_in) as (o & Ho & Hfin).
    destruct (process_chunk_some _ _ _ r0 Ho Hin Hc0) as [f ->].
    destruct (process_chunk_frame _ _ _ Ho) as ((_ & Hne & _) & _ & _).
    specialize (Hfin f eq_refl Hne).
    assert (Hgc : g ∈ code_geometries code (rows (chunk_of gdf cell))).
    { apply code_geometries_elem. eauto. }
    apply (Hchunk cell f Ho) in Hgc as (r & Hr & Hgr).
    exists r. split; [|done]. apply list_elem_of_join. exists (rows f).
    split; [done|]. apply list_elem_of_fmap. eauto.
Qed.

(** *** The rows of a clean stitch *)

Lemma omap_fmap_total {A C D} (f : C → option D) (g : A → C) (h : A → D) (l : list A) :
  (∀ x, f (g x) = Some (h x)) → omap f (g <$> l) = h <$> l.
Proof.
  intros Hfg. induction l as [|a l IH]; [done|].
  rewrite !fmap_cons. cbn [omap list_omap]. rewrite Hfg. f_equal. exact IH.
Qed.

Lemma stitch_clean (results : list (frame merged_row)) :
  queen_raises (geometry <$> rows (unstitched results)) = false →
  let members := rows (unstitched results) in
  let gs := geometry <$> members in
  let labels := component_labels (length gs) (queen_weights gs) in
  omap geometry (rows (stitch results))
  = stitched_geometry labels members <$> group_keys labels.
Proof.
  intros Hq. cbn zeta. unfold stitch. fold (unstitched results).
  unfold queen_component_labels. rewrite Hq. cbn [rows].
  unfold dissolve. apply omap_fmap_total. intros c. cbn [geometry].
  unfold union_geometry, stitched_geometry. by rewrite omap_id_fmap.
Qed.

Lemma unstitched_lookup (results : list (frame merged_row)) (t : nat) (r : merged_row) :
  rows (unstitched results) !! t = Some r →
  ∃ r0, r0 ∈ mjoin (rows <$> results) ∧ geometry r0 = geometry r.
Proof.
  unfold unstitched. cbn [rows]. rewrite pd_concat_rows. intros Ht.
  apply list_elem_of_lookup_2, with_temp_ids_elem in Ht as (r0 & Hr0 & _ & Hg & _).
  eauto.
Qed.

Lemma unstitched_elem (results : list (frame merged_row)) (r0 : merged_row) :
  r0 ∈ mjoin (rows <$> results) →
  ∃ t r, rows (unstitched results) !! t = Some r ∧ geometry r = geometry r0.
Proof.
  intros Hr0. apply list_elem_of_lookup in Hr0 as [t Ht].
  exists t. eexists. split.
  - unfold unstitched. cbn [rows]. rewrite pd_concat_rows.
    by apply with_temp_ids_lookup.
  - done.
Qed.

Lemma stitched_member (labels : list nat) (members : list merged_row) (c : nat) (m : geom) :
  m ∈ omap geometry (group_members c labels members) →
  ∃ a ra, labels !! a = Some c ∧ members !! a = Some ra ∧ geometry ra = Some m.
Proof.
  intros (ra & Hra & Hm)%list_elem_of_omap.
  apply group_members_elem in Hra as (a & Hl & Hr). eauto.
Qed.

(** Settled geometries stay what they are in a clean stitch: one row for
    each geometry that occurs in the chunk results. *)
Lemma stitch_settled (results : list (frame merged_row)) (G : list geom) :
  merge_laws → settled G →
  (∀ r, r ∈ mjoin (rows <$> results) → ∃ g, geometry r = Some g ∧ g ∈ G) →
  queen_raises (geometry <$> rows (unstitched results)) = false →
  NoDup (omap geometry (rows (stitch results))) ∧
  ∀ g, g ∈ omap geometry (rows (stitch results))
       ↔ ∃ r, r ∈ mjoin (rows <$> results) ∧ geometry r = Some g.
Proof.
  intros Laws (Hnd & Hvalid & Hfar) Hall Hq.
  rewrite (stitch_clean results Hq).
  set (members := rows (unstitched results)).
  set (gs := geometry <$> members).
  set (labels := component_labels (length gs) (queen_weights gs)).
  assert (Hnm : length gs = length members) by apply length_fmap.
  assert (Hll : length labels = length gs) by apply component_labels_length.
  assert (Hmem : ∀ t r, members !! t = Some r → ∃ g, geometry r = Some g ∧ g ∈ G).
  { intros t r Ht. destruct (unstitched_lookup _ _ _ Ht) as (r0 & Hr0 & Hg).
    rewrite <- Hg. by apply Hall. }
  assert (Hgs : ∀ t r, members !! t = Some r → gs !! t = Some (geometry r)).
  { intros t r Ht. unfold gs. by rewrite list_lookup_fmap, Ht. }
  assert (Hsame : ∀ a b, a < length gs → b < length gs →
                    labels !! a = labels !! b → gs !! a = gs !! b).
  { intros a b Ha Hb Hl. apply component_labels_connected in Hl; [|done..].
    revert Hl. apply (connected_within _ _ (λ i j, gs !! i = gs !! j));
      [done|done|congruence|].
    intros i j Hi Hj HW.
    destruct (lookup_lt_is_Some_2 members i) as [ri Hri]; [lia|].
    destruct (lookup_lt_is_Some_2 members j) as [rj Hrj]; [lia|].
    destruct (Hmem _ _ Hri) as (gi & Hgi & HGi).
    destruct (Hmem _ _ Hrj) as (gj & Hgj & HGj).
    unfold queen_weights in HW.
    rewrite (Hgs _ _ Hri), (Hgs _ _ Hrj), Hgi, Hgj in HW |- *.
    by rewrite (Hfar gi gj HGi HGj HW). }
  assert (Hself : ∀ a b, a < length gs → b < length gs →
                    gs !! a = gs !! b → labels !! a = labels !! b).
  { intros a b Ha Hb Hg. apply component_labels_connected; [done..|].
    apply connected_edge; [done..|].
    destruct (lookup_lt_is_Some_2 members a) as [ra Hra]; [lia|].
    destruct (Hmem _ _ Hra) as (ga & Hga & HGa).
    unfold queen_weights. rewrite <- Hg, (Hgs _ _ Hra), Hga.
    by apply (valid_is_self_contiguous Laws), Hvalid. }
  assert (Hh : ∀ c a g, labels !! a = Some c → gs !! a = Some (Some g) →
                 stitched_geometry labels members c = g).
  { intros c a g Hc Hg. unfold stitched_geometry.
    assert (Ha : a < length gs) by (rewrite <- Hll; by eapply lookup_lt_Some).
    destruct (lookup_lt_is_Some_2 members a) as [ra Hra]; [lia|].
    set (group := group_members c labels members).
    assert (Hgroup : ∀ x, x ∈ group → geometry x = Some g).
    { intros x Hx. apply group_members_elem in Hx as (b & Hb & Hxb).
      assert (Hblt : b < length gs) by (rewrite <- Hll; by eapply lookup_lt_Some).
      pose proof (Hsame a b Ha Hblt ltac:(congruence)) as Hab.
      rewrite Hg, (Hgs _ _ Hxb) in Hab. by injection Hab. }
    rewrite (omap_all_equal geometry group g Hgroup).
    assert (Hne : group ≠ []).
    { apply group_members_nonempty; [by eapply list_elem_of_lookup_2|lia]. }
    destruct group as [|x group']; [done|]. cbn [length].
    apply (union_of_copies Laws). rewrite (Hgs _ _ Hra) in Hg.
    destruct (Hmem _ _ Hra) as (ga & Hga & HGa).
    apply Hvalid. congruence. }
  assert (Hrep : ∀ c, c ∈ group_keys labels →
            ∃ a g, labels !! a = Some c ∧ gs !! a = Some (Some g) ∧
                   a < length gs ∧ stitched_geometry labels members c = g).
  { intros c Hc. apply (proj1 (group_keys_elem _ _)) in Hc.
    apply list_elem_of_lookup in Hc as [a Ha].
    assert (Halt : a < length gs) by (rewrite <- Hll; by eapply lookup_lt_Some).
    destruct (lookup_lt_is_Some_2 members a) as [ra Hra]; [lia|].
    destruct (Hmem _ _ Hra) as (ga & Hga & _).
    exists a, ga. assert (Hg : gs !! a = Some (Some ga))
      by (by rewrite (Hgs _ _ Hra), Hga).
    split_and!; [done..|]. by eapply Hh. }
  split.
  - apply NoDup_fmap_2_strong; [|apply group_keys_NoDup].
    intros c c' Hc Hc' Heq.
    destruct (Hrep c Hc) as (a & g & Ha & Hg & Hlt & Hhc).
    destruct (Hrep c' Hc') as (a' & g' & Ha' & Hg' & Hlt' & Hhc').
    assert (Hl : labels !! a = labels !! a').
    { apply Hself; [done..|]. congruence. }
    congruence.
  - intros g. rewrite list_elem_of_fmap. split.
    + intros (c & -> & Hc). destruct (Hrep c Hc) as (a & g & Ha & Hg & Hlt & ->).
      destruct (lookup_lt_is_Some_2 members a) as [ra Hra]; [lia|].
      destruct (unstitched_lookup _ _ _ Hra) as (r0 & Hr0 & Hgeo).
      exists r0. split; [done|]. rewrite (Hgs _ _ Hra) in Hg. congruence.
    + intros (r0 & Hr0 & Hg0).
      destruct (unstitched_elem _ _ Hr0) as (t & r & Ht & Hgeo).
      assert (Htlt : t < length gs) by (rewrite Hnm; by eapply lookup_lt_Some).
      destruct (lookup_lt_is_Some_2 labels t) as [c Hc]; [lia|].
      exists c. split.
      * symmetry. eapply Hh; [done|]. rewrite (Hgs _ _ Ht). congruence.
      * apply group_keys_elem. by eapply list_elem_of_lookup_2.
Qed.

Lemma process_chunk_valid (chunk : frame feature) (code : Z) (f : frame merged_row) :
  merge_laws →
  (∀ r, r ∈ rows chunk → ∃ g bx, f_geometry r = Some g ∧ intersects_box g bx = true) →
  process_chunk chunk code = Ok (Some f) →
  ∀ r, r ∈ rows f → ∃ m, geometry r = Some m ∧ is_valid m = true.
Proof.
  intros Laws Hmeets. unfold process_chunk. case_decide; [done|].
  destruct (require_epsg4326 _); [|done]. cbn [res_bind].
  fold (chunk_members chunk code). set (members := chunk_members chunk code).
  destruct (queen_component_labels _) as [labels|] eqn:Hq; [|done]. cbn [res_bind].
  intros [= <-] r Hr. cbn [rows] in Hr.
  apply queen_component_labels_length in Hq. rewrite length_fmap in Hq.
  apply list_elem_of_fmap in Hr as (r0 & -> & Hr0).
  apply dissolve_elem in Hr0 as (c & Hc & ->).
  unfold revalidate, union_geometry. cbn [geometry fmap option_fmap option_map].
  rewrite omap_id_fmap. set (group := group_members c labels members).
  assert (Hvalid : ∀ g, g ∈ omap f_geometry group → is_valid g = true).
  { intros g (m & Hm & Hg)%list_elem_of_omap.
    apply group_members_elem in Hm as (i & _ & Hm).
    apply list_elem_of_lookup_2, list_elem_of_fmap in Hm as (r1 & -> & Hr1).
    apply list_elem_of_filter in Hr1 as [_ Hr1].
    destruct (Hmeets r1 Hr1) as (g1 & bx & Hg1 & Hbx).
    cbn [f_geometry] in Hg. rewrite Hg1 in Hg. cbn [fix_geometry] in Hg.
    destruct (is_valid g1) eqn:Hv; injection Hg as <-; [done|].
    by apply (make_valid_is_valid Laws g1 bx). }
  assert (Hne : omap f_geometry group ≠ []).
  { pose proof (group_members_nonempty c labels members Hc ltac:(lia)) as Hgne.
    fold group in Hgne. destruct group as [|m l] eqn:Hgm; [done|].
    assert (Hm : m ∈ group_members c labels members) by (fold group; rewrite Hgm; left).
    apply group_members_elem in Hm as (i & _ & Hm).
    apply list_elem_of_lookup_2, list_elem_of_fmap in Hm as (r1 & -> & Hr1).
    apply list_elem_of_filter in Hr1 as [_ Hr1].
    destruct (Hmeets r1 Hr1) as (g1 & bx & Hg1 & _).
    cbn [omap list_omap f_geometry]. rewrite Hg1. cbn [fix_geometry].
    by destruct (is_valid g1). }
  pose proof (union_is_valid Laws _ Hne Hvalid) as Hu.
  eexists. split; [done|]. by rewrite (make_valid_of_valid Laws _ Hu).
Qed.

(** The rows of a clean stitch of valid geometries are settled. *)
Lemma stitch_output_settled (results : list (frame merged_row)) :
  merge_laws →
  (∀ r, r ∈ mjoin (rows <$> results) → ∃ m, geometry r = Some m ∧ is_valid m = true) →
  queen_raises (geometry <$> rows (unstitched results)) = false →
  settled (omap geometry (rows (stitch results))).
Proof.
  intros Laws Hall Hq. rewrite (stitch_clean results Hq).
  set (members := rows (unstitched results)).
  set (gs := geometry <$> members).
  set (labels := component_labels (length gs) (queen_weights gs)).
  assert (Hnm : length gs = length members) by apply length_fmap.
  assert (Hll : length labels = length gs) by apply component_labels_length.
  assert (Hmem : ∀ t r, members !! t = Some r →
                   ∃ m, geometry r = Some m ∧ is_valid m = true).
  { intros t r Ht. destruct (unstitched_lookup _ _ _ Ht) as (r0 & Hr0 & Hg).
    rewrite <- Hg. by apply Hall. }
  assert (Hvalid : ∀ c, c ∈ group_keys labels →
                     is_valid (stitched_geometry labels members c) = true).
  { intros c Hc. apply (proj1 (group_keys_elem _ _)) in Hc.
    apply (union_is_valid Laws).
    - pose proof (group_members_nonempty c labels members Hc ltac:(lia)) as Hne.
      destruct (group_members c labels members) as [|x l] eqn:Hgm; [done|].
      assert (Hx : x ∈ group_members c labels members) by (rewrite Hgm; left).
      apply group_members_elem in Hx as (a & _ & Hxa).
      destruct (Hmem _ _ Hxa) as (m & Hm & _).
      cbn [omap list_omap]. by rewrite Hm.
    - intros m Hm. apply stitched_member in Hm as (a & ra & _ & Hra & Hg).
      destruct (Hmem _ _ Hra) as (m' & Hm' & Hv). congruence. }
  assert (Hkey : ∀ c c', c ∈ group_keys labels → c' ∈ group_keys labels →
            queen_contiguous (stitched_geometry labels members c)
                             (stitched_geometry labels members c') = true →
            c = c').
  { intros c c' Hc Hc' Hcont.
    apply (union_contiguous Laws) in Hcont as (m & m' & Hm & Hm' & Hmm).
    apply stitched_member in Hm as (a & ra & Ha & Hra & Hga).
    apply stitched_member in Hm' as (b & rb & Hb & Hrb & Hgb).
    assert (Halt : a < length gs) by (rewrite <- Hll; by eapply lookup_lt_Some).
    assert (Hblt : b < length gs) by (rewrite <- Hll; by eapply lookup_lt_Some).
    assert (Hl : labels !! a = labels !! b).
    { apply component_labels_connected; [done..|]. apply connected_edge; [done..|].
      unfold queen_weights, gs. rewrite !list_lookup_fmap, Hra, Hrb.
      cbn [fmap option_fmap option_map]. by rewrite Hga, Hgb. }
    congruence. }
  split_and!.
  - apply NoDup_fmap_2_strong; [|apply group_keys_NoDup].
    intros c c' Hc Hc' Heq. apply Hkey; [done..|]. rewrite <- Heq.
    by apply (valid_is_self_contiguous Laws), Hvalid.
  - intros g (c & -> & Hc)%list_elem_of_fmap. by apply Hvalid.
  - intros g h (c & -> & Hc)%list_elem_of_fmap (c' & -> & Hc')%list_elem_of_fmap Hcont.
    by rewrite (Hkey c c' Hc Hc' Hcont).
Qed.

(** *** The merged features of one code in the engine's output *)

Lemma filter_all {A} (P : A → Prop) `{∀ x, Decision (P x)} (l : list A) :
  Forall P l → filter P l = l.
Proof.
  induction 1 as [|x l Hx _ IH]; [done|].
  by rewrite filter_cons, decide_True, IH.
Qed.

Lemma filter_none {A} (P : A → Prop) `{∀ x, Decision (P x)} (l : list A) :
  Forall (λ x, ¬ P x) l → filter P l = [].
Proof.
  induction 1 as [|x l Hx _ IH]; [done|].
  by rewrite filter_cons, decide_False, IH.
Qed.

Lemma category_output_app (code : Z) (l1 l2 : list (frame merged_row)) :
  category_output code (l1 ++ l2) = category_output code l1 ++ category_output code l2.
Proof. unfold category_output. by rewrite fmap_app, join_app, filter_app. Qed.

Lemma category_output_frame (code code' : Z) (f : frame merged_row) :
  merged_frame_for code' f →
  category_output code [f] = if decide (code' = code) then rows f else [].
Proof.
  intros (_ & _ & Hrows). unfold category_output. cbn. rewrite app_nil_r.
  case_decide as Hc.
  - apply filter_all. eapply Forall_impl; [exact Hrows|]. intros r [Hr _]. congruence.
  - apply filter_none. eapply Forall_impl; [exact Hrows|]. intros r [Hr _]. congruence.
Qed.

(** What one round of the loop adds to the output. *)
Lemma merge_code_output (chunks : list (frame feature))
    (st st' : list (frame merged_row) * gmap Z cat_stats) (code : Z) :
  merge_code chunks st code = Ok st' →
  ∃ more, st'.1 = st.1 ++ more ∧
    (∀ c, c ≠ code → category_output c more = []) ∧
    ((stats_original st.2 code = 0 ∧ more = []) ∨
     ∃ results, chunk_results_for chunks code = Ok results ∧
       ((results = [] ∧ more = []) ∨
        (results ≠ [] ∧ category_output code more = rows (stitch results)))).
Proof.
  unfold merge_code. case_decide as Hz.
  { intros [= <-]. exists []. rewrite app_nil_r. split_and!; [done|done|]. by left. }
  destruct (chunk_results_for chunks code) as [results|] eqn:Hres; [|done].
  cbn [res_bind]. destruct results as [|f fs].
  { intros [= <-]. exists []. rewrite app_nil_r. split_and!; [done|done|].
    right. exists []. split; [done|]. by left. }
  intros [= <-]. cbn [fst]. exists [stitch (f :: fs)].
  assert (Hframe : merged_frame_for code (stitch (f :: fs))).
  { apply stitch_frame. apply chunk_results_for_frames in Hres.
    eapply Forall_impl; [exact Hres|]. by intros ? [? _]. }
  split_and!; [done| |].
  - intros c Hc. rewrite (category_output_frame c code _ Hframe).
    by rewrite decide_False.
  - right. exists (f :: fs). split; [done|]. right. split; [done|].
    rewrite (category_output_frame code code _ Hframe). by rewrite decide_True.
Qed.

Lemma merge_all_category (chunks : list (frame feature)) (stats0 : gmap Z cat_stats)
    (out : list (frame merged_row) * gmap Z cat_stats) (code : Z) :
  merge_all chunks stats0 = Ok out →
  code ∈ gridcodes →
  (stats_original stats0 code = 0 ∧ category_output code out.1 = []) ∨
  ∃ results, chunk_results_for chunks code = Ok results ∧
    ((results = [] ∧ category_output code out.1 = []) ∨
     (results ≠ [] ∧ category_output code out.1 = rows (stitch results))).
Proof.
  unfold merge_all, gridcodes. cbn [res_foldM].
  destruct (merge_code chunks ([], stats0) 12%Z) as [st1|] eqn:H1; [|done].
  cbn [res_bind].
  destruct (merge_code chunks st1 60%Z) as [st2|] eqn:H2; [|done].
  cbn [res_bind]. intros [= <-] Hcode.
  destruct (merge_code_result _ _ _ _ H1) as (Hs1 & _ & _).
  destruct (merge_code_output _ _ _ _ H1) as (m1 & Hm1 & Ho1 & Hc1).
  destruct (merge_code_output _ _ _ _ H2) as (m2 & Hm2 & Ho2 & Hc2).
  rewrite Hm2, Hm1. cbn [fst app]. rewrite category_output_app.
  apply gridcodes_elem in Hcode as [-> | ->].
  - rewrite (Ho2 12%Z) by done. rewrite app_nil_r.
    destruct Hc1 as [[Hz ->]|(results & Hres & Hcases)]; [by left|].
    right. exists results. split; [done|].
    destruct Hcases as [[-> ->]|[Hne Hrows]]; [by left|by right].
  - rewrite (Ho1 60%Z) by done. cbn [app].
    destruct Hc2 as [[Hz ->]|(results & Hres & Hcases)].
    + left. split; [by rewrite <- Hs1|done].
    + right. exists results. split; [done|].
      destruct Hcases as [[-> ->]|[Hne Hrows]]; [by left|by right].
Qed.

(** *** Re-running the engine on its own output *)

Lemma stitch_not_degraded (gdf : frame feature) (k code : Z)
    (chunks : list (frame feature)) (results : list (frame merged_row)) :
  stitch_degraded gdf k code = false →
  create_spatial_chunks gdf k = Ok chunks →
  chunk_results_for chunks code = Ok results →
  results ≠ [] →
  queen_raises (geometry <$> rows (unstitched results)) = false.
Proof.
  unfold stitch_degraded. intros Hd Hc Hr Hne. rewrite Hc, Hr in Hd.
  by destruct results.
Qed.

Lemma settled_nil : settled [].
Proof.
  split_and!.
  - apply NoDup_nil_2.
  - intros g H. by apply elem_of_nil in H.
  - intros g h H. by apply elem_of_nil in H.
Qed.

Lemma engine_output_settled (gdf : frame feature) (k code : Z)
    (out : list (frame merged_row) * gmap Z cat_stats) :
  merge_laws →
  (1 ≤ k)%Z →
  code ∈ gridcodes →
  merge_engine gdf k = Ok out →
  stitch_degraded gdf k code = false →
  settled (omap geometry (category_output code out.1)).
Proof.
  intros Laws Hk Hcode Hrun Hclean. unfold merge_engine in Hrun.
  destruct (create_spatial_chunks gdf k) as [chunks|] eqn:Hchunks; [|done].
  cbn [res_bind] in Hrun.
  destruct (merge_all_category _ _ _ code Hrun Hcode)
    as [[_ ->]|(results & Hres & [[_ ->]|[Hne ->]])]; [apply settled_nil..|].
  apply stitch_output_settled; [done| |by eapply stitch_not_degraded].
  intros r Hr. apply list_elem_of_join in Hr as (l & Hr & Hl).
  apply list_elem_of_fmap in Hl as (f & -> & Hf).
  destruct (chunk_results_for_source _ _ _ _ Hres Hf) as (chunk & Hchunk & Hp).
  eapply process_chunk_valid; [done| |exact Hp|exact Hr].
  rewrite create_spatial_chunks_cells in Hchunks by lia. injection Hchunks as <-.
  apply list_elem_of_fmap in Hchunk as (cell & -> & _).
  intros r1 Hr1. apply chunk_of_rows in Hr1 as (_ & g & Hg & Hi). eauto.
Qed.

Lemma settled_rerun (gdf : frame feature) (k code : Z)
    (out : list (frame merged_row) * gmap Z cat_stats) :
  merge_laws → touch_laws →
  (1 ≤ k)%Z →
  code ∈ gridcodes →
  settled (code_geometries code (rows gdf)) →
  merge_engine gdf k = Ok out →
  stitch_degraded gdf k code = false →
  omap geometry (category_output code out.1) ≡ₚ code_geometries code (rows gdf).
Proof.
  intros Laws Touch Hk Hcode Hset Hrun Hclean. unfold merge_engine in Hrun.
  destruct (create_spatial_chunks gdf k) as [chunks|] eqn:Hchunks; [|done].
  cbn [res_bind] in Hrun.
  destruct (merge_all_category _ _ _ code Hrun Hcode)
    as [[Hz ->]|(results & Hres & Hcases)].
  - rewrite stats_original_count in Hz by done. apply nil_length_inv in Hz.
    unfold code_geometries. by rewrite Hz.
  - pose proof (concat_settled gdf k code chunks results Laws Touch Hk Hset
                  Hchunks Hres) as Hconcat.
    destruct Hcases as [[-> ->]|[Hne ->]].
    + destruct (code_geometries code (rows gdf)) as [|g gs] eqn:HG; [done|].
      exfalso. destruct (proj2 (Hconcat g) ltac:(left)) as (r & Hr & _).
      by apply elem_of_nil in Hr.
    + destruct (stitch_settled results (code_geometries code (rows gdf)) Laws Hset)
        as [Hnd Helem].
      * intros r Hr.
        assert (Hsome : ∃ g, geometry r = Some g).
        { apply list_elem_of_join in Hr as (l & Hr & Hl).
          apply list_elem_of_fmap in Hl as (f & -> & Hf).
          apply chunk_results_for_frames in Hres. rewrite Forall_forall in Hres.
          destruct (Hres f Hf) as [(_ & _ & Hrows) _].
          rewrite Forall_forall in Hrows. destruct (Hrows r Hr) as [_ [g Hg]]. eauto. }
        destruct Hsome as [g Hg]. exists g. split; [done|].
        apply Hconcat. eauto.
      * by eapply stitch_not_degraded.
      * apply NoDup_Permutation; [done|by destruct Hset|].
        intros g. by rewrite Helem, Hconcat.
Qed.

Lemma refeed_geometries (code : Z) (out : list (frame merged_row)) :
  code_geometries code (rows (refeed out)) = omap geometry (category_output code out).
Proof.
  unfold code_geometries, category_output, refeed. cbn [rows].
  induction (mjoin (rows <$> out)) as [|r l IH]; [done|].
  rewrite fmap_cons, !filter_cons. cbn [f_gridcode].
  case_decide; [|done]. cbn [omap list_omap f_geometry]. rewrite IH. done.
Qed.


(** *** The writer *)

Lemma write_ok (gdf : frame merged_row) (path : string) (fs : gmap string file)
    (c : option CRS) :
  require_epsg4326 (crs gdf) = Ok c →
  ∃ table,
    write_duckdb_compatible_geoparquet gdf path fs
      = (Ok (), <[path := ParquetFile table]> fs) ∧
    pq_metadata table !! "geo" = Some geo_metadata ∧
    pq_columns table = columns gdf ∧
    (∀ w, w ∈ pq_rows table →
       ∃ r, r ∈ rows gdf ∧ w_gridcode w = gridcode r ∧
            w_merged_count w = merged_count r ∧ w_temp_id w = temp_id r) ∧
    (rows gdf = [] → pq_rows table = []).
Proof.
  intros Hc. unfold write_duckdb_compatible_geoparquet. rewrite Hc.
  unfold table_from_pandas. cbn [pq_metadata pq_columns pq_rows].
  rewrite decide_False by (rewrite lookup_singleton_ne by done; by intros [? ?]).
  eexists. split; [done|]. cbn [pq_metadata pq_columns pq_rows].
  split; [by rewrite lookup_insert_eq|]. split; [done|]. split.
  - intros w Hw. apply list_elem_of_omap in Hw as (r1 & Hr1 & Hw).
    apply list_elem_of_fmap in Hr1 as (r & -> & Hr).
    apply list_elem_of_filter in Hr as [_ Hr]. simpl in Hw.
    destruct (safe_to_wkb _); [|done]. simpl in Hw. injection Hw as <-.
    exists r. done.
  - by intros ->.
Qed.

Lemma with_temp_ids_fields (rs : list merged_row) :
  (λ r, (component_id r, geometry r, gridcode r, merged_count r)) <$> with_temp_ids rs
  = (λ r, (component_id r, geometry r, gridcode r, merged_count r)) <$> rs ∧
  temp_id <$> with_temp_ids rs = Some <$> seq 0 (length rs).
Proof.
  unfold with_temp_ids. split.
  - apply list_eq. intros i. rewrite !list_lookup_fmap, list_lookup_imap.
    by destruct (rs !! i).
  - apply list_eq. intros i. rewrite !list_lookup_fmap, list_lookup_imap.
    destruct (rs !! i) as [r|] eqn:Hr; simpl.
    + rewrite lookup_seq_lt by (by eapply lookup_lt_Some). done.
    + rewrite lookup_seq_ge by (by apply lookup_ge_None). done.
Qed.

(** C4. When the contiguity builder raises on the concatenated chunk
    results of a code, the round of the loop for that code does not raise:
    it appends the concatenated frame itself (the rows of the chunk results
    in order, unchanged but for the added [temp_id] column) to the results
    and records its number of rows as [merged_features]. Whether or not the
    builder raises, the round raises only if a chunk could not be processed.
    Nothing else is recorded about the fall-back. *)
Theorem stitch_failure_fallback
    (chunks : list (frame feature)) (st : list (frame merged_row) * gmap Z cat_stats)
    (code : Z) (f : frame merged_row) (fs : list (frame merged_row)) :
  stats_original st.2 code ≠ 0 →
  chunk_results_for chunks code = Ok (f :: fs) →
  (queen_raises (geometry <$> rows (unstitched (f :: fs))) = true →
     merge_code chunks st code
       = Ok (st.1 ++ [unstitched (f :: fs)],
             alter (set_merged (length (mjoin (rows <$> f :: fs)))) code st.2) ∧
     (λ r, (component_id r, geometry r, gridcode r, merged_count r))
        <$> rows (unstitched (f :: fs))
     = (λ r, (component_id r, geometry r, gridcode r, merged_count r))
        <$> mjoin (rows <$> f :: fs)) ∧
  is_ok (merge_code chunks st code) = true.
Proof.
  intros Hn Hres. unfold merge_code. rewrite decide_False by done.
  rewrite Hres. cbn [res_bind]. split; [|done].
  intros Hraise. unfold stitch. fold (unstitched (f :: fs)).
  unfold queen_component_labels. rewrite Hraise. split.
  - do 2 f_equal. unfold unstitched. cbn [rows].
    by rewrite with_temp_ids_length, pd_concat_rows.
  - unfold unstitched. cbn [rows]. rewrite pd_concat_rows.
    apply with_temp_ids_fields.
Qed.

(** *** What [merged_count] adds up to *)

Lemma sum_list_indicator (K : list nat) (l x : nat) :
  NoDup K → l ∈ K →
  sum_list ((λ c, if decide (l = c) then x else 0) <$> K) = x.
Proof.
  induction K as [|c K IH]; intros Hnd Hl; [by apply elem_of_nil in Hl|].
  apply NoDup_cons in Hnd as [Hc Hnd]. rewrite fmap_cons. cbn [sum_list_with id].
  apply elem_of_cons in Hl as [->|Hl].
  - rewrite decide_True by done.
    assert (Hz : sum_list ((λ c', if decide (c = c') then x else 0) <$> K) = 0).
    { clear IH Hnd. induction K as [|d K IH]; [done|].
      rewrite fmap_cons. cbn [sum_list_with id].
      rewrite decide_False by (intros ->; apply Hc; left).
      rewrite IH; [done|]. intros Hin. apply Hc. by right. }
    rewrite Hz. lia.
  - rewrite decide_False by (intros ->; done). by rewrite IH.
Qed.

Lemma sum_list_fmap_add {A} (f g : A → nat) (l : list A) :
  sum_list ((λ x, f x + g x) <$> l) = sum_list (f <$> l) + sum_list (g <$> l).
Proof.
  induction l as [|a l IH]; [done|].
  rewrite !fmap_cons. cbn [sum_list_with id]. rewrite IH. lia.
Qed.

Lemma group_members_cons {R} (c l : nat) (labels : list nat) (r : R) (rs : list R) :
  group_members c (l :: labels) (r :: rs)
  = if decide (l = c) then r :: group_members c labels rs
    else group_members c labels rs.
Proof.
  unfold group_members. cbn [zip zip_with]. rewrite filter_cons. cbn [fst].
  by case_decide.
Qed.

(** A dissolve splits the rows into groups: a weight summed group by group
    is the weight summed over the rows. *)
Lemma group_sums {R} (v : R → nat) (K labels : list nat) (rs : list R) :
  NoDup K → (∀ l, l ∈ labels → l ∈ K) → length labels = length rs →
  sum_list ((λ c, sum_list (v <$> group_members c labels rs)) <$> K)
  = sum_list (v <$> rs).
Proof.
  intros Hnd. revert rs. induction labels as [|l labels IH]; intros rs Hin Hlen.
  - destruct rs; [|done]. clear. induction K as [|c K IH]; [done|].
    rewrite fmap_cons. cbn [sum_list_with id]. by rewrite IH.
  - destruct rs as [|r rs]; [done|]. injection Hlen as Hlen.
    rewrite fmap_cons. cbn [sum_list_with id].
    rewrite <- (IH rs) by (try done; intros l' Hl'; apply Hin; by right).
    rewrite <- (sum_list_indicator K l (v r) Hnd) at 1 by (apply Hin; left).
    rewrite <- sum_list_fmap_add. f_equal. apply list_fmap_ext.
    intros _ c _. rewrite group_members_cons. by case_decide.
Qed.

Lemma dissolve_sums {R} (v : R → nat) (labels : list nat) (rs : list R)
    (agg : nat → list R → merged_row) :
  length labels = length rs →
  (∀ c ms, merged_count (agg c ms) = sum_list (v <$> ms)) →
  sum_list (merged_count <$> dissolve labels rs agg) = sum_list (v <$> rs).
Proof.
  intros Hlen Hagg. unfold dissolve. rewrite <- list_fmap_compose.
  rewrite <- (group_sums v (group_keys labels) labels rs);
    [|apply group_keys_NoDup|by intros l Hl; apply group_keys_elem|done].
  f_equal. apply list_fmap_ext. intros _ c _. apply Hagg.
Qed.

Lemma process_chunk_count (chunk : frame feature) (code : Z)
    (o : option (frame merged_row)) :
  process_chunk chunk code = Ok o →
  sum_list (merged_count <$> from_option rows [] o)
  = length (filter (λ r, f_gridcode r = code) (rows chunk)).
Proof.
  unfold process_chunk. case_decide as Hlen; [by intros [= <-]|].
  destruct (require_epsg4326 _); [|done]. cbn [res_bind].
  destruct (queen_component_labels _) as [labels|] eqn:Hq; [|done]. cbn [res_bind].
  intros [= <-]. cbn [from_option rows].
  apply queen_component_labels_length in Hq. rewrite !length_fmap in Hq.
  rewrite <- list_fmap_compose.
  erewrite (list_fmap_ext (merged_count ∘ revalidate) merged_count); [|done].
  rewrite (dissolve_sums (λ _, 1)).
  - rewrite sum_list_fmap_const, length_fmap. lia.
  - by rewrite length_fmap.
  - intros c ms. cbn [merged_count]. rewrite sum_list_fmap_const. lia.
Qed.

Lemma stitch_count (results : list (frame merged_row)) :
  sum_list (merged_count <$> rows (stitch results))
  = sum_list (merged_count <$> mjoin (rows <$> results)).
Proof.
  assert (Hun : sum_list (merged_count <$> rows (unstitched results))
                = sum_list (merged_count <$> mjoin (rows <$> results))).
  { unfold unstitched. cbn [rows]. rewrite pd_concat_rows.
    f_equal. unfold with_temp_ids. apply list_eq. intros i.
    rewrite !list_lookup_fmap, list_lookup_imap.
    by destruct (_ !! i). }
  unfold stitch. fold (unstitched results).
  destruct (queen_component_labels _) as [labels|] eqn:Hq; [|exact Hun].
  cbn [rows]. apply queen_component_labels_length in Hq. rewrite length_fmap in Hq.
  rewrite (dissolve_sums merged_count); [exact Hun|done|done].
Qed.

Lemma chunk_results_count (chunks : list (frame feature)) (code : Z)
    (results : list (frame merged_row)) :
  chunk_results_for chunks code = Ok results →
  sum_list (merged_count <$> mjoin (rows <$> results))
  = sum_list ((λ chunk, length (filter (λ r, f_gridcode r = code) (rows chunk)))
                <$> chunks).
Proof.
  unfold chunk_results_for.
  destruct (res_mapM _ chunks) as [out|] eqn:Hout; [|done]. cbn [res_bind].
  intros [= <-]. apply res_mapM_ok in Hout.
  induction Hout as [|chunk o chunks out Hp _ IH]; [done|].
  rewrite fmap_cons. cbn [sum_list_with id]. rewrite <- IH.
  rewrite <- (process_chunk_count chunk code o Hp).
  destruct o as [f|]; cbn [omap list_omap id from_option]; [|done].
  rewrite filter_cons. case_decide as Hne.
  - rewrite fmap_cons. cbn [mjoin list_join]. by rewrite fmap_app, sum_list_with_app.
  - destruct (rows f); [done|simpl in Hne; lia].
Qed.

(** The counts of a code in the engine's output add up to the number of
    chunk assignments of the features of that code: a feature counts once
    for every chunk it was put in. *)
Lemma merged_count_counts_assignments (gdf : frame feature) (k code : Z)
    (chunks : list (frame feature))
    (out : list (frame merged_row) * gmap Z cat_stats) :
  code ∈ gridcodes →
  create_spatial_chunks gdf k = Ok chunks →
  merge_engine gdf k = Ok out →
  sum_list (merged_count <$> category_output code out.1)
  = sum_list ((λ chunk, length (filter (λ r, f_gridcode r = code) (rows chunk)))
                <$> chunks).
Proof.
  intros Hcode Hchunks. unfold merge_engine. rewrite Hchunks. cbn [res_bind].
  intros Hrun.
  destruct (merge_all_category _ _ _ code Hrun Hcode)
    as [[Hz ->]|(results & Hres & [[-> ->]|[Hne ->]])].
  - rewrite stats_original_count in Hz by done. apply nil_length_inv in Hz.
    symmetry.
    assert (Hall : ∀ chunk, chunk ∈ chunks →
              length (filter (λ r, f_gridcode r = code) (rows chunk)) = 0).
    { intros chunk Hc. apply filter_none_length. intros r Hr Hrc.
      assert (Hk : (0 ≤ k)%Z).
      { unfold create_spatial_chunks, chunks_per_side in Hchunks.
        case_decide; [done|lia]. }
      rewrite create_spatial_chunks_cells in Hchunks by done.
      injection Hchunks as <-. apply list_elem_of_fmap in Hc as (cell & -> & _).
      apply chunk_of_rows in Hr as [Hr _].
      assert (Hin : r ∈ filter (λ r, f_gridcode r = code) (rows gdf))
        by (by apply list_elem_of_filter).
      rewrite Hz in Hin. by apply elem_of_nil in Hin. }
    clear Hchunks Hrun. induction chunks as [|chunk chunks IH]; [done|].
    rewrite fmap_cons. cbn [sum_list_with id].
    rewrite (Hall chunk) by left. rewrite IH; [done|].
    intros c Hc. apply Hall. by right.
  - by rewrite <- (chunk_results_count chunks code [] Hres).
  - by rewrite stitch_count, (chunk_results_count chunks code results Hres).
Qed.

End EngineFacts.

(** ** More on the engine: outcomes, counts and coverage *)

Section EngineBehaviour.
Context `{B : GeoBackend}.

Lemma sum_list_ge_length {A} (w : A → nat) (l : list A) :
  Forall (λ x, 1 ≤ w x) l → length l ≤ sum_list (w <$> l).
Proof.
  induction 1 as [|x l Hx _ IH]; [done|].
  rewrite fmap_cons. cbn [sum_list_with id length]. lia.
Qed.

(** What [process_chunk] returns, case by case. The emptiness test of line
    28 comes before the CRS test of lines 32-36: a chunk that holds no
    feature of the code gives [None] whatever its CRS. On a chunk that
    holds one, a CRS other than EPSG:4326 raises [ValueError]; otherwise an
    error of the contiguity builder is passed on, and without one the merged
    frame is returned, tagged EPSG:4326. *)
Theorem process_chunk_outcomes (chunk : frame feature) (code : Z) :
  let selected := filter (λ r, f_gridcode r = code) (rows chunk) in
  (selected = [] → process_chunk chunk code = Ok None) ∧
  (selected ≠ [] →
     (∀ c, crs chunk = Some c → to_epsg c ≠ Some 4326%Z →
        ∃ msg, process_chunk chunk code = Raise (ValueError msg)) ∧
     (is_ok (require_epsg4326 (crs chunk)) = true →
        if queen_raises (f_geometry <$> chunk_members chunk code)
        then process_chunk chunk code = Raise LibraryError
        else ∃ f, process_chunk chunk code = Ok (Some f) ∧
                  crs f = Some epsg4326 ∧ rows f ≠ [])).
Proof.
  intros selected. split.
  - intros Hnil. unfold process_chunk. fold selected. rewrite Hnil.
    by rewrite decide_True.
  - intros Hne.
    assert (Hlen : length selected ≠ 0).
    { intros H0. by apply nil_length_inv in H0. }
    split.
    + intros c Hc Hepsg. unfold process_chunk. fold selected.
      rewrite decide_False by done. rewrite Hc. cbn [require_epsg4326].
      rewrite decide_False by done. cbn [res_bind]. eauto.
    + intros Hok. unfold chunk_members. fold selected.
      destruct (queen_raises _) eqn:Hq.
      * unfold process_chunk, queen_component_labels. cbv zeta. fold selected.
        rewrite decide_False by done.
        destruct (require_epsg4326 (crs chunk)); [|done]. cbn [res_bind].
        by rewrite Hq.
      * destruct (process_chunk chunk code) as [[f|]|e] eqn:Hp.
        -- exists f. split; [done|].
           apply process_chunk_frame in Hp as ((Hcrs & Hrows & _) & _). done.
        -- exfalso. unfold process_chunk, queen_component_labels in Hp.
           cbv zeta in Hp. fold selected in Hp.
           rewrite decide_False in Hp by done.
           destruct (require_epsg4326 (crs chunk)); [|done]. cbn [res_bind] in Hp.
           by rewrite Hq in Hp.
        -- exfalso. unfold process_chunk, queen_component_labels in Hp.
           cbv zeta in Hp. fold selected in Hp.
           rewrite decide_False in Hp by done.
           destruct (require_epsg4326 (crs chunk)); [|done]. cbn [res_bind] in Hp.
           by rewrite Hq in Hp.
Qed.

(** Within one chunk the counts are conserved: the [merged_count]s of the
    merged frame add up to the number of features of the code in the chunk,
    every merged feature stands for at least one of them, and there are
    never more merged features than features. *)
Theorem process_chunk_conserves_count (chunk : frame feature) (code : Z)
    (f : frame merged_row) :
  process_chunk chunk code = Ok (Some f) →
  let n := length (filter (λ r, f_gridcode r = code) (rows chunk)) in
  sum_list (merged_count <$> rows f) = n ∧
  Forall (λ r, 1 ≤ merged_count r) (rows f) ∧
  1 ≤ length (rows f) ≤ n.
Proof.
  intros Hp n.
  assert (Hsum : sum_list (merged_count <$> rows f) = n)
    by apply (process_chunk_count chunk code (Some f) Hp).
  assert (Hpos : Forall (λ r, 1 ≤ merged_count r) (rows f)).
  { pose proof Hp as Hp'. unfold process_chunk in Hp'.
    case_decide as Hlen; [done|].
    destruct (require_epsg4326 _); [|done]. cbn [res_bind] in Hp'.
    destruct (queen_component_labels _) as [labels|] eqn:Hq; [|done].
    cbn [res_bind] in Hp'. injection Hp' as <-. cbn [rows].
    apply queen_component_labels_length in Hq. rewrite !length_fmap in Hq.
    apply Forall_forall. intros r Hr.
    apply list_elem_of_fmap in Hr as (r0 & -> & Hr0).
    apply dissolve_elem in Hr0 as (c & Hc & ->). cbn [revalidate merged_count].
    pose proof (group_members_nonempty c labels
      ((λ r, Feature (f_gridcode r) (fix_geometry (f_geometry r)))
         <$> filter (λ r, f_gridcode r = code) (rows chunk)) Hc) as Hne.
    rewrite length_fmap in Hne.
    destruct (group_members c labels _); [exfalso; apply Hne; [lia|done]|].
    simpl. lia. }
  split; [done|]. split; [done|].
  apply process_chunk_frame in Hp as ((_ & Hrows & _) & _).
  split.
  - destruct (rows f); [done|simpl; lia].
  - rewrite <- Hsum. by apply sum_list_ge_length.
Qed.

(** No chunk holds anything that the frame does not: a chunk is never
    empty, its rows are rows of the frame in the frame's order, and none of
    them lacks a geometry. So a feature without geometry is in no chunk.
    There are at most [s * s] chunks for [s] the number of cells per side. *)
Theorem chunks_are_subframes (gdf : frame feature) (k : Z)
    (chunks : list (frame feature)) :
  create_spatial_chunks gdf k = Ok chunks →
  Forall (λ chunk, rows chunk ≠ [] ∧
                   rows chunk `sublist_of` rows gdf ∧
                   Forall (λ r, is_Some (f_geometry r)) (rows chunk)) chunks ∧
  length chunks ≤ Z.to_nat (Z.sqrt_up k) * Z.to_nat (Z.sqrt_up k).
Proof.
  intros Hchunks.
  assert (Hk : (0 ≤ k)%Z).
  { unfold create_spatial_chunks, chunks_per_side in Hchunks.
    case_decide; [done|lia]. }
  rewrite create_spatial_chunks_cells in Hchunks by done.
  injection Hchunks as <-. split.
  - apply Forall_forall. intros chunk Hc.
    apply list_elem_of_fmap in Hc as (cell & -> & Hcell).
    apply list_elem_of_filter in Hcell as [Hpos _].
    unfold chunk_of. cbn [rows]. split; [|split].
    + destruct (cell_members (rows gdf) cell); [simpl in Hpos; lia|done].
    + apply sublist_filter.
    + apply Forall_forall. intros r Hr.
      apply list_elem_of_filter in Hr as [Hr _]. unfold row_intersects in Hr.
      destruct (f_geometry r); [by eexists|done].
  - rewrite length_fmap.
    etrans; [apply length_filter|]. by rewrite grid_cells_length.
Qed.


(** The stitch conserves the counts on either path. A clean stitch returns
    at most as many rows as were concatenated, none with a [temp_id]; the
    fall-back returns exactly the concatenated rows, each with its position
    as [temp_id]. *)
Theorem stitch_counts_and_marks (results : list (frame merged_row)) :
  let cat := mjoin (rows <$> results) in
  sum_list (merged_count <$> rows (stitch results))
    = sum_list (merged_count <$> cat) ∧
  (queen_raises (geometry <$> rows (unstitched results)) = false →
     length (rows (stitch results)) ≤ length cat ∧
     Forall (λ r, temp_id r = None) (rows (stitch results))) ∧
  (queen_raises (geometry <$> rows (unstitched results)) = true →
     length (rows (stitch results)) = length cat ∧
     temp_id <$> rows (stitch results) = Some <$> seq 0 (length cat)).
Proof.
  intros cat. split; [apply stitch_count|].
  assert (Hun : rows (unstitched results) = with_temp_ids cat).
  { unfold unstitched. cbn [rows]. by rewrite pd_concat_rows. }
  split; intros Hq.
  - unfold stitch. fold (unstitched results).
    unfold queen_component_labels. rewrite Hq. cbn [rows].
    set (labels := component_labels _ _).
    assert (Hlen : length labels = length cat).
    { unfold labels. rewrite component_labels_length, length_fmap, Hun.
      apply with_temp_ids_length. }
    split.
    + unfold dissolve. rewrite length_fmap. unfold group_keys.
      rewrite <- Hlen. clear. 
      assert (H : NoDup (filter (λ c, c ∈ labels) (seq 0 (S (max_list labels)))))
        by apply NoDup_filter, NoDup_seq.
      apply submseteq_length, NoDup_submseteq; [done|].
      intros c Hc. by apply list_elem_of_filter in Hc as [? _].
    + apply Forall_forall. intros r Hr.
      by apply dissolve_elem in Hr as (c & _ & ->).
  - unfold stitch. fold (unstitched results).
    unfold queen_component_labels. rewrite Hq. rewrite Hun.
    rewrite with_temp_ids_length. split; [done|].
    apply with_temp_ids_fields.
Qed.

Lemma sum_list_all_zero {A} (w : A → nat) (l : list A) :
  (∀ x, x ∈ l → w x = 0) → sum_list (w <$> l) = 0.
Proof.
  induction l as [|x l IH]; intros Hall; [done|].
  rewrite fmap_cons. cbn [sum_list_with id].
  rewrite (Hall x) by left. rewrite IH; [done|].
  intros y Hy. apply Hall. by right.
Qed.

Lemma process_chunk_positive (chunk : frame feature) (code : Z) (f : frame merged_row) :
  process_chunk chunk code = Ok (Some f) →
  Forall (λ r, 1 ≤ merged_count r) (rows f).
Proof.
  unfold process_chunk. case_decide as Hlen; [done|].
  destruct (require_epsg4326 _); [|done]. cbn [res_bind].
  destruct (queen_component_labels _) as [labels|] eqn:Hq; [|done].
  cbn [res_bind]. intros [= <-]. cbn [rows].
  apply queen_component_labels_length in Hq. rewrite !length_fmap in Hq.
  apply Forall_forall. intros r Hr.
  apply list_elem_of_fmap in Hr as (r0 & -> & Hr0).
  apply dissolve_elem in Hr0 as (c & Hc & ->). cbn [revalidate merged_count].
  pose proof (group_members_nonempty c labels
    ((λ r, Feature (f_gridcode r) (fix_geometry (f_geometry r)))
       <$> filter (λ r, f_gridcode r = code) (rows chunk)) Hc) as Hne.
  rewrite length_fmap in Hne.
  destruct (group_members c labels _); [exfalso; apply Hne; [lia|done]|].
  simpl. lia.
Qed.

Lemma chunk_results_positive (chunks : list (frame feature)) (code : Z)
    (results : list (frame merged_row)) :
  chunk_results_for chunks code = Ok results →
  Forall (λ r, 1 ≤ merged_count r) (mjoin (rows <$> results)).
Proof.
  unfold chunk_results_for.
  destruct (res_mapM _ chunks) as [out|] eqn:Hout; [|done]. cbn [res_bind].
  intros [= <-]. apply res_mapM_ok in Hout.
  apply Forall_forall. intros r Hr.
  apply list_elem_of_join in Hr as (l & Hr & Hl).
  apply list_elem_of_fmap in Hl as (f & -> & Hf).
  apply list_elem_of_filter in Hf as [_ Hf].
  apply list_elem_of_omap in Hf as (o & Ho & Hof). cbn in Hof. subst o.
  apply list_elem_of_lookup in Ho as (i & Hi).
  destruct (Forall2_lookup_r _ _ _ _ _ Hout Hi) as (chunk & _ & Hp).
  apply process_chunk_positive in Hp. rewrite Forall_forall in Hp. by apply Hp.
Qed.

Lemma stitch_positive (results : list (frame merged_row)) :
  Forall (λ r, 1 ≤ merged_count r) (mjoin (rows <$> results)) →
  Forall (λ r, 1 ≤ merged_count r) (rows (stitch results)).
Proof.
  intros Hall.
  assert (Hun : Forall (λ r, 1 ≤ merged_count r) (rows (unstitched results))).
  { apply Forall_forall. intros r Hr. unfold unstitched in Hr. cbn [rows] in Hr.
    rewrite pd_concat_rows in Hr.
    apply with_temp_ids_elem in Hr as (r0 & Hr0 & _ & _ & -> & _).
    rewrite Forall_forall in Hall. by apply Hall. }
  unfold stitch. fold (unstitched results).
  destruct (queen_component_labels _) as [labels|] eqn:Hq; [|exact Hun].
  cbn [rows]. apply queen_component_labels_length in Hq. rewrite length_fmap in Hq.
  apply Forall_forall. intros r Hr.
  apply dissolve_elem in Hr as (c & Hc & ->). cbn [merged_count].
  pose proof (group_members_nonempty c labels (rows (unstitched results)) Hc) as Hne.
  destruct (group_members c labels (rows (unstitched results))) as [|m ms] eqn:Hm.
  { exfalso. apply Hne; [lia|done]. }
  assert (Hin : m ∈ group_members c labels (rows (unstitched results)))
    by (rewrite Hm; left).
  apply group_members_elem in Hin as (i & _ & Hi).
  apply list_elem_of_lookup_2 in Hi. rewrite Forall_forall in Hun.
  specialize (Hun m Hi). rewrite fmap_cons. cbn [sum_list_with id]. lia.
Qed.

(** How the counts of a code in the engine's output relate to the chunks:
    they add up to the number of chunk assignments of the features of the
    code (a feature counts once for every chunk it was put in), every merged
    feature stands for at least one assignment, and the code has merged
    features exactly when some chunk holds a feature of the code. *)
Theorem merged_counts_account_for_assignments (gdf : frame feature) (k code : Z)
    (chunks : list (frame feature))
    (out : list (frame merged_row) * gmap Z cat_stats) :
  code ∈ gridcodes →
  create_spatial_chunks gdf k = Ok chunks →
  merge_engine gdf k = Ok out →
  let assignments :=
    sum_list ((λ chunk, length (filter (λ r, f_gridcode r = code) (rows chunk)))
                <$> chunks) in
  sum_list (merged_count <$> category_output code out.1) = assignments ∧
  Forall (λ r, 1 ≤ merged_count r) (category_output code out.1) ∧
  length (category_output code out.1) ≤ assignments ∧
  (category_output code out.1 = [] ↔ assignments = 0).
Proof.
  intros Hcode Hchunks Hrun assignments.
  pose proof (merged_count_counts_assignments gdf k code chunks out
                Hcode Hchunks Hrun) as Hsum.
  fold assignments in Hsum.
  assert (Hpos : Forall (λ r, 1 ≤ merged_count r) (category_output code out.1)).
  { unfold merge_engine in Hrun. rewrite Hchunks in Hrun. cbn [res_bind] in Hrun.
    destruct (merge_all_category _ _ _ code Hrun Hcode)
      as [[_ ->]|(results & Hres & [[_ ->]|[_ ->]])]; [done|done|].
    by apply stitch_positive, (chunk_results_positive chunks code). }
  pose proof (sum_list_ge_length merged_count _ Hpos) as Hle.
  split; [done|]. split; [done|]. split; [lia|]. split.
  - intros Hnil. rewrite Hnil in Hsum. by rewrite <- Hsum.
  - intros Hz. apply nil_length_inv. lia.
Qed.

Lemma merge_code_step (chunks : list (frame feature))
    (st st' : list (frame merged_row) * gmap Z cat_stats) (code : Z) :
  merge_code chunks st code = Ok st' →
  ∃ more, st'.1 = st.1 ++ more ∧
    (∀ c, c ≠ code → category_output c more = []) ∧
    ((category_output code more = [] ∧ st'.2 = st.2) ∨
     st'.2 = alter (set_merged (length (category_output code more))) code st.2).
Proof.
  unfold merge_code. case_decide as Hz.
  { intros [= <-]. exists []. rewrite app_nil_r. split_and!; [done|done|]. by left. }
  destruct (chunk_results_for chunks code) as [results|] eqn:Hres; [|done].
  cbn [res_bind]. destruct results as [|f fs].
  { intros [= <-]. exists []. rewrite app_nil_r. split_and!; [done|done|]. by left. }
  intros [= <-]. cbn [fst snd]. exists [stitch (f :: fs)].
  assert (Hframe : merged_frame_for code (stitch (f :: fs))).
  { apply stitch_frame. apply chunk_results_for_frames in Hres.
    eapply Forall_impl; [exact Hres|]. by intros ? [? _]. }
  split_and!; [done| |].
  - intros c Hc. rewrite (category_output_frame c code _ Hframe).
    by rewrite decide_False.
  - right. rewrite (category_output_frame code code _ Hframe).
    by rewrite decide_True.
Qed.

(** The statistics record after the loop: the original counts are as they
    were set, and [merged_features] of a code is the number of merged
    features of that code in the output. *)
Lemma merge_all_statistics (chunks : list (frame feature)) (stats0 : gmap Z cat_stats)
    (out : list (frame merged_row) * gmap Z cat_stats) (code : Z) :
  merge_all chunks stats0 = Ok out →
  code ∈ gridcodes →
  (∀ c s, stats0 !! c = Some s → merged_features s = 0) →
  out.2 !! code
  = (λ s, CatStats (original_features s) (length (category_output code out.1)))
      <$> stats0 !! code.
Proof.
  unfold merge_all, gridcodes. cbn [res_foldM].
  destruct (merge_code chunks ([], stats0) 12%Z) as [st1|] eqn:H1; [|done].
  cbn [res_bind].
  destruct (merge_code chunks st1 60%Z) as [st2|] eqn:H2; [|done].
  cbn [res_bind]. intros [= <-] Hcode Hzero.
  destruct (merge_code_step _ _ _ _ H1) as (m1 & Hm1 & Ho1 & Hs1).
  destruct (merge_code_step _ _ _ _ H2) as (m2 & Hm2 & Ho2 & Hs2).
  cbn [fst snd] in *. rewrite Hm2, Hm1. cbn [app]. rewrite category_output_app.
  assert (Hsame : ∀ s : cat_stats, merged_features s = 0 →
            CatStats (original_features s) 0 = s) by (by intros [? ?] [= ->]).
  apply gridcodes_elem in Hcode as [-> | ->].
  - rewrite (Ho2 12%Z) by done. rewrite app_nil_r.
    assert (H60 : st2.2 !! 12%Z = st1.2 !! 12%Z).
    { destruct Hs2 as [[_ ->]| ->]; [done|]. by rewrite lookup_alter_ne. }
    rewrite H60. destruct Hs1 as [[-> ->]| ->].
    + destruct (stats0 !! 12%Z) as [s|] eqn:Hs; [|done]. cbn.
      by rewrite (Hsame s (Hzero _ _ Hs)).
    + rewrite lookup_alter. by destruct (stats0 !! 12%Z).
  - rewrite (Ho1 60%Z) by done. cbn [app].
    assert (H12 : st1.2 !! 60%Z = stats0 !! 60%Z).
    { destruct Hs1 as [[_ ->]| ->]; [done|]. by rewrite lookup_alter_ne. }
    destruct Hs2 as [[-> ->]| ->].
    + rewrite H12. destruct (stats0 !! 60%Z) as [s|] eqn:Hs; [|done]. cbn.
      by rewrite (Hsame s (Hzero _ _ Hs)).
    + rewrite lookup_alter, H12. by destruct (stats0 !! 60%Z).
Qed.

Lemma engine_statistics (gdf : frame feature) (k code : Z)
    (out : list (frame merged_row) * gmap Z cat_stats) :
  merge_engine gdf k = Ok out →
  code ∈ gridcodes →
  out.2 !! code
  = Some (CatStats (length (filter (λ r, f_gridcode r = code) (rows gdf)))
                   (length (category_output code out.1))).
Proof.
  unfold merge_engine.
  destruct (create_spatial_chunks gdf k) as [chunks|]; [|done]. cbn [res_bind].
  intros Hrun Hcode.
  rewrite (merge_all_statistics _ _ _ code Hrun Hcode)
    by apply count_originals_zero.
  destruct (count_originals_stats gdf) as (H12 & H60 & _ & _).
  apply gridcodes_elem in Hcode as [-> | ->].
  - by rewrite H12.
  - by rewrite H60.
Qed.

(** Features without a geometry are counted but never merged: when every
    feature of a code lacks its geometry, the run returns no merged feature
    of the code and records [merged_features = 0] beside the full
    [original_features]. *)
Theorem features_without_geometry_are_dropped (gdf : frame feature) (k code : Z)
    (out : list (frame merged_row) * gmap Z cat_stats) :
  code ∈ gridcodes →
  merge_engine gdf k = Ok out →
  (∀ r, r ∈ rows gdf → f_gridcode r = code → f_geometry r = None) →
  category_output code out.1 = [] ∧
  out.2 !! code
  = Some (CatStats (length (filter (λ r, f_gridcode r = code) (rows gdf))) 0).
Proof.
  intros Hcode Hrun Hnull.
  assert (Hout : category_output code out.1 = []).
  { destruct (create_spatial_chunks gdf k) as [chunks|] eqn:Hchunks.
    2:{ unfold merge_engine in Hrun. by rewrite Hchunks in Hrun. }
    pose proof (merged_count_counts_assignments gdf k code chunks out
                  Hcode Hchunks Hrun) as Hsum.
    assert (Hk : (0 ≤ k)%Z).
    { unfold create_spatial_chunks, chunks_per_side in Hchunks.
      case_decide; [done|lia]. }
    rewrite create_spatial_chunks_cells in Hchunks by done.
    injection Hchunks as <-.
    assert (Hzero : sum_list ((λ chunk, length (filter (λ r, f_gridcode r = code)
                       (rows chunk))) <$> (chunk_of gdf <$> filter
                         (λ cell, 0 < length (cell_members (rows gdf) cell))
                         (grid_cells (total_bounds (rows gdf))
                            (Z.to_nat (Z.sqrt_up k))))) = 0).
    { apply sum_list_all_zero. intros chunk Hc.
      apply list_elem_of_fmap in Hc as (cell & -> & _).
      apply filter_none_length. intros r Hr Hc.
      apply chunk_of_rows in Hr as (Hr & g & Hg & _).
      rewrite (Hnull r Hr Hc) in Hg. done. }
    rewrite Hzero in Hsum.
    unfold merge_engine in Hrun.
    destruct (create_spatial_chunks gdf k) as [chunks|] eqn:Hchunks; [|done].
    cbn [res_bind] in Hrun.
    assert (Hpos : Forall (λ r, 1 ≤ merged_count r) (category_output code out.1)).
    { destruct (merge_all_category _ _ _ code Hrun Hcode)
        as [[_ ->]|(results & Hres & [[_ ->]|[_ ->]])]; [done|done|].
      by apply stitch_positive, (chunk_results_positive chunks code). }
    apply sum_list_ge_length in Hpos. apply nil_length_inv. lia. }
  split; [done|].
  rewrite (engine_statistics gdf k code out Hrun Hcode). by rewrite Hout.
Qed.

(** *** Valid geometries all the way *)

Lemma stitch_valid (results : list (frame merged_row)) :
  merge_laws →
  (∀ r, r ∈ mjoin (rows <$> results) → ∃ m, geometry r = Some m ∧ is_valid m = true) →
  ∀ r, r ∈ rows (stitch results) → ∃ m, geometry r = Some m ∧ is_valid m = true.
Proof.
  intros Laws Hall.
  assert (Hun : ∀ r, r ∈ rows (unstitched results) →
            ∃ m, geometry r = Some m ∧ is_valid m = true).
  { intros r Hr. unfold unstitched in Hr. cbn [rows] in Hr.
    rewrite pd_concat_rows in Hr.
    apply with_temp_ids_elem in Hr as (r0 & Hr0 & _ & -> & _). by apply Hall. }
  unfold stitch. fold (unstitched results).
  destruct (queen_component_labels _) as [labels|] eqn:Hq; [|exact Hun].
  cbn [rows]. apply queen_component_labels_length in Hq. rewrite length_fmap in Hq.
  intros r Hr. apply dissolve_elem in Hr as (c & Hc & ->). cbn [geometry].
  unfold union_geometry. eexists. split; [done|].
  rewrite omap_id_fmap. apply (union_is_valid Laws).
  - pose proof (group_members_nonempty c labels (rows (unstitched results)) Hc) as Hne.
    destruct (group_members c labels (rows (unstitched results))) as [|m ms] eqn:Hm.
    { exfalso. apply Hne; [lia|done]. }
    assert (Hin : m ∈ group_members c labels (rows (unstitched results)))
      by (rewrite Hm; left).
    apply group_members_elem in Hin as (i & _ & Hi).
    apply list_elem_of_lookup_2 in Hi. destruct (Hun m Hi) as (g & Hg & _).
    cbn [omap list_omap]. by rewrite Hg.
  - intros g Hg. apply list_elem_of_omap in Hg as (m & Hm & Hg).
    apply group_members_elem in Hm as (i & _ & Hi).
    apply list_elem_of_lookup_2 in Hi. destruct (Hun m Hi) as (g' & Hg' & Hv).
    congruence.
Qed.

(** *** Where a run can fail *)

Lemma res_mapM_raise {A C} (f : A → res C) (l : list A) (e : exn) :
  res_mapM f l = Raise e → ∃ a, a ∈ l ∧ f a = Raise e.
Proof.
  induction l as [|a l IH]; [done|]. cbn [res_mapM].
  destruct (f a) as [b|e'] eqn:Hfa; cbn [res_bind].
  - destruct (res_mapM f l) as [bs|e'] eqn:Hl; cbn [res_bind]; [done|].
    intros [= <-]. destruct (IH eq_refl) as (a' & Ha' & Hfa').
    exists a'. split; [by right|done].
  - intros [= <-]. exists a. split; [left|done].
Qed.

Lemma res_mapM_total {A C} (f : A → res C) (l : list A) :
  (∀ a, a ∈ l → is_ok (f a) = true) → is_ok (res_mapM f l) = true.
Proof.
  induction l as [|a l IH]; intros Hall; [done|]. cbn [res_mapM].
  pose proof (Hall a (list_elem_of_here _ _)) as Ha.
  destruct (f a); [|done]. cbn [res_bind].
  assert (Hl : is_ok (res_mapM f l) = true).
  { apply IH. intros a' Ha'. apply Hall. by right. }
  by destruct (res_mapM f l).
Qed.

Lemma process_chunk_raise (chunk : frame feature) (code : Z) (e : exn) :
  process_chunk chunk code = Raise e →
  is_ok (require_epsg4326 (crs chunk)) = true →
  e = LibraryError ∧
  filter (λ r, f_gridcode r = code) (rows chunk) ≠ [] ∧
  queen_raises (f_geometry <$> chunk_members chunk code) = true.
Proof.
  unfold process_chunk, chunk_members, queen_component_labels. cbv zeta.
  case_decide as Hlen; [done|].
  destruct (require_epsg4326 (crs chunk)); [|done]. cbn [res_bind].
  destruct (queen_raises _) eqn:Hq; [|done]. cbn [res_bind].
  intros [= <-] _. split; [done|]. split; [|done].
  intros Hnil. apply Hlen. by rewrite Hnil.
Qed.

Lemma process_chunk_runs (chunk : frame feature) (code : Z) :
  is_ok (require_epsg4326 (crs chunk)) = true →
  queen_raises (f_geometry <$> chunk_members chunk code) = false →
  is_ok (process_chunk chunk code) = true.
Proof.
  unfold process_chunk, chunk_members, queen_component_labels. cbv zeta.
  intros Hcrs Hq. case_decide as Hlen; [done|].
  destruct (require_epsg4326 (crs chunk)); [|done]. cbn [res_bind].
  by rewrite Hq.
Qed.

Lemma merge_code_raise (chunks : list (frame feature))
    (st : list (frame merged_row) * gmap Z cat_stats) (code : Z) (e : exn) :
  merge_code chunks st code = Raise e →
  ∃ chunk, chunk ∈ chunks ∧ process_chunk chunk code = Raise e.
Proof.
  unfold merge_code, chunk_results_for. case_decide; [done|].
  destruct (res_mapM _ chunks) as [results|e'] eqn:Hres; cbn [res_bind].
  - by destruct (filter _ _).
  - intros [= <-]. by apply res_mapM_raise in Hres.
Qed.

Lemma merge_code_runs (chunks : list (frame feature))
    (st : list (frame merged_row) * gmap Z cat_stats) (code : Z) :
  (∀ chunk, chunk ∈ chunks → is_ok (process_chunk chunk code) = true) →
  is_ok (merge_code chunks st code) = true.
Proof.
  intros Hall. unfold merge_code, chunk_results_for. case_decide; [done|].
  pose proof (res_mapM_total (λ chunk, process_chunk chunk code) chunks Hall) as Hok.
  destruct (res_mapM _ chunks) as [results|]; [|done]. cbn [res_bind].
  by destruct (filter _ _).
Qed.

Lemma merge_all_raise (chunks : list (frame feature)) (stats0 : gmap Z cat_stats)
    (e : exn) :
  merge_all chunks stats0 = Raise e →
  ∃ chunk code, chunk ∈ chunks ∧ code ∈ gridcodes ∧
                process_chunk chunk code = Raise e.
Proof.
  unfold merge_all, gridcodes. cbn [res_foldM].
  destruct (merge_code chunks ([], stats0) 12%Z) as [st1|e1] eqn:H1; cbn [res_bind].
  - destruct (merge_code chunks st1 60%Z) as [st2|e2] eqn:H2; cbn [res_bind]; [done|].
    intros [= <-]. apply merge_code_raise in H2 as (chunk & Hc & Hp).
    exists chunk, 60%Z. split; [done|]. split; [|done].
    apply gridcodes_elem. by right.
  - intros [= <-]. apply merge_code_raise in H1 as (chunk & Hc & Hp).
    exists chunk, 12%Z. split; [done|]. split; [|done].
    apply gridcodes_elem. by left.
Qed.

Lemma merge_all_runs (chunks : list (frame feature)) (stats0 : gmap Z cat_stats) :
  (∀ chunk code, chunk ∈ chunks → code ∈ gridcodes →
     is_ok (process_chunk chunk code) = true) →
  is_ok (merge_all chunks stats0) = true.
Proof.
  intros Hall. unfold merge_all, gridcodes. cbn [res_foldM].
  assert (H12 : is_ok (merge_code chunks ([], stats0) 12%Z) = true).
  { apply merge_code_runs. intros chunk Hc. apply Hall; [done|].
    apply gridcodes_elem. by left. }
  destruct (merge_code chunks ([], stats0) 12%Z) as [st1|]; [|done].
  cbn [res_bind].
  assert (H60 : is_ok (merge_code chunks st1 60%Z) = true).
  { apply merge_code_runs. intros chunk Hc. apply Hall; [done|].
    apply gridcodes_elem. by right. }
  by destruct (merge_code chunks st1 60%Z).
Qed.

Lemma sublist_filter_length {A} (P : A → Prop) `{∀ x, Decision (P x)} (l k : list A) :
  l `sublist_of` k → length (filter P l) ≤ length (filter P k).
Proof.
  induction 1 as [|x l k _ IH|x l k _ IH]; [done| |].
  - rewrite !filter_cons. case_decide; simpl; lia.
  - rewrite filter_cons. case_decide; simpl; lia.
Qed.

Lemma filter_fmap_length {A C} (f : A → C) (P : C → Prop) `{∀ y, Decision (P y)}
    (l : list A) :
  length (filter P (f <$> l)) = length (filter (λ x, P (f x)) l).
Proof.
  induction l as [|x l IH]; [done|].
  rewrite fmap_cons, !filter_cons. case_decide; simpl; lia.
Qed.

Lemma write_rows_in_order (gdf : frame merged_row) (path : string)
    (fs : gmap string file) (c : option CRS) :
  require_epsg4326 (crs gdf) = Ok c →
  ∃ table,
    write_duckdb_compatible_geoparquet gdf path fs
      = (Ok (), <[path := ParquetFile table]> fs) ∧
    (w_gridcode <$> pq_rows table) `sublist_of` (gridcode <$> rows gdf) ∧
    ((∀ r, r ∈ rows gdf →
        ∃ g, geometry r = Some g ∧ is_valid g = true ∧ is_Some (wkb_dumps g)) →
     length (pq_rows table) = length (rows gdf)) ∧
    pq_columns table = columns gdf.
Proof.
  intros Hc. unfold write_duckdb_compatible_geoparquet. rewrite Hc.
  unfold table_from_pandas. cbn [pq_metadata pq_columns pq_rows].
  rewrite decide_False by (rewrite lookup_singleton_ne by done; by intros [? ?]).
  eexists. split; [done|]. cbn [pq_rows pq_columns].
  split; [|split; [|done]]; generalize (rows gdf); intros l.
  - induction l as [|r l IH]; [done|].
    rewrite filter_cons. case_decide as Hg.
    + rewrite !fmap_cons. cbn [omap list_omap].
      destruct (safe_to_wkb _); cbn [fmap option_fmap option_map].
      * rewrite fmap_cons. by apply sublist_skip.
      * by apply sublist_cons.
    + rewrite fmap_cons. by apply sublist_cons.
  - intros Hall. induction l as [|r l IH]; [done|].
    destruct (Hall r) as (g & Hg & Hv & bytes & Hd); [left|].
    rewrite filter_cons, decide_True by (rewrite Hg; by eexists).
    rewrite fmap_cons. cbn [omap list_omap geometry].
    rewrite Hg. cbn [fix_geometry]. rewrite Hv. cbn [safe_to_wkb].
    rewrite Hv, Hd. cbn. f_equal. apply IH.
    intros r' Hr'. apply Hall. by right.
Qed.

Lemma total_merged_two (stats : gmap Z cat_stats) (s12 s60 : cat_stats) :
  dom stats = {[12%Z; 60%Z]} →
  stats !! 12%Z = Some s12 → stats !! 60%Z = Some s60 →
  total_merged stats = merged_features s12 + merged_features s60.
Proof.
  intros Hdom H12 H60.
  assert (Heq : stats = <[12%Z := s12]> {[60%Z := s60]}).
  { apply map_eq. intros c.
    destruct (decide (c = 12%Z)) as [->|Hn12]; [by rewrite lookup_insert_eq|].
    rewrite lookup_insert_ne by done.
    destruct (decide (c = 60%Z)) as [->|Hn60]; [by rewrite lookup_singleton_eq|].
    rewrite lookup_singleton_ne by done.
    apply not_elem_of_dom. rewrite Hdom.
    rewrite elem_of_union, !elem_of_singleton. tauto. }
  rewrite Heq. unfold total_merged.
  rewrite map_to_list_insert by (by rewrite lookup_singleton_ne).
  rewrite map_to_list_singleton. cbn. lia.
Qed.

Lemma output_frame_all_rows (out : list (frame merged_row)) (c : option CRS) :
  rows (output_frame out c) = mjoin (rows <$> out).
Proof.
  unfold output_frame. destruct out as [|f fs]; [done|]. apply pd_concat_rows.
Qed.

(** *** The writer on its own *)


End EngineBehaviour.

(** ** The lattice backend obeys the touch rule *)

Section LatticeFacts.
Import Lattice.

Lemma existsb_elem {A} (f : A → bool) (l : list A) :
  existsb f l = true ↔ ∃ x, x ∈ l ∧ f x = true.
Proof.
  rewrite existsb_exists. split; intros (x & Hx & Hf); exists x; split; try done.
  - by apply list_elem_of_In.
  - by apply list_elem_of_In.
Qed.

Lemma cells_at_elem (p : Q * Q) (c : cell) :
  c ∈ cells_at p ↔
  (c.1 = (Qceiling p.1 - 1)%Z ∨ c.1 = Qfloor p.1) ∧
  (c.2 = (Qceiling p.2 - 1)%Z ∨ c.2 = Qfloor p.2).
Proof.
  unfold cells_at. rewrite list_elem_of_bind. split.
  - intros (i & Hc & Hi). apply list_elem_of_fmap in Hc as (j & -> & Hj). simpl.
    rewrite !elem_of_cons, !elem_of_nil in Hi, Hj. tauto.
  - intros [H1 H2]. destruct c as [i j]. cbn [fst snd] in H1, H2. exists i. split.
    + apply list_elem_of_fmap. exists j. split; [done|].
      rewrite !elem_of_cons, !elem_of_nil. tauto.
    + rewrite !elem_of_cons, !elem_of_nil. tauto.
Qed.

Lemma near_coordinate (x : Q) (i : Z) :
  i = (Qceiling x - 1)%Z ∨ i = Qfloor x → (zq i <= x)%Q ∧ (x <= zq (i + 1))%Q.
Proof.
  unfold zq. intros [-> | ->].
  - split; [apply Qlt_le_weak, Qceiling_lt|].
    replace (Qceiling x - 1 + 1)%Z with (Qceiling x) by lia. apply Qle_ceiling.
  - split; [apply Qfloor_le|apply Qlt_le_weak, Qlt_floor].
Qed.

Lemma cells_at_square (p : Q * Q) (c : cell) :
  c ∈ cells_at p →
  (zq c.1 <= p.1)%Q ∧ (p.1 <= zq (c.1 + 1))%Q ∧
  (zq c.2 <= p.2)%Q ∧ (p.2 <= zq (c.2 + 1))%Q.
Proof.
  intros [H1 H2]%cells_at_elem.
  destruct (near_coordinate _ _ H1). destruct (near_coordinate _ _ H2). done.
Qed.

Lemma on_boundary_cell (g : list cell) (p : Q * Q) :
  on_boundary g p = true → ∃ c, c ∈ cells_at p ∧ c ∈ g.
Proof.
  unfold on_boundary. intros [H _]%andb_true_iff.
  apply existsb_elem in H as (c & Hc & Hin). exists c. split; [done|].
  by apply bool_decide_eq_true in Hin.
Qed.

Lemma ceiling_near_floor (x : Q) :
  (Qceiling x - 1)%Z = (Qfloor x - 1)%Z ∨ (Qceiling x - 1)%Z = Qfloor x.
Proof.
  pose proof (Qle_floor_ceiling x) as H1.
  pose proof (Qceiling_lt x) as H2. pose proof (Qlt_floor x) as H3.
  assert (H4 : (Qceiling x - 1 < Qfloor x + 1)%Z).
  { rewrite Zlt_Qlt. eapply Qlt_trans; [exact H2|exact H3]. }
  rewrite <- Zle_Qle in H1.
  destruct (decide (Qceiling x = Qfloor x)); [left|right]; lia.
Qed.

Lemma cells_at_vertex (x y : Z) (c : cell) :
  c ∈ cells_at (zq x, zq y) ↔
  (c.1 = (x - 1)%Z ∨ c.1 = x) ∧ (c.2 = (y - 1)%Z ∨ c.2 = y).
Proof.
  rewrite cells_at_elem. unfold zq. cbn [fst snd].
  by rewrite !Qceiling_Z, !Qfloor_Z.
Qed.

(** The cells around a point are among the cells around the grid vertex
    below and left of it. *)
Lemma cells_at_floor (p : Q * Q) (c : cell) :
  c ∈ cells_at p → c ∈ cells_at (zq (Qfloor p.1), zq (Qfloor p.2)).
Proof.
  rewrite cells_at_elem, cells_at_vertex.
  pose proof (ceiling_near_floor p.1). pose proof (ceiling_near_floor p.2).
  intros [[-> | ->] [-> | ->]]; split; tauto || (by right).
Qed.

Lemma on_boundary_floor (g : list cell) (p : Q * Q) :
  on_boundary g p = true →
  on_boundary g (zq (Qfloor p.1), zq (Qfloor p.2)) = true.
Proof.
  unfold on_boundary. rewrite !andb_true_iff, !existsb_elem.
  intros [(c & Hc & H1) (d & Hd & H2)]. split.
  - exists c. split; [by apply cells_at_floor|done].
  - exists d. split; [by apply cells_at_floor|done].
Qed.

Lemma vertex_is_corner (g : list cell) (x y : Z) (c : cell) :
  c ∈ cells_at (zq x, zq y) → c ∈ g → (x, y) ∈ corners g.
Proof.
  intros [H1 H2]%cells_at_vertex Hg. unfold corners.
  apply list_elem_of_bind. exists c. split; [|done].
  rewrite !elem_of_cons, elem_of_nil.
  destruct c as [i j]. simpl in *.
  destruct H1 as [-> | ->], H2 as [-> | ->].
  - do 3 right. left. f_equal; lia.
  - right. left. f_equal; lia.
  - do 2 right. left. f_equal; lia.
  - left. done.
Qed.

Lemma bounds_contain_cell (g : list cell) (c : cell) (p : Q * Q) :
  c ∈ g →
  (zq c.1 <= p.1)%Q → (p.1 <= zq (c.1 + 1))%Q →
  (zq c.2 <= p.2)%Q → (p.2 <= zq (c.2 + 1))%Q →
  in_box p (bounds g).
Proof.
  intros Hc H1 H2 H3 H4. unfold in_box, bounds. cbn [minx miny maxx maxy].
  split_and!.
  - eapply Qle_trans; [|exact H1]. apply qmin_list_le.
    apply list_elem_of_fmap. exists c.1. split; [done|].
    apply list_elem_of_fmap. eauto.
  - eapply Qle_trans; [exact H2|]. apply qmax_list_ge.
    apply list_elem_of_fmap. eauto.
  - eapply Qle_trans; [|exact H3]. apply qmin_list_le.
    apply list_elem_of_fmap. exists c.2. split; [done|].
    apply list_elem_of_fmap. eauto.
  - eapply Qle_trans; [exact H4|]. apply qmax_list_ge.
    apply list_elem_of_fmap. eauto.
Qed.

Lemma lattice_touch_laws (raises : list (option (list cell)) → bool) :
  @touch_laws (backend raises).
Proof.
  split; cbn [boundary_pt queen_contiguous geom_bounds intersects_box backend].
  - intros g h p Hg Hh. unfold contiguous. apply existsb_elem.
    apply on_boundary_floor in Hg, Hh.
    destruct (on_boundary_cell _ _ Hg) as (c & Hc & Hin).
    exists (Qfloor p.1, Qfloor p.2). split.
    + by eapply vertex_is_corner.
    + cbn [fst snd]. by rewrite Hg, Hh.
  - intros g p Hg. destruct (on_boundary_cell _ _ Hg) as (c & Hc & Hin).
    destruct (cells_at_square _ _ Hc) as (? & ? & ? & ?).
    by eapply bounds_contain_cell.
  - intros g p bx Hg (H1 & H2 & H3 & H4).
    destruct (on_boundary_cell _ _ Hg) as (c & Hc & Hin).
    destruct (cells_at_square _ _ Hc) as (? & ? & ? & ?).
    unfold meets_box. apply existsb_elem. exists c. split; [done|].
    unfold cell_meets_box. rewrite !andb_true_iff, !Qle_bool_iff.
    split_and!; lra.
Qed.

(** *** ... and the laws of the re-run argument *)

Lemma cell_ltb_lt (c d : cell) : cell_ltb c d = true ↔ cell_lt c d.
Proof. unfold cell_ltb, cell_lt. apply bool_decide_eq_true. Qed.

Lemma cell_ltb_false (c d : cell) : cell_ltb c d = false ↔ ¬ cell_lt c d.
Proof. unfold cell_ltb, cell_lt. apply bool_decide_eq_false. Qed.

Lemma cell_lt_trans (c d e : cell) : cell_lt c d → cell_lt d e → cell_lt c e.
Proof. unfold cell_lt. lia. Qed.

Lemma cell_lt_total (c d : cell) : cell_lt c d ∨ c = d ∨ cell_lt d c.
Proof.
  destruct c as [c1 c2], d as [d1 d2]. unfold cell_lt. cbn [fst snd].
  destruct (Z.lt_total c1 d1) as [?|[->|?]]; [lia| |lia].
  destruct (Z.lt_total c2 d2) as [?|[->|?]]; [lia| |lia].
  right. by left.
Qed.

Lemma ascending_cons (c : cell) (g : list cell) :
  ascending (c :: g) = true ↔ ascending g = true ∧ ∀ d, d ∈ g → cell_lt c d.
Proof.
  revert c. induction g as [|d g IH]; intros c.
  - split; [|done]. intros _. split; [done|]. intros d Hd. by apply elem_of_nil in Hd.
  - change (ascending (c :: d :: g)) with (cell_ltb c d && ascending (d :: g)).
    rewrite andb_true_iff, cell_ltb_lt. split.
    + intros [Hcd Hasc]. split; [done|]. intros e He.
      apply elem_of_cons in He as [->|He]; [done|].
      apply (cell_lt_trans c d e); [done|]. by apply (proj1 (IH d) Hasc).
    + intros [Hasc Hall]. split; [|done]. apply Hall. left.
Qed.

Lemma insert_cell_elem (c x : cell) (g : list cell) :
  x ∈ insert_cell c g ↔ x = c ∨ x ∈ g.
Proof.
  induction g as [|d g IH]; cbn [insert_cell].
  - rewrite list_elem_of_singleton, elem_of_nil. tauto.
  - destruct (cell_ltb c d).
    + by rewrite elem_of_cons.
    + case_bool_decide as Hcd.
      * subst. rewrite elem_of_cons. tauto.
      * rewrite !elem_of_cons, IH. tauto.
Qed.

Lemma normalize_elem (x : cell) (g : list cell) : x ∈ normalize g ↔ x ∈ g.
Proof.
  unfold normalize. induction g as [|c g IH]; [done|].
  cbn [foldr]. rewrite insert_cell_elem, elem_of_cons, IH. done.
Qed.

Lemma insert_cell_ascending (c : cell) (g : list cell) :
  ascending g = true → ascending (insert_cell c g) = true.
Proof.
  induction g as [|d g IH]; [done|]. intros Hasc. cbn [insert_cell].
  destruct (cell_ltb c d) eqn:Hcd.
  - apply ascending_cons. split; [done|]. intros e He.
    apply cell_ltb_lt in Hcd. apply ascending_cons in Hasc as [_ Hall].
    apply elem_of_cons in He as [->|He]; [done|].
    eapply cell_lt_trans; [exact Hcd|]. by apply Hall.
  - case_bool_decide as Hne; [done|].
    apply ascending_cons in Hasc as [Hasc Hall].
    apply ascending_cons. split; [by apply IH|].
    intros e He. apply insert_cell_elem in He as [->|He]; [|by apply Hall].
    apply cell_ltb_false in Hcd. destruct (cell_lt_total c d) as [?|[?|?]]; done.
Qed.

Lemma normalize_ascending (g : list cell) : ascending (normalize g) = true.
Proof.
  unfold normalize. induction g as [|c g IH]; [done|].
  cbn [foldr]. by apply insert_cell_ascending.
Qed.

Lemma insert_cell_member (c : cell) (g : list cell) :
  ascending g = true → c ∈ g → insert_cell c g = g.
Proof.
  induction g as [|d g IH]; intros Hasc Hc; [by apply elem_of_nil in Hc|].
  apply ascending_cons in Hasc as [Hasc Hall]. cbn [insert_cell].
  apply elem_of_cons in Hc as [->|Hc].
  - assert (Hdd : cell_ltb d d = false) by (apply cell_ltb_false; unfold cell_lt; lia).
    rewrite Hdd. by rewrite bool_decide_eq_true_2.
  - pose proof (Hall c Hc) as Hdc.
    assert (Hcd : cell_ltb c d = false).
    { apply cell_ltb_false. unfold cell_lt in *. lia. }
    rewrite Hcd. rewrite bool_decide_eq_false_2.
    + f_equal. by apply IH.
    + intros ->. unfold cell_lt in Hdc. lia.
Qed.

Lemma insert_cell_head (c : cell) (g : list cell) :
  (∀ d, d ∈ g → cell_lt c d) → insert_cell c g = c :: g.
Proof.
  destruct g as [|d g]; [done|]. intros Hall. cbn [insert_cell].
  by rewrite (proj2 (cell_ltb_lt c d) (Hall d ltac:(left))).
Qed.

Lemma normalize_of_ascending (g : list cell) : ascending g = true → normalize g = g.
Proof.
  unfold normalize. induction g as [|c g IH]; [done|].
  intros [Hasc Hall]%ascending_cons. cbn [foldr]. rewrite IH by done.
  by apply insert_cell_head.
Qed.

Lemma foldr_insert_members (g h : list cell) :
  ascending g = true → (∀ c, c ∈ h → c ∈ g) → foldr insert_cell g h = g.
Proof.
  intros Hasc. induction h as [|c h IH]; intros Hsub; [done|].
  cbn [foldr]. rewrite IH by (intros d Hd; apply Hsub; by right).
  apply insert_cell_member; [done|]. apply Hsub. left.
Qed.

Lemma valid_ascending (g : list cell) : valid g = true → g ≠ [] ∧ ascending g = true.
Proof.
  unfold valid. intros [H1 H2]%andb_true_iff. by apply bool_decide_eq_true in H1.
Qed.

Lemma normalize_copies (g : list cell) (n : nat) :
  valid g = true → normalize (mjoin (replicate (S n) g)) = g.
Proof.
  intros [_ Hasc]%valid_ascending. induction n as [|n IH].
  - cbn. rewrite app_nil_r. by apply normalize_of_ascending.
  - change (mjoin (replicate (S (S n)) g)) with (g ++ mjoin (replicate (S n) g)).
    unfold normalize in *. rewrite foldr_app, IH. by apply foldr_insert_members.
Qed.

Lemma normalize_valid (g : list cell) : g ≠ [] → valid (normalize g) = true.
Proof.
  intros Hne. unfold valid. rewrite normalize_ascending, andb_true_r.
  apply bool_decide_eq_true. destruct g as [|c g]; [done|].
  intros Hnil. assert (Hc : c ∈ normalize (c :: g)) by (apply normalize_elem; left).
  rewrite Hnil in Hc. by apply elem_of_nil in Hc.
Qed.

(** The lower left corner of the first cell of a valid geometry lies on its
    boundary. *)
Lemma valid_boundary_vertex (g : list cell) :
  valid g = true →
  ∃ v : cell, v ∈ corners g ∧ on_boundary g (zq v.1, zq v.2) = true.
Proof.
  intros [Hne Hasc]%valid_ascending. destruct g as [|c g]; [done|].
  apply ascending_cons in Hasc as [_ Hall]. exists (c.1, c.2). split.
  - apply (vertex_is_corner _ _ _ c); [|left]. apply cells_at_vertex. tauto.
  - cbn [fst snd]. unfold on_boundary. rewrite andb_true_iff, !existsb_elem. split.
    + exists c. split; [apply cells_at_vertex; tauto|].
      apply bool_decide_eq_true. left.
    + exists ((c.1 - 1)%Z, (c.2 - 1)%Z). split; [apply cells_at_vertex; cbn; tauto|].
      apply bool_decide_eq_true. intros Hin.
      apply elem_of_cons in Hin as [Heq|Hin].
      * destruct c as [c1 c2]. cbn in Heq. injection Heq. lia.
      * specialize (Hall _ Hin). unfold cell_lt in Hall. cbn in Hall. lia.
Qed.

Lemma on_boundary_union_member (gs : list (list cell)) (p : Q * Q) :
  on_boundary (normalize (mjoin gs)) p = true →
  ∃ g c, g ∈ gs ∧ c ∈ cells_at p ∧ c ∈ g ∧ on_boundary g p = true.
Proof.
  unfold on_boundary. rewrite andb_true_iff, !existsb_elem.
  intros [(c & Hc & Hin) (d & Hd & Hout)].
  apply bool_decide_eq_true in Hin, Hout.
  apply normalize_elem, list_elem_of_join in Hin as (g & Hcg & Hg).
  exists g, c. split_and!; [done..|].
  rewrite andb_true_iff, !existsb_elem. split.
  - exists c. split; [done|]. by apply bool_decide_eq_true.
  - exists d. split; [done|]. apply bool_decide_eq_true. intros Hdg.
    apply Hout, normalize_elem, list_elem_of_join. eauto.
Qed.

Lemma lattice_merge_laws (raises : list (option (list cell)) → bool) :
  @merge_laws (backend raises).
Proof.
  split; cbn [boundary_pt queen_contiguous geom_bounds intersects_box is_valid
              make_valid unary_union backend].
  - intros g bx Hmeets. apply normalize_valid. intros ->. done.
  - intros g [_ Hasc]%valid_ascending. by apply normalize_of_ascending.
  - intros gs Hne Hall. apply normalize_valid.
    destruct gs as [|g gs]; [done|].
    destruct (valid_ascending g (Hall g ltac:(left))) as [Hg _].
    destruct g; [done|]. done.
  - intros g n Hv. by apply normalize_copies.
  - intros g Hv. destruct (valid_boundary_vertex g Hv) as (v & Hv1 & Hv2).
    unfold contiguous. apply existsb_elem. exists v. split; [done|].
    by rewrite Hv2.
  - intros gs hs Hcont. unfold contiguous in Hcont.
    apply existsb_elem in Hcont as (v & _ & [Hg Hh]%andb_true_iff).
    destruct (on_boundary_union_member gs _ Hg) as (g & c & Hgin & Hc & Hcg & Hbg).
    destruct (on_boundary_union_member hs _ Hh) as (h & _ & Hhin & _ & _ & Hbh).
    exists g, h. split_and!; [done..|].
    unfold contiguous. apply existsb_elem. exists v. split.
    + destruct v as [x y]. by eapply vertex_is_corner.
    + by rewrite Hbg, Hbh.
  - intros g Hv. destruct (valid_boundary_vertex g Hv) as (v & _ & Hb). eauto.
Qed.

End LatticeFacts.

Section MergeGridFacts.
Context `{B : GeoBackend} `{T : TempFiles}.

Lemma merge_grid_loaded (item : data_item) (fs : gmap string file)
    (path : string) (gdf0 : frame feature) :
  input_path item = Some path →
  path ≠ "" →
  fs !! path = Some (GeoParquetFile gdf0) →
  merge_grid item fs = merge_loaded item gdf0 fs.
Proof.
  intros Hpath Hne Hfile. unfold merge_grid.
  by rewrite Hpath, decide_False, Hfile by done.
Qed.

Lemma output_frame_crs (stats0 : gmap Z cat_stats)
    (st : list (frame merged_row) * gmap Z cat_stats) (c0 c : option CRS) :
  require_epsg4326 c0 = Ok c →
  loop_invariant stats0 st →
  require_epsg4326 (crs (output_frame st.1 c)) = Ok (crs (output_frame st.1 c)).
Proof.
  intros Hc (_ & _ & _ & Hframes). unfold output_frame.
  destruct st.1 as [|f fs].
  - simpl. by eapply require_epsg4326_idem.
  - rewrite pd_concat_crs. apply Forall_cons_1 in Hframes as [(code & _ & _ & Hf) _].
    by destruct Hf as [-> _].
Qed.

(** A run that gets past the merge loop writes its table and returns. *)
Lemma merge_loaded_serializes (item : data_item) (gdf0 : frame feature)
    (fs : gmap string file) (c : option CRS) (chunks : list (frame feature))
    (merged : list (frame merged_row) * gmap Z cat_stats) :
  require_epsg4326 (crs gdf0) = Ok c →
  create_spatial_chunks (Frame (columns gdf0) c (rows gdf0))
                        (default 4%Z (num_chunks item)) = Ok chunks →
  merge_all chunks (count_originals (Frame (columns gdf0) c (rows gdf0))).1 = Ok merged →
  ∃ table,
    merge_loaded item gdf0 fs =
      (Ok (MergeOutput (mkstemp (dom fs)) (metadata item) (total_merged merged.2)
                       merged.2 (count_originals (Frame (columns gdf0) c (rows gdf0))).2
                       (total_merged merged.2) (length chunks)),
       <[mkstemp (dom fs) := ParquetFile table]> (<[mkstemp (dom fs) := EmptyFile]> fs)) ∧
    pq_metadata table !! "geo" = Some geo_metadata ∧
    pq_columns table = columns (output_frame merged.1 c) ∧
    (∀ w, w ∈ pq_rows table →
       ∃ r, r ∈ rows (output_frame merged.1 c) ∧ w_gridcode w = gridcode r ∧
            w_merged_count w = merged_count r ∧ w_temp_id w = temp_id r) ∧
    (rows (output_frame merged.1 c) = [] → pq_rows table = []).
Proof.
  intros Hc Hchunks Hmerged. unfold merge_loaded.
  rewrite Hc, Hchunks, Hmerged. cbn [crs].
  pose proof (merge_all_invariant _ _ _
                (λ c0 s Hs _, count_originals_zero _ c0 s Hs) Hmerged) as Hinv.
  pose proof (output_frame_crs _ _ _ _ Hc Hinv) as Hout.
  destruct (write_ok _ (mkstemp (dom fs)) (<[mkstemp (dom fs) := EmptyFile]> fs) _ Hout)
    as (table & -> & Hgeo & Hcols & Hrows & Hempty).
  exists table. done.
Qed.

Lemma merge_loaded_inv (item : data_item) (gdf0 : frame feature)
    (fs fs' : gmap string file) (out : merge_output) :
  merge_loaded item gdf0 fs = (Ok out, fs') →
  ∃ c chunks merged,
    require_epsg4326 (crs gdf0) = Ok c ∧
    create_spatial_chunks (Frame (columns gdf0) c (rows gdf0))
                          (default 4%Z (num_chunks item)) = Ok chunks ∧
    merge_all chunks (count_originals (Frame (columns gdf0) c (rows gdf0))).1 = Ok merged.
Proof.
  unfold merge_loaded.
  destruct (require_epsg4326 _) as [c|] eqn:Hc; [|done].
  destruct (create_spatial_chunks _ _) as [chunks|] eqn:Hchunks; [|done].
  destruct (merge_all _ _) as [merged|] eqn:Hmerged; [|done].
  intros _. exists c, chunks, merged. done.
Qed.

(** C5. A readable input whose CRS tag is not EPSG:4326 makes [merge_grid]
    raise a [ValueError] and leaves the file system as it was (no output
    file is created); an input without a CRS tag is processed exactly as the
    same input tagged EPSG:4326: same returned value, same files written. *)
Theorem crs_invariant_enforcement
    (item : data_item) (fs : gmap string file) (path : string) (gdf0 : frame feature) :
  input_path item = Some path →
  path ≠ "" →
  fs !! path = Some (GeoParquetFile gdf0) →
  (∀ c, crs gdf0 = Some c → to_epsg c ≠ Some 4326%Z →
        ∃ msg, merge_grid item fs = (Raise (ValueError msg), fs)) ∧
  (crs gdf0 = None →
     let tagged := Frame (columns gdf0) (Some epsg4326) (rows gdf0) in
     let fs_tagged := <[path := GeoParquetFile tagged]> fs in
     (merge_grid item fs).1 = (merge_grid item fs_tagged).1 ∧
     ∀ p, p ≠ path → (merge_grid item fs).2 !! p = (merge_grid item fs_tagged).2 !! p).
Proof.
  intros Hpath Hne Hfile.
  assert (Hrun : ∀ fs' g, fs' !! path = Some (GeoParquetFile g) →
            merge_grid item fs' = merge_loaded item g fs').
  { intros fs' g Hg. unfold merge_grid.
    by rewrite Hpath, decide_False, Hg by done. }
  split.
  - intros c Hc Hbad. rewrite (Hrun _ _ Hfile). unfold merge_loaded. rewrite Hc.
    destruct (require_epsg4326_mismatch c Hbad) as [msg ->]. eauto.
  - intros Hnone tagged fs_tagged.
    rewrite (Hrun _ _ Hfile), (Hrun fs_tagged tagged)
      by (unfold fs_tagged; apply lookup_insert_eq).
    unfold merge_loaded. rewrite Hnone. simpl.
    assert (Hdom : dom fs_tagged = dom fs).
    { unfold fs_tagged. apply dom_insert_lookup_L. by rewrite Hfile. }
    rewrite Hdom.
    assert (Hother : ∀ p, p ≠ path → fs !! p = fs_tagged !! p).
    { intros p Hp. unfold fs_tagged. by rewrite lookup_insert_ne. }
    destruct (create_spatial_chunks _ _) as [chunks|e]; simpl; [|by split].
    destruct (merge_all _ _) as [[dfs st]|e]; simpl; [|by split].
    unfold write_duckdb_compatible_geoparquet.
    assert (Hins : ∀ (x y : file) p, p ≠ path →
              <[mkstemp (dom fs) := x]> (<[mkstemp (dom fs) := y]> fs) !! p =
              <[mkstemp (dom fs) := x]> (<[mkstemp (dom fs) := y]> fs_tagged) !! p).
    { intros x y p Hp. destruct (decide (p = mkstemp (dom fs))) as [->|Hq].
      - by rewrite !lookup_insert_eq.
      - rewrite !lookup_insert_ne by done. by apply Hother. }
    destruct (require_epsg4326 _) as [ck|e]; simpl; (split; [done|]).
    + intros p Hp. by apply Hins.
    + intros p Hp. destruct (decide (p = mkstemp (dom fs))) as [->|Hq].
      * by rewrite !lookup_insert_eq.
      * rewrite !lookup_insert_ne by done. by apply Hother.
Qed.

Lemma output_frame_rows (stats0 : gmap Z cat_stats)
    (st : list (frame merged_row) * gmap Z cat_stats) (c : option CRS) (r : merged_row) :
  loop_invariant stats0 st →
  r ∈ rows (output_frame st.1 c) →
  ∃ code, code ∈ gridcodes ∧ stats_original stats0 code ≠ 0 ∧ gridcode r = code.
Proof.
  intros (_ & _ & _ & Hframes) Hr. unfold output_frame in Hr.
  destruct st.1 as [|f fs] eqn:Hst; [by apply elem_of_nil in Hr|].
  rewrite pd_concat_rows in Hr. apply list_elem_of_join in Hr as (l & Hr & Hl).
  apply list_elem_of_fmap in Hl as (g & -> & Hg).
  rewrite Forall_forall in Hframes.
  destruct (Hframes g Hg) as (code & Hcode & Hn & _ & _ & Hrows).
  rewrite Forall_forall in Hrows. destruct (Hrows r Hr) as [Hgc _]. eauto.
Qed.



End MergeGridFacts.

(** ** More on [merge_grid]: files, failures and statistics *)

Section MergeGridBehaviour.
Context `{B : GeoBackend} `{T : TempFiles}.

Lemma chunks_keep_crs (gdf : frame feature) (k : Z) (chunks : list (frame feature)) :
  create_spatial_chunks gdf k = Ok chunks →
  ∀ chunk, chunk ∈ chunks →
    crs chunk = crs gdf ∧ rows chunk `sublist_of` rows gdf.
Proof.
  intros Hchunks chunk Hc.
  assert (Hk : (0 ≤ k)%Z).
  { unfold create_spatial_chunks, chunks_per_side in Hchunks.
    case_decide; [done|lia]. }
  rewrite create_spatial_chunks_cells in Hchunks by done.
  injection Hchunks as <-.
  apply list_elem_of_fmap in Hc as (cell & -> & _).
  split; [done|]. apply sublist_filter.
Qed.

Lemma merge_loaded_written (item : data_item) (gdf0 : frame feature)
    (fs : gmap string file) (c : option CRS) (chunks : list (frame feature))
    (merged : list (frame merged_row) * gmap Z cat_stats) :
  require_epsg4326 (crs gdf0) = Ok c →
  create_spatial_chunks (Frame (columns gdf0) c (rows gdf0))
                        (default 4%Z (num_chunks item)) = Ok chunks →
  merge_all chunks (count_originals (Frame (columns gdf0) c (rows gdf0))).1 = Ok merged →
  ∃ table,
    merge_loaded item gdf0 fs =
      (Ok (MergeOutput (mkstemp (dom fs)) (metadata item) (total_merged merged.2)
                       merged.2 (count_originals (Frame (columns gdf0) c (rows gdf0))).2
                       (total_merged merged.2) (length chunks)),
       <[mkstemp (dom fs) := ParquetFile table]> fs) ∧
    (w_gridcode <$> pq_rows table) `sublist_of` (gridcode <$> mjoin (rows <$> merged.1)) ∧
    ((∀ r, r ∈ mjoin (rows <$> merged.1) →
        ∃ g, geometry r = Some g ∧ is_valid g = true ∧ is_Some (wkb_dumps g)) →
     length (pq_rows table) = length (mjoin (rows <$> merged.1))) ∧
    pq_columns table = columns (output_frame merged.1 c).
Proof.
  intros Hc Hchunks Hmerged. unfold merge_loaded.
  rewrite Hc, Hchunks, Hmerged. cbn [crs].
  pose proof (merge_all_invariant _ _ _
                (λ c0 s Hs _, count_originals_zero _ c0 s Hs) Hmerged) as Hinv.
  pose proof (output_frame_crs _ _ _ _ Hc Hinv) as Hout.
  destruct (write_rows_in_order _ (mkstemp (dom fs))
              (<[mkstemp (dom fs) := EmptyFile]> fs) _ Hout)
    as (table & -> & Hrows & Hfull & Hcols).
  exists table. cbn [fst snd]. rewrite insert_insert_eq.
  rewrite output_frame_all_rows in Hrows, Hfull. done.
Qed.

Lemma merge_grid_raise_keeps_files (item : data_item) (fs fs' : gmap string file)
    (e : exn) :
  merge_grid item fs = (Raise e, fs') → fs' = fs.
Proof.
  unfold merge_grid. destruct (input_path item) as [path|]; [|by intros [= _ <-]].
  case_decide; [by intros [= _ <-]|].
  destruct (fs !! path) as [[gdf0| |]|]; try (by intros [= _ <-]).
  destruct (require_epsg4326 (crs gdf0)) as [c|e0] eqn:Hc.
  2:{ unfold merge_loaded. rewrite Hc. by intros [= _ <-]. }
  destruct (create_spatial_chunks (Frame (columns gdf0) c (rows gdf0))
              (default 4%Z (num_chunks item))) as [chunks|e0] eqn:Hchunks.
  2:{ unfold merge_loaded. rewrite Hc, Hchunks. by intros [= _ <-]. }
  destruct (merge_all chunks (count_originals (Frame (columns gdf0) c (rows gdf0))).1)
    as [merged|e0] eqn:Hmerged.
  2:{ unfold merge_loaded. rewrite Hc, Hchunks, Hmerged. by intros [= _ <-]. }
  destruct (merge_loaded_written item gdf0 fs c chunks merged Hc Hchunks Hmerged)
    as (table & -> & _ & _ & _).
  done.
Qed.


(** The test of the block passes on whatever a run returns: the file that
    the returned [input_path] names exists when [merge_grid] is done. *)
Theorem test_output_passes (item : data_item) (fs fs' : gmap string file)
    (out : merge_output) :
  merge_grid item fs = (Ok out, fs') →
  test_output (Some out) fs' = Passed.
Proof.
  intros Hrun.
  assert (Hfile : ∃ table, fs' !! out_input_path out = Some (ParquetFile table)).
  { unfold merge_grid in Hrun. destruct (input_path item) as [path|]; [|done].
    case_decide; [done|].
    destruct (fs !! path) as [[gdf0| |]|]; try done.
    destruct (merge_loaded_inv _ _ _ _ _ Hrun) as (c & chunks & merged & Hc & Hch & Hm).
    destruct (merge_loaded_written item gdf0 fs c chunks merged Hc Hch Hm)
      as (table & Heq & _ & _ & _).
    rewrite Heq in Hrun. injection Hrun as <- <-. exists table.
    cbn [out_input_path]. by rewrite lookup_insert_eq. }
  destruct Hfile as (table & Hfile). unfold test_output.
  rewrite decide_True; [done|]. rewrite Hfile. by eexists.
Qed.



Lemma length_two_classes {A} (P Q : A → Prop) `{∀ x, Decision (P x)}
    `{∀ x, Decision (Q x)} (l : list A) :
  (∀ x, x ∈ l → P x ∨ Q x) → (∀ x, P x → Q x → False) →
  length l = length (filter P l) + length (filter Q l).
Proof.
  intros Hall Hdis. induction l as [|x l IH]; [done|].
  rewrite !filter_cons. cbn [length].
  rewrite IH by (intros y Hy; apply Hall; by right).
  destruct (Hall x) as [HP|HQ]; [left| |].
  - rewrite decide_True by done. rewrite decide_False by (intros HQ; by eapply Hdis).
    simpl. lia.
  - rewrite decide_False by (intros HP; by eapply Hdis). rewrite decide_True by done.
    simpl. lia.
Qed.

(** What the returned statistics say. For each of the two codes,
    [original_features] is the number of input features of the code and
    [merged_features] the number of merged features of the code that went
    to the writer; the totals are their sums, and the caller's metadata
    comes back as it was given. The written table never has more rows of a
    code than [merged_features] reports (rows that cannot be encoded are
    left out after the statistics were taken). *)
Theorem merge_grid_statistics (item : data_item) (fs fs' : gmap string file)
    (path : string) (gdf0 : frame feature) (out : merge_output) :
  input_path item = Some path →
  path ≠ "" →
  fs !! path = Some (GeoParquetFile gdf0) →
  merge_grid item fs = (Ok out, fs') →
  let count := λ code, length (filter (λ r, f_gridcode r = code) (rows gdf0)) in
  ∃ m12 m60 table,
    out_merge_stats out !! 12%Z = Some (CatStats (count 12%Z) m12) ∧
    out_merge_stats out !! 60%Z = Some (CatStats (count 60%Z) m60) ∧
    out_original_features out = count 12%Z + count 60%Z ∧
    out_merged_features_count out = m12 + m60 ∧
    out_merged_features out = m12 + m60 ∧
    out_metadata out = metadata item ∧
    fs' !! out_input_path out = Some (ParquetFile table) ∧
    length (filter (λ w, w_gridcode w = 12%Z) (pq_rows table)) ≤ m12 ∧
    length (filter (λ w, w_gridcode w = 60%Z) (pq_rows table)) ≤ m60 ∧
    length (pq_rows table) = length (filter (λ w, w_gridcode w = 12%Z) (pq_rows table))
                           + length (filter (λ w, w_gridcode w = 60%Z) (pq_rows table)).
Proof.
  intros Hpath Hne Hfile Hrun count.
  rewrite (merge_grid_loaded item fs path gdf0 Hpath Hne Hfile) in Hrun.
  destruct (merge_loaded_inv _ _ _ _ _ Hrun) as (c & chunks & merged & Hc & Hch & Hm).
  destruct (merge_loaded_written item gdf0 fs c chunks merged Hc Hch Hm)
    as (table & Heq & Hsub & _ & _).
  rewrite Heq in Hrun. injection Hrun as <- <-.
  set (gdf := Frame (columns gdf0) c (rows gdf0)) in *.
  destruct (count_originals_stats gdf) as (H12 & H60 & Hdom & Htotal).
  cbn [rows gdf] in H12, H60, Htotal.
  pose proof (merge_all_invariant _ _ _
                (λ c0 s Hs _, count_originals_zero _ c0 s Hs) Hm) as Hinv.
  assert (Hc12 : 12%Z ∈ gridcodes) by (apply gridcodes_elem; by left).
  assert (Hc60 : 60%Z ∈ gridcodes) by (apply gridcodes_elem; by right).
  pose proof (merge_all_statistics _ _ _ 12%Z Hm Hc12 (count_originals_zero gdf)) as S12.
  pose proof (merge_all_statistics _ _ _ 60%Z Hm Hc60 (count_originals_zero gdf)) as S60.
  rewrite H12 in S12. rewrite H60 in S60. cbn in S12, S60.
  assert (Htot : total_merged merged.2
                 = length (category_output 12%Z merged.1)
                   + length (category_output 60%Z merged.1)).
  { rewrite (total_merged_two _ _ _ (eq_trans (proj1 Hinv) Hdom) S12 S60). done. }
  assert (Hfilter : ∀ code,
    length (filter (λ w, w_gridcode w = code) (pq_rows table))
    ≤ length (category_output code merged.1)).
  { intros code. unfold category_output.
    transitivity (length (filter (λ z, z = code) (w_gridcode <$> pq_rows table))).
    { rewrite filter_fmap_length. reflexivity. }
    etrans; [apply (sublist_filter_length (λ z, z = code) _ _ Hsub)|].
    rewrite filter_fmap_length. reflexivity. }
  exists (length (category_output 12%Z merged.1)),
         (length (category_output 60%Z merged.1)), table.
  cbn [out_merge_stats out_original_features out_merged_features_count
       out_merged_features out_metadata out_input_path].
  split_and!; try done.
  - by rewrite lookup_insert_eq.
  - apply length_two_classes; [|intros w -> [=]].
    intros w Hw.
    assert (Hg : w_gridcode w ∈ gridcode <$> mjoin (rows <$> merged.1)).
    { eapply sublist_subseteq; [exact Hsub|]. apply list_elem_of_fmap. eauto. }
    apply list_elem_of_fmap in Hg as (r & Hr & Hin).
    rewrite <- (output_frame_all_rows merged.1 c) in Hin.
    destruct (output_frame_rows _ _ c r Hinv Hin) as (code & Hcode & _ & Hgc).
    apply gridcodes_elem in Hcode. rewrite Hr, Hgc. done.
Qed.

Lemma merge_all_no_chunks (stats0 : gmap Z cat_stats) :
  merge_all [] stats0 = Ok ([], stats0).
Proof.
  unfold merge_all, gridcodes. cbn [res_foldM].
  assert (H : ∀ st code, merge_code [] st code = Ok st).
  { intros st code. unfold merge_code. by case_decide. }
  rewrite H. cbn [res_bind]. by rewrite H.
Qed.


Lemma engine_output_valid (gdf : frame feature) (k : Z)
    (out : list (frame merged_row) * gmap Z cat_stats) :
  merge_laws →
  merge_engine gdf k = Ok out →
  ∀ r, r ∈ mjoin (rows <$> out.1) → ∃ m, geometry r = Some m ∧ is_valid m = true.
Proof.
  intros Laws Hrun r Hr. unfold merge_engine in Hrun.
  destruct (create_spatial_chunks gdf k) as [chunks|] eqn:Hchunks; [|done].
  cbn [res_bind] in Hrun.
  pose proof (merge_all_invariant _ _ _
                (λ c0 s Hs _, count_originals_zero _ c0 s Hs) Hrun) as Hinv.
  assert (Hcat : ∃ code, code ∈ gridcodes ∧ r ∈ category_output code out.1).
  { pose proof Hr as Hr'. rewrite <- (output_frame_all_rows out.1 None) in Hr'.
    destruct (output_frame_rows _ _ None r Hinv Hr') as (code & Hcode & _ & Hgc).
    exists code. split; [done|]. unfold category_output.
    by apply list_elem_of_filter. }
  destruct Hcat as (code & Hcode & Hcat). clear Hr.
  destruct (merge_all_category _ _ _ _ Hrun Hcode)
    as [[_ Hnil]|(results & Hres & [[_ Hnil]|[_ Hrows]])];
    try (rewrite Hnil in Hcat; by apply elem_of_nil in Hcat).
  rewrite Hrows in Hcat. clear Hrows. revert r Hcat.
  apply stitch_valid; [done|]. intros r Hr.
  apply list_elem_of_join in Hr as (l & Hr & Hl).
  apply list_elem_of_fmap in Hl as (f & -> & Hf).
  destruct (chunk_results_for_source _ _ _ _ Hres Hf) as (chunk & Hc & Hp).
  assert (Hk : (0 ≤ k)%Z).
  { unfold create_spatial_chunks, chunks_per_side in Hchunks.
    case_decide; [done|lia]. }
  rewrite create_spatial_chunks_cells in Hchunks by done. injection Hchunks as <-.
  apply list_elem_of_fmap in Hc as (cell & -> & _).
  eapply process_chunk_valid; [done| |exact Hp|exact Hr].
  intros r0 Hr0. apply chunk_of_rows in Hr0 as (_ & g & Hg & Hbox). eauto.
Qed.


Lemma pd_concat_columns_elem {R} (fs : list (frame R)) (c : string) :
  c ∈ columns (pd_concat fs) ↔ ∃ f, f ∈ fs ∧ c ∈ columns f.
Proof.
  unfold pd_concat. cbn [columns].
  assert (Hgen : ∀ acc,
    c ∈ foldl (λ acc f, acc ++ filter (λ c, c ∉ acc) (columns f)) acc fs
    ↔ c ∈ acc ∨ ∃ f, f ∈ fs ∧ c ∈ columns f).
  { induction fs as [|f fs IH]; intros acc; cbn [foldl].
    - split; [by left|]. intros [H|(f & Hf & _)]; [done|by apply elem_of_nil in Hf].
    - rewrite IH, elem_of_app, list_elem_of_filter. split.
      + intros [[H|[_ H]]|(g & Hg & Hc)]; [by left| |].
        * right. exists f. split; [left|done].
        * right. exists g. split; [by right|done].
      + intros [H|(g & Hg & Hc)]; [by left; left|].
        apply elem_of_cons in Hg as [->|Hg].
        * left. destruct (decide (c ∈ acc)); [by left|by right].
        * right. by exists g. }
  rewrite Hgen. split; [|by right].
  intros [H|H]; [by apply elem_of_nil in H|done].
Qed.

Lemma stitch_temp_id_column (results : list (frame merged_row)) :
  "temp_id" ∈ columns (stitch results)
  ↔ queen_raises (geometry <$> rows (unstitched results)) = true.
Proof.
  unfold stitch. fold (unstitched results). unfold queen_component_labels.
  destruct (queen_raises _).
  - split; [done|]. intros _. unfold unstitched. cbn [columns].
    apply elem_of_app. right. left.
  - cbn [columns]. split; [|done]. intros H.
    repeat (apply elem_of_cons in H as [[=]|H]). by apply elem_of_nil in H.
Qed.

Lemma merge_code_frames (chunks : list (frame feature))
    (st st' : list (frame merged_row) * gmap Z cat_stats) (code : Z) :
  merge_code chunks st code = Ok st' →
  (st'.1 = st.1 ∧
   (stats_original st.2 code = 0 ∨ chunk_results_for chunks code = Ok [])) ∨
  ∃ f fs, chunk_results_for chunks code = Ok (f :: fs) ∧
          st'.1 = st.1 ++ [stitch (f :: fs)].
Proof.
  unfold merge_code. case_decide as Hz.
  { intros [= <-]. left. split; [done|by left]. }
  destruct (chunk_results_for chunks code) as [[|f fs]|] eqn:Hres; [| |done].
  - intros [= <-]. left. split; [done|by right].
  - intros [= <-]. right. by exists f, fs.
Qed.

Lemma no_features_no_results (gdf : frame feature) (k code : Z)
    (chunks : list (frame feature)) :
  create_spatial_chunks gdf k = Ok chunks →
  filter (λ r, f_gridcode r = code) (rows gdf) = [] →
  chunk_results_for chunks code = Ok [].
Proof.
  intros Hchunks Hnone.
  assert (Hall : Forall (λ chunk, process_chunk chunk code = Ok None) chunks).
  { apply Forall_forall. intros chunk Hc.
    destruct (chunks_keep_crs _ _ _ Hchunks chunk Hc) as [_ Hsub].
    unfold process_chunk. rewrite decide_True; [done|].
    apply (sublist_filter_length (λ r, f_gridcode r = code)) in Hsub.
    rewrite Hnone in Hsub. cbn in Hsub. lia. }
  unfold chunk_results_for.
  assert (Hmap : res_mapM (λ chunk, process_chunk chunk code) chunks
                 = Ok (replicate (length chunks) None)).
  { clear Hchunks. induction Hall as [|chunk chunks Hp _ IH]; [done|].
    cbn [res_mapM]. by rewrite Hp, IH. }
  rewrite Hmap. cbn [res_bind]. f_equal.
  generalize (length chunks). clear. intros n.
  induction n as [|n IH]; [done|]. cbn [replicate omap list_omap]. exact IH.
Qed.

(** A stitch that fell back shows in the written file, though not in the
    statistics: the table has a [temp_id] column exactly when the stitch of
    one of the two codes took the fall-back path. *)
Theorem fallback_shows_in_the_columns (item : data_item) (fs fs' : gmap string file)
    (path : string) (gdf0 : frame feature) (c : option CRS) (out : merge_output) :
  input_path item = Some path →
  path ≠ "" →
  fs !! path = Some (GeoParquetFile gdf0) →
  require_epsg4326 (crs gdf0) = Ok c →
  merge_grid item fs = (Ok out, fs') →
  ∃ table,
    fs' !! out_input_path out = Some (ParquetFile table) ∧
    ("temp_id" ∈ pq_columns table ↔
     ∃ code, code ∈ gridcodes ∧
             stitch_degraded (Frame (columns gdf0) c (rows gdf0))
                             (default 4%Z (num_chunks item)) code = true).
Proof.
  intros Hpath Hne Hfile Hc Hrun.
  rewrite (merge_grid_loaded item fs path gdf0 Hpath Hne Hfile) in Hrun.
  destruct (merge_loaded_inv _ _ _ _ _ Hrun) as (c' & chunks & merged & Hc' & Hch & Hm).
  rewrite Hc in Hc'. injection Hc' as <-.
  destruct (merge_loaded_written item gdf0 fs c chunks merged Hc Hch Hm)
    as (table & Heq & _ & _ & Hcols).
  rewrite Heq in Hrun. injection Hrun as <- <-.
  set (gdf := Frame (columns gdf0) c (rows gdf0)) in *.
  set (k := default 4%Z (num_chunks item)) in *.
  exists table. cbn [out_input_path]. split; [by rewrite lookup_insert_eq|].
  rewrite Hcols.
  assert (Hframes : "temp_id" ∈ columns (output_frame merged.1 c)
                    ↔ ∃ f, f ∈ merged.1 ∧ "temp_id" ∈ columns f).
  { unfold output_frame. destruct merged.1 as [|f0 fs0] eqn:Hm1.
    - cbn [empty_gdf columns]. split.
      + intros H. repeat (apply elem_of_cons in H as [[=]|H]).
        by apply elem_of_nil in H.
      + intros (f & Hf & _). by apply elem_of_nil in Hf.
    - apply pd_concat_columns_elem. }
  rewrite Hframes.
  assert (Hdeg : ∀ code, stitch_degraded gdf k code = true ↔
            ∃ f fs0, chunk_results_for chunks code = Ok (f :: fs0) ∧
                     queen_raises (geometry <$> rows (unstitched (f :: fs0))) = true).
  { intros code. unfold stitch_degraded. rewrite Hch.
    destruct (chunk_results_for chunks code) as [[|f fs0]|]; split; try done.
    - by intros (? & ? & ? & _).
    - intros Hq. by exists f, fs0.
    - by intros (f' & fs' & [= <- <-] & Hq).
    - by intros (? & ? & ? & _). }
  unfold merge_all, gridcodes in Hm. cbn [res_foldM] in Hm.
  destruct (merge_code chunks ([], (count_originals gdf).1) 12%Z) as [st1|] eqn:H1;
    [|done].
  cbn [res_bind] in Hm.
  destruct (merge_code chunks st1 60%Z) as [st2|] eqn:H2; [|done].
  cbn [res_bind] in Hm. injection Hm as <-.
  destruct (merge_code_result _ _ _ _ H1) as (Hs1 & _ & _).
  pose proof (merge_code_frames _ _ _ _ H1) as F1.
  pose proof (merge_code_frames _ _ _ _ H2) as F2.
  cbn [fst snd] in F1, F2.
  assert (Hzero : ∀ code, code ∈ gridcodes →
            stats_original (count_originals gdf).1 code = 0 →
            chunk_results_for chunks code = Ok []).
  { intros code Hcode Hz. rewrite stats_original_count in Hz by done.
    apply nil_length_inv in Hz. by eapply no_features_no_results. }
  assert (Hc12 : 12%Z ∈ gridcodes) by (apply gridcodes_elem; by left).
  assert (Hc60 : 60%Z ∈ gridcodes) by (apply gridcodes_elem; by right).
  split.
  - intros (f & Hf & Htemp).
    destruct F2 as [[E2 _]|(f2 & fs2 & R2 & E2)]; rewrite E2 in Hf.
    + destruct F1 as [[E1 _]|(f1 & fs1 & R1 & E1)]; rewrite E1 in Hf.
      * by apply elem_of_nil in Hf.
      * apply list_elem_of_singleton in Hf as ->.
        exists 12%Z. split; [done|]. apply Hdeg. exists f1, fs1. split; [done|].
        by apply stitch_temp_id_column.
    + apply elem_of_app in Hf as [Hf|Hf].
      * destruct F1 as [[E1 _]|(f1 & fs1 & R1 & E1)]; rewrite E1 in Hf.
        { by apply elem_of_nil in Hf. }
        apply list_elem_of_singleton in Hf as ->.
        exists 12%Z. split; [done|]. apply Hdeg. exists f1, fs1. split; [done|].
        by apply stitch_temp_id_column.
      * apply list_elem_of_singleton in Hf as ->.
        exists 60%Z. split; [done|]. apply Hdeg. exists f2, fs2. split; [done|].
        by apply stitch_temp_id_column.
  - intros (code & Hcode & Hd). apply Hdeg in Hd as (f & fs0 & Hres & Hq).
    apply stitch_temp_id_column in Hq.
    apply gridcodes_elem in Hcode as [-> | ->].
    + destruct F1 as [[_ [Hz|Hnil]]|(f1 & fs1 & R1 & E1)].
      * rewrite (Hzero 12%Z Hc12 Hz) in Hres. done.
      * rewrite Hnil in Hres. done.
      * rewrite R1 in Hres. injection Hres as <- <-.
        exists (stitch (f1 :: fs1)). split; [|done].
        destruct F2 as [[E2 _]|(f2 & fs2 & _ & E2)]; rewrite E2, E1.
        -- apply list_elem_of_here.
        -- apply elem_of_app. left. apply list_elem_of_here.
    + destruct F2 as [[_ [Hz|Hnil]]|(f2 & fs2 & R2 & E2)].
      * rewrite Hs1 in Hz. rewrite (Hzero 60%Z Hc60 Hz) in Hres. done.
      * rewrite Hnil in Hres. done.
      * rewrite R2 in Hres. injection Hres as <- <-.
        exists (stitch (f2 :: fs2)). split; [|done].
        rewrite E2. apply elem_of_app. right. apply list_elem_of_here.
Qed.

End MergeGridBehaviour.

(** ** Runs on concrete inputs *)

Section ConcreteRuns.
Import Lattice Scenario.
Local Open Scope Z_scope.

(** C1, at the input that breaks it: one valid square of code 12, four
    chunks. The square meets all four cells, each chunk counts it once, and
    the stitch adds the four counts: the one merged feature has
    [merged_count = 4] for one input feature. *)
Lemma count_conservation_fails_on_shared_feature :
  length (filter (λ r, f_gridcode r = 12 ∧ (valid <$> f_geometry r) = Some true)
                 (rows one_square)) = 1%nat ∧
  (λ rs : list (@merged_row clean), merged_count <$> rs)
    <$> @engine_output clean one_square 4 12 = Some [4%nat].
Proof. split; by vm_compute. Qed.

(** C3, at the input that breaks it: a square and the ring around it, code
    12. With one chunk the engine returns the filled square alone; with nine
    chunks the middle cell holds the inner square only, its result shares no
    boundary point with the filled square of the other eight chunks, and
    the stitch keeps it as a second merged feature. *)
Lemma partition_invariance_fails_for_nine_chunks :
  (λ rs : list (@merged_row clean), geometry <$> rs)
    <$> @engine_output clean core_and_ring 1 12
    = Some [Some (rect 0 0 6 6)] ∧
  (λ rs : list (@merged_row clean), geometry <$> rs)
    <$> @engine_output clean core_and_ring 9 12
    = Some [Some (rect 0 0 6 6); Some (rect 1 1 5 5)].
Proof. split; by vm_compute. Qed.

(** C4, the part that fails: the same two far-apart squares are merged once
    with a contiguity builder that works and once with one that raises on
    the concatenated chunk results. The second run falls back to the
    unstitched rows, the first does not, and both return the same
    dictionary. *)
Lemma stitch_fallback_not_flagged :
  let item := item_for "in.parquet" None in
  let run_clean :=
    @merge_grid clean tmp item (fs_with clean far_squares) in
  let run_failing :=
    @merge_grid failing tmp item (fs_with failing far_squares_failing) in
  @stitch_degraded clean far_squares 4 12 = false ∧
  @stitch_degraded failing far_squares_failing 4 12 = true ∧
  is_ok run_clean.1 = true ∧
  run_clean.1 = run_failing.1.
Proof. split_and!; by vm_compute. Qed.

Lemma stitch_failure_fallback_witness :
  let st := ([], (@count_originals failing far_squares_failing).1) in
  @stats_original st.2 12 ≠ 0%nat ∧
  @chunk_results_for failing far_chunks 12 = Ok (far_first :: tail far_results) ∧
  (@queen_raises failing
       (geometry <$> rows (@unstitched failing (far_first :: tail far_results))) = true →
     @merge_code failing far_chunks st 12
       = Ok (st.1 ++ [@unstitched failing (far_first :: tail far_results)],
             alter (set_merged (length (mjoin (rows <$> far_first :: tail far_results))))
                   12 st.2) ∧
     (λ r, (component_id r, geometry r, gridcode r, merged_count r))
        <$> rows (@unstitched failing (far_first :: tail far_results))
     = (λ r, (component_id r, geometry r, gridcode r, merged_count r))
        <$> mjoin (rows <$> far_first :: tail far_results)) ∧
  is_ok (@merge_code failing far_chunks st 12) = true.
Proof.
  intros st.
  assert (H1 : @stats_original st.2 12 ≠ 0%nat) by (vm_compute; lia).
  assert (H2 : @chunk_results_for failing far_chunks 12
               = Ok (far_first :: tail far_results)) by reflexivity.
  split; [exact H1|]. split; [exact H2|].
  exact (@stitch_failure_fallback failing far_chunks st 12 far_first
           (tail far_results) H1 H2).
Defined.

Lemma crs_invariant_enforcement_witness :
  let item := item_for "in.parquet" None in
  let fs := fs_with clean utm_frame in
  input_path item = Some "in.parquet" ∧
  "in.parquet" ≠ "" ∧
  fs !! "in.parquet" = Some (GeoParquetFile utm_frame) ∧
  ∃ msg, @merge_grid clean tmp item fs = (Raise (ValueError msg), fs).
Proof.
  intros item fs.
  assert (H1 : input_path item = Some "in.parquet") by reflexivity.
  assert (H2 : "in.parquet" ≠ "") by discriminate.
  assert (H3 : fs !! "in.parquet" = Some (GeoParquetFile utm_frame)) by reflexivity.
  split; [exact H1|]. split; [exact H2|]. split; [exact H3|].
  refine (proj1 (@crs_invariant_enforcement clean tmp item fs "in.parquet" utm_frame
                   H1 H2 H3) (MkCRS (Some 25832)) _ _).
  - reflexivity.
  - discriminate.
Defined.






Lemma component_merger_witness :
  let members := @chunk_members clean adjacent_squares 12 in
  let results := [adjacent_merged] in
  @process_chunk clean adjacent_squares 12 = Ok (Some adjacent_merged) ∧
  @queen_raises clean (geometry <$> rows (@unstitched clean results)) = false ∧
  (∃ labels,
     @one_row_per_component clean (length members)
        (@queen_weights clean (f_geometry <$> members)) labels (rows adjacent_merged) ∧
     ∀ r, r ∈ rows adjacent_merged →
       merged_count r
       = length (group_members (component_id r) labels members)) ∧
  (∃ labels,
     ∀ r, r ∈ rows (@stitch clean results) →
       merged_count r
       = sum_list (merged_count <$> group_members (component_id r) labels
                                      (rows (@unstitched clean results)))).
Proof.
  intros members results.
  assert (H1 : @process_chunk clean adjacent_squares 12 = Ok (Some adjacent_merged))
    by reflexivity.
  assert (H2 : @queen_raises clean (geometry <$> rows (@unstitched clean results))
               = false) by reflexivity.
  split; [exact H1|]. split; [exact H2|].
  destruct (@component_merger clean adjacent_squares 12 adjacent_merged results)
    as [P1 P2].
  split.
  - destruct (P1 H1) as (labels & Hone & Hrows & _). exists labels.
    split; [exact Hone|]. intros r Hr. exact (proj2 (proj2 (Hrows r Hr))).
  - destruct (P2 H2) as (labels & _ & Hrows). exists labels.
    intros r Hr. exact (proj2 (proj2 (Hrows r Hr))).
Defined.



End ConcreteRuns.

(** ** The upstream blocks *)

Section UpstreamFacts.
Import Upstream.

Lemma dict_get_cons (k : string) (kv : string * pyval) (d : list (string * pyval)) :
  dict_get k (kv :: d) = if decide (kv.1 = k) then Some kv.2 else dict_get k d.
Proof.
  unfold dict_get. cbn [list_find]. case_decide; [done|].
  by destruct (list_find _ d) as [[? [? ?]]|].
Qed.

Lemma dict_get_set (k k' : string) (v : pyval) (d : list (string * pyval)) :
  dict_get k' (dict_set k v d) = if decide (k = k') then Some v else dict_get k' d.
Proof.
  induction d as [|kv d IH]; cbn [dict_set].
  - rewrite dict_get_cons. cbn. by case_decide.
  - destruct (decide (kv.1 = k)) as [Hk|Hk].
    + rewrite !dict_get_cons. cbn [fst snd]. subst k.
      by repeat case_decide.
    + rewrite !dict_get_cons, IH. repeat case_decide; congruence.
Qed.

Lemma combine_step_returns (st st' : combine_state) (i : nat) (batch : pyval) :
  combine_step st i batch = Returns st' →
  ∃ fields items,
    batch = PDict fields ∧ batch_items batch = Some items ∧
    st' = CombineState (pick_metadata (cs_metadata st) fields)
                       (cs_features st ++ items)
                       (cs_stats st ++ [batch_stat i items]).
Proof.
  unfold combine_step, batch_items. destruct batch as [| | | | | |fields]; try done.
  destruct (dict_get "geojson_data" fields) as [[| | | | | |geojson]|]; try done.
  destruct (dict_get "features" geojson) as [features|]; [|done]. cbn.
  destruct (items_of features) as [items|]; [|done].
  intros [= <-]. by exists fields, items.
Qed.

(** What the loop has gathered when it ends without an exception. *)
Lemma combine_loop_returns (st st' : combine_state) (i : nat) (batches : list pyval) :
  combine_loop st i batches = Returns st' →
  ∃ per_batch,
    Forall2 (λ batch items, batch_items batch = Some items) batches per_batch ∧
    cs_features st' = cs_features st ++ mjoin per_batch ∧
    cs_stats st' = cs_stats st ++ imap (λ j, batch_stat (i + j)) per_batch.
Proof.
  revert st i. induction batches as [|batch rest IH]; intros st i; cbn [combine_loop].
  - intros [= <-]. exists []. cbn. by rewrite !app_nil_r.
  - destruct (combine_step st i batch) as [st1|] eqn:Hstep; [|done].
    intros Hloop. apply combine_step_returns in Hstep as (fields & items & -> & Hitems & ->).
    destruct (IH _ _ Hloop) as (per_batch & Hall & Hf & Hs). cbn in Hf, Hs.
    exists (items :: per_batch). split; [by constructor|].
    rewrite Hf, Hs. cbn [mjoin list_join imap]. rewrite <- !app_assoc.
    split; [done|]. f_equal. cbn [app]. rewrite Nat.add_0_r. f_equal.
    apply imap_ext. intros j x _. cbn. f_equal. lia.
Qed.

(** The metadata that the loop ends with: the entry of the first batch
    that has one. *)
Lemma combine_loop_metadata (st st' : combine_state) (i : nat) (batches : list pyval) :
  combine_loop st i batches = Returns st' →
  cs_metadata st' =
    match cs_metadata st with
    | PNone => default PNone (head (omap metadata_entry batches))
    | current => current
    end.
Proof.
  revert st i. induction batches as [|batch rest IH]; intros st i; cbn [combine_loop].
  - intros [= <-]. by destruct (cs_metadata st).
  - destruct (combine_step st i batch) as [st1|] eqn:Hstep; [|done].
    intros Hloop. apply combine_step_returns in Hstep as (fields & items & -> & _ & ->).
    rewrite (IH _ _ Hloop). cbn [cs_metadata omap list_omap metadata_entry].
    unfold pick_metadata.
    destruct (cs_metadata st) eqn:Hcur; try done.
    destruct (dict_get "metadata" fields) as [m|]; [|done].
    by destruct m.
Qed.

Lemma update_metadata_returns (elapsed : Q) (n : nat) (st : combine_state) (m : pyval) :
  update_metadata elapsed n st = Returns m →
  (truthy (cs_metadata st) = false ∧ m = cs_metadata st) ∨
  ∃ before after,
    cs_metadata st = PDict before ∧ before ≠ [] ∧ m = PDict after ∧
    dict_get "total_features" after = Some (of_nat (length (cs_features st))) ∧
    dict_get "num_batches" after = Some (of_nat n) ∧
    dict_get "batch_stats" after = Some (PList (cs_stats st)) ∧
    dict_get "processing_time_seconds" after = Some (PFloat elapsed) ∧
    ∀ k, k ∉ ["total_features"; "num_batches"; "batch_stats";
              "processing_time_seconds"; "features_per_second"] →
         dict_get k after = dict_get k before.
Proof.
  unfold update_metadata. destruct (truthy (cs_metadata st)) eqn:Ht.
  2:{ intros [= <-]. by left. }
  destruct (cs_metadata st) as [| | | | | |before] eqn:Hmd; try done.
  intros [= <-]. right. exists before. eexists. split; [done|].
  split; [by destruct before|]. split; [done|].
  unfold dict_update. cbn [foldl fst snd].
  rewrite !dict_get_set. cbn.
  split_and!; try done.
  intros k Hk. rewrite !dict_get_set.
  repeat case_decide; try done; subst k; exfalso; apply Hk;
    repeat (first [apply list_elem_of_here | apply list_elem_of_further]).
Qed.

(** [combine_batches] joins the features of the batches in the order of the
    batches, whether it was given a list of batches or one batch alone.
    When it returns, every batch was a dictionary with GeoJSON features, the
    returned collection holds exactly their features, batch after batch, and
    a metadata dictionary that is not empty has been brought up to date:
    [total_features] is the number of features returned, [num_batches] the
    number of batches, and [batch_stats] lists the length of each batch
    under its position counted from one. *)
Theorem combine_batches_concatenates (elapsed : Q) (data result : pyval) :
  combine_batches elapsed data = Returns result →
  ∃ per_batch metadata,
    Forall2 (λ batch items, batch_items batch = Some items) (batches_of data) per_batch ∧
    result = combined (mjoin per_batch) metadata ∧
    (∀ entries, metadata = PDict entries → entries ≠ [] →
       dict_get "total_features" entries = Some (of_nat (length (mjoin per_batch))) ∧
       dict_get "num_batches" entries = Some (of_nat (length (batches_of data))) ∧
       dict_get "batch_stats" entries = Some (PList (imap batch_stat per_batch))).
Proof.
  unfold combine_batches. destruct (truthy data); [|done].
  destruct (batches_of data) as [|batch rest] eqn:Hb; [done|].
  destruct (combine_loop _ 0 (batch :: rest)) as [st|] eqn:Hloop; [|done].
  destruct (update_metadata _ _ st) as [metadata|] eqn:Hup; [|done].
  intros [= <-].
  destruct (combine_loop_returns _ _ _ _ Hloop) as (per_batch & Hall & Hf & Hs).
  cbn in Hf, Hs. exists per_batch, metadata. split; [done|].
  rewrite Hf. split; [done|]. intros entries -> Hne.
  apply update_metadata_returns in Hup
    as [[Hfalse Heq]|(before & after & Hmd & _ & [= ->] & H1 & H2 & H3 & _)].
  - rewrite <- Heq in Hfalse. by destruct entries.
  - rewrite H1, H2, H3, Hf, Hs. done.
Qed.

Lemma combine_loop_stops (st : combine_state) (i : nat) (good : list pyval)
    (bad : pyval) (rest : list pyval) :
  Forall (λ batch, is_Some (batch_items batch)) good →
  ∃ st', combine_loop st i (good ++ bad :: rest)
         = match combine_step st' (i + length good) bad with
           | Returns st'' => combine_loop st'' (S (i + length good)) rest
           | Raises e => Raises e
           end.
Proof.
  intros Hgood. revert st i. induction Hgood as [|batch good Hb _ IH]; intros st i.
  - exists st. cbn. by rewrite Nat.add_0_r.
  - cbn [app combine_loop].
    assert (∃ st1, combine_step st i batch = Returns st1) as [st1 ->].
    { destruct Hb as [items Hitems]. unfold batch_items in Hitems.
      unfold combine_step. destruct batch as [| | | | | |fields]; try done.
      destruct (dict_get "geojson_data" fields) as [[| | | | | |geojson]|]; try done.
      destruct (dict_get "features" geojson) as [features|]; [|done]. cbn in Hitems.
      rewrite Hitems. eauto. }
    destruct (IH st1 (S i)) as [st' ->]. exists st'.
    cbn [length]. by replace (S i + length good) with (i + S (length good)) by lia.
Qed.

(** The first batch that is not well formed decides the exception, and its
    position is in the message: [TypeError] for a batch that is not a
    dictionary, [ValueError] for one without [geojson_data] or whose
    [geojson_data] is not a dictionary with [features]. Nothing is returned
    for the batches before it. *)
Theorem first_bad_batch_decides_the_error (elapsed : Q) (good : list pyval)
    (bad : pyval) (rest : list pyval) :
  Forall (λ batch, is_Some (batch_items batch)) good →
  let run := combine_batches elapsed (PList (good ++ bad :: rest)) in
  let at_ := "Batch " +:+ pretty (length good) in
  ((∀ fields, bad ≠ PDict fields) →
     run = Raises (TypeError_ (at_ +:+ " is not a dictionary"))) ∧
  (∀ fields, bad = PDict fields →
     (dict_get "geojson_data" fields = None →
        run = Raises (ValueError_ (at_ +:+ " missing geojson_data"))) ∧
     (∀ geojson, dict_get "geojson_data" fields = Some geojson →
        (∀ entries, geojson = PDict entries → dict_get "features" entries = None) →
        run = Raises (ValueError_ (at_ +:+ " has invalid GeoJSON structure")))).
Proof.
  intros Hgood run at_.
  assert (Hrun : ∃ st', run = match combine_step st' (length good) bad with
                              | Returns st'' => match combine_loop st'' (S (length good)) rest with
                                                | Raises e => Raises e
                                                | Returns st =>
                                                    match update_metadata elapsed
                                                            (length (good ++ bad :: rest)) st with
                                                    | Raises e => Raises e
                                                    | Returns metadata =>
                                                        Returns (combined (cs_features st) metadata)
                                                    end
                                                end
                              | Raises e => Raises e
                              end).
  { unfold run, combine_batches. cbn [batches_of].
    assert (Ht : truthy (PList (good ++ bad :: rest)) = true)
      by (by destruct good).
    rewrite Ht.
    destruct (combine_loop_stops (CombineState PNone [] []) 0 good bad rest Hgood)
      as [st' Hst'].
    exists st'. cbn [Nat.add] in Hst'.
    destruct (good ++ bad :: rest) eqn:Hl; [by destruct good|].
    rewrite Hst'. by destruct (combine_step st' (length good) bad). }
  destruct Hrun as [st' ->]. split.
  - intros Hnot. unfold combine_step.
    destruct bad as [| | | | | |fields]; try done. by destruct (Hnot fields).
  - intros fields ->. split.
    + intros Hnone. unfold combine_step. by rewrite Hnone.
    + intros geojson Hsome Hnofeatures. unfold combine_step. rewrite Hsome.
      destruct geojson as [| | | | | |entries]; try done.
      by rewrite (Hnofeatures entries eq_refl).
Qed.

(** The metadata that is returned is the [metadata] entry of the first batch
    that has one other than [None]; what later batches carry is ignored.
    An entry that is empty comes back as it is, without any count; a
    dictionary that is not empty comes back with its other keys as they were;
    any other value that counts as true makes the call raise (it has no
    [update]). *)
Theorem metadata_comes_from_the_first_batch (elapsed : Q) (data : pyval)
    (before : list pyval) (batch : pyval) (after : list pyval) (entry : pyval) :
  batches_of data = before ++ batch :: after →
  Forall (λ b, metadata_entry b = None) before →
  metadata_entry batch = Some entry →
  (∀ result, combine_batches elapsed data = Returns result →
     ∃ features,
       (truthy entry = false ∧ result = combined features entry) ∨
       (∃ old new, entry = PDict old ∧ result = combined features (PDict new) ∧
          ∀ k, k ∉ ["total_features"; "num_batches"; "batch_stats";
                    "processing_time_seconds"; "features_per_second"] →
               dict_get k new = dict_get k old)) ∧
  (truthy entry = true → (∀ old, entry ≠ PDict old) →
   Forall (λ b, is_Some (batch_items b)) (batches_of data) →
   combine_batches elapsed data = Raises (NoAttribute entry "update")).
Proof.
  intros Hsplit Hbefore Hentry.
  assert (Hhead : head (omap metadata_entry (before ++ batch :: after)) = Some entry).
  { clear Hsplit. induction Hbefore as [|b before Hb _ IH]; cbn.
    - by rewrite Hentry.
    - by rewrite Hb. }
  split.
  - intros result. unfold combine_batches. destruct (truthy data); [|done].
    rewrite Hsplit.
    destruct (before ++ batch :: after) as [|b0 l0] eqn:Hl; [by destruct before|].
    destruct (combine_loop _ 0 (b0 :: l0)) as [st|] eqn:Hloop; [|done].
    pose proof (combine_loop_metadata _ _ _ _ Hloop) as Hmd.
    cbn [cs_metadata] in Hmd. rewrite Hhead in Hmd. cbn in Hmd.
    destruct (update_metadata _ _ st) as [metadata|] eqn:Hup; [|done].
    intros [= <-]. exists (cs_features st).
    apply update_metadata_returns in Hup
      as [[Hfalse ->]|(old & new & Hold & _ & -> & _ & _ & _ & _ & Hkeep)].
    + left. by rewrite Hmd in *.
    + right. exists old, new. by rewrite <- Hmd, Hold.
  - intros Htrue Hnodict Hall. unfold combine_batches.
    assert (Hdata : truthy data = true).
    { destruct batch as [| | | | | |fields]; try done.
      destruct data as [| | | | |items|fields0]; cbn in Hsplit;
        try (destruct before as [|? [|? ?]]; done).
      - rewrite Hsplit. by destruct before.
      - destruct before as [|? [|? ?]]; try done. injection Hsplit as ->.
        destruct fields; [done|done]. }
    rewrite Hdata. rewrite Hsplit in *.
    destruct (before ++ batch :: after) as [|b0 l0] eqn:Hl; [by destruct before|].
    assert (Hloop : ∃ st, combine_loop (CombineState PNone [] []) 0 (b0 :: l0) = Returns st).
    { generalize (CombineState PNone [] []) 0. clear -Hall.
      induction Hall as [|b l Hb _ IH]; intros st i; [by eexists|].
      cbn [combine_loop].
      assert (∃ st1, combine_step st i b = Returns st1) as [st1 ->].
      { destruct Hb as [items Hitems]. unfold batch_items in Hitems.
        unfold combine_step. destruct b as [| | | | | |fields]; try done.
        destruct (dict_get "geojson_data" fields) as [[| | | | | |geojson]|]; try done.
        destruct (dict_get "features" geojson) as [features|]; [|done]. cbn in Hitems.
        rewrite Hitems. eauto. }
      apply IH. }
    destruct Hloop as [st Hloop]. rewrite Hloop.
    pose proof (combine_loop_metadata _ _ _ _ Hloop) as Hmd.
    cbn [cs_metadata] in Hmd. rewrite Hhead in Hmd. cbn in Hmd.
    unfold update_metadata. rewrite Hmd, Htrue.
    destruct entry as [| | | | | |old]; try done. by destruct (Hnodict old).
Qed.

End UpstreamFacts.

Section ServiceFacts.
Import Upstream.
Context `{W : WfsService}.

Lemma load_returns (config : loader_config)
    (plan : list batch_item * list block_metadata) :
  load_wetlands_data config = Returns plan →
  let url := default "https://wfs2-miljoegis.mim.dk/natur/ows" (cfg_wetlands_url config) in
  let layer := default "natur:kulstof2022" (cfg_layer_name config) in
  let size := default 50000%Z (cfg_batch_size config) in
  ∃ total,
    get_hits url layer = Hits (Number total) ∧ total ≠ 0%Z ∧ size ≠ 0%Z ∧
    plan = batch_plan url layer size ((total + size - 1) `div` size)%Z total.
Proof.
  unfold load_wetlands_data. cbv zeta.
  destruct (get_wfs_capabilities _) as [types|e].
  2:{ by destruct e. }
  case_decide; [|done].
  destruct (get_hits _ _) as [| |[| |total]]; try done.
  case_decide as Ht; [done|]. case_decide as Hs; [done|].
  intros [= <-]. by exists total.
Qed.

(** The plan of the loader covers the layer. With a positive batch size,
    every feature index below the number the server announced falls in the
    window [[startIndex, startIndex + count)] that [process_batch] asks for
    one batch of the plan, and in no other; no window starts at or beyond
    the end; and there is one block name per batch. *)
Theorem batches_tile_the_features (config : loader_config)
    (items : list batch_item) (blocks : list block_metadata) :
  load_wetlands_data config = Returns (items, blocks) →
  (0 < default 50000 (cfg_batch_size config))%Z →
  let url := default "https://wfs2-miljoegis.mim.dk/natur/ows" (cfg_wetlands_url config) in
  let layer := default "natur:kulstof2022" (cfg_layer_name config) in
  let window := λ (item : batch_item) (n : Z),
    (rq_start_index (batch_request item) ≤ n
       < rq_start_index (batch_request item) + rq_count (batch_request item))%Z in
  ∃ total,
    get_hits url layer = Hits (Number total) ∧
    length blocks = length items ∧
    (∀ n, (0 ≤ n < total)%Z → ∃ item, item ∈ items ∧ window item n) ∧
    (∀ a b n, a ∈ items → b ∈ items → window a n → window b n → a = b) ∧
    (∀ item, item ∈ items →
       (0 ≤ rq_start_index (batch_request item) < total)%Z ∧
       rq_count (batch_request item) = default 50000%Z (cfg_batch_size config) ∧
       total_features (item_metadata item) = total ∧
       num_batches (item_metadata item) = Z.of_nat (length items)).
Proof.
  intros Hload Hsize url layer window.
  destruct (load_returns config _ Hload) as (total & Hhits & Htotal & _ & Hplan).
  fold url layer in Hhits, Hplan.
  set (size := default 50000%Z (cfg_batch_size config)) in *.
  set (nb := ((total + size - 1) `div` size)%Z) in *.
  injection Hplan as -> ->.
  assert (Hnb : nb = ((total - 1) `div` size + 1)%Z).
  { unfold nb. replace (total + size - 1)%Z with (total - 1 + 1 * size)%Z by lia.
    rewrite Z.div_add by lia. done. }
  assert (Hitem : ∀ item, item ∈ (λ i, BatchItem i (BatchMetadata url layer size nb total))
                                   <$> seqZ 0 nb ↔
            ∃ i, (0 ≤ i < nb)%Z ∧
                 item = BatchItem i (BatchMetadata url layer size nb total)).
  { intros item. rewrite list_elem_of_fmap. split.
    - intros (i & -> & Hi). apply elem_of_seqZ in Hi. exists i. split; [lia|done].
    - intros (i & Hi & ->). exists i. split; [done|]. apply elem_of_seqZ. lia. }
  exists total. split; [done|]. split; [by rewrite !length_fmap|].
  split; [|split].
  - intros n Hn. exists (BatchItem (n `div` size) (BatchMetadata url layer size nb total)).
    pose proof (Z.div_mod n size ltac:(lia)) as Hdm.
    pose proof (Z.mod_pos_bound n size Hsize) as Hmod.
    split.
    + apply Hitem. eexists. split; [|done].
      split; [apply Z.div_pos; lia|].
      rewrite Hnb. assert (n `div` size ≤ (total - 1) `div` size)%Z; [|lia].
      apply Z.div_le_mono; lia.
    + unfold window, batch_request. cbn. nia.
  - intros a b n Ha Hb Hwa Hwb.
    apply Hitem in Ha as (i & _ & ->). apply Hitem in Hb as (j & _ & ->).
    unfold window, batch_request in Hwa, Hwb. cbn in Hwa, Hwb.
    assert (i = j) as -> by nia. done.
  - intros item Hin. apply Hitem in Hin as (i & Hi & ->).
    unfold batch_request. cbn. split_and!; try done.
    + nia.
    + pose proof (Z.div_mod (total - 1) size ltac:(lia)) as Hdm.
      pose proof (Z.mod_pos_bound (total - 1) size Hsize) as Hmod. nia.
    + rewrite length_fmap, length_seqZ. lia.
Qed.

(** Every way in which the loader raises. A failure to reach the service
    or to parse its answer is passed on as it is; everything else arrives as
    a [RuntimeError] about the load, with its cause: no feature type in the
    capabilities, the layer not among them, a [numberMatched] that is not a
    number, no feature announced (the attribute absent or zero), or a batch
    size of zero (a division by zero). *)
Theorem loader_failures (config : loader_config) (e : error) :
  load_wetlands_data config = Raises e →
  let url := default "https://wfs2-miljoegis.mim.dk/natur/ows" (cfg_wetlands_url config) in
  let layer := default "natur:kulstof2022" (cfg_layer_name config) in
  let size := default 50000%Z (cfg_batch_size config) in
  (∃ msg, e = RequestException_ msg ∧
          (get_capabilities url = CapabilitiesUnreachable msg ∨
           get_hits url layer = HitsUnreachable msg)) ∨
  (∃ msg, e = ParseError_ msg ∧
          (get_capabilities url = CapabilitiesMalformed msg ∨
           get_hits url layer = HitsMalformed msg)) ∨
  ∃ cause, e = failed_to_load cause ∧
    ((get_capabilities url = Capabilities [] ∧
      cause = RuntimeErrorFrom "Failed to get WFS capabilities: "
                (RuntimeError_ "No feature types found in WFS capabilities response")) ∨
     (∃ types, get_capabilities url = Capabilities types ∧
               (layer ∉ types.*1) ∧ cause = LayerNotFound layer (types.*1)) ∨
     (∃ msg, get_hits url layer = Hits (NotANumber msg) ∧ cause = ValueError_ msg) ∨
     ((get_hits url layer = Hits Missing ∨ get_hits url layer = Hits (Number 0)) ∧
      cause = RuntimeError_ ("No features found for layer " +:+ layer)) ∨
     (size = 0%Z ∧ cause = ZeroDivisionError_)).
Proof.
  unfold load_wetlands_data, get_wfs_capabilities. cbv zeta.
  destruct (get_capabilities _) as [msg|msg|types] eqn:Hcap.
  { intros [= <-]. left. exists msg. split; [done|by left]. }
  { intros [= <-]. right. left. exists msg. split; [done|by left]. }
  destruct types as [|ft types].
  { intros [= <-]. right. right. eexists. split; [done|]. by left. }
  case_decide as Hlayer.
  2:{ intros [= <-]. right. right. eexists. split; [done|]. right. left.
      by exists (ft :: types). }
  destruct (get_hits _ _) as [msg|msg|[|msg|total]] eqn:Hhits.
  - intros [= <-]. left. exists msg. split; [done|by right].
  - intros [= <-]. right. left. exists msg. split; [done|by right].
  - rewrite decide_True by done. intros [= <-]. right. right.
    eexists. split; [done|]. do 3 right. left. split; [by left|done].
  - intros [= <-]. right. right. eexists. split; [done|]. do 2 right. left.
    by exists msg.
  - case_decide as Ht.
    { intros [= <-]. right. right. eexists. split; [done|]. do 3 right. left.
      split; [right; by rewrite Ht|done]. }
    case_decide as Hs; [|done].
    intros [= <-]. right. right. eexists. split; [done|]. do 4 right. done.
Qed.

Lemma process_batch_returns (item : batch_item) (fetched : pyval) :
  process_batch item = Returns fetched →
  ∃ fields,
    get_features (batch_request item) = Json (PDict fields) ∧
    fetched = PDict [("batch_index", PInt (batch_index item));
                     ("geojson_data", PDict fields);
                     ("metadata", metadata_dict (item_metadata item))].
Proof.
  unfold process_batch.
  destruct (get_features _) as [| | |[| | | | | |fields]]; try done.
  destruct (items_of _); [|done]. intros [= <-]. by exists fields.
Qed.

(** Fetching and combining keep the pages of the server as they are: when
    every batch of a plan was fetched and the results were combined, the
    collection holds the features of the pages, page after page in the
    order of the plan. The metadata is that of the first batch, with
    [total_features] now the number of features actually fetched (no longer
    the number that the server announced) and [num_batches] the number of
    batches combined. *)
Theorem pages_are_combined_in_order (elapsed : Q) (items : list batch_item)
    (fetched : list pyval) (result : pyval) :
  Forall2 (λ item out, process_batch item = Returns out) items fetched →
  combine_batches elapsed (PList fetched) = Returns result →
  ∃ pages entries first,
    head items = Some first ∧
    Forall2 (λ item page, page_of item = Some page) items pages ∧
    result = combined (mjoin pages) (PDict entries) ∧
    dict_get "total_features" entries = Some (of_nat (length (mjoin pages))) ∧
    dict_get "num_batches" entries = Some (of_nat (length items)) ∧
    dict_get "wfs_url" entries = Some (PStr (wfs_url (item_metadata first))) ∧
    dict_get "layer_name" entries = Some (PStr (layer_name (item_metadata first))) ∧
    dict_get "batch_size" entries = Some (PInt (batch_size (item_metadata first))).
Proof.
  intros Hfetched. unfold combine_batches. cbn [batches_of].
  destruct (truthy (PList fetched)) eqn:Ht; [|done].
  destruct fetched as [|out0 more] eqn:Hf; [done|]. rewrite <- Hf in *.
  assert (Hlen : length fetched = length items)
    by (symmetry; by eapply Forall2_length).
  destruct items as [|first others] eqn:Hi; [by subst fetched|]. rewrite <- Hi in *.
  rewrite Hf. rewrite <- Hf.
  destruct (combine_loop _ 0 fetched) as [st|] eqn:Hloop;
    [|by destruct fetched].
  destruct (update_metadata _ _ st) as [metadata|] eqn:Hup;
    [|by destruct fetched].
  intros Hres.
  assert (Hresult : result = combined (cs_features st) metadata).
  { destruct fetched; [done|]. by injection Hres as <-. }
  clear Hres.
  destruct (combine_loop_returns _ _ _ _ Hloop) as (pages & Hall & Hfeat & _).
  cbn in Hfeat.
  pose proof (combine_loop_metadata _ _ _ _ Hloop) as Hmd. cbn [cs_metadata] in Hmd.
  assert (Hpages : Forall2 (λ item page, page_of item = Some page) items pages).
  { clear -Hfetched Hall. revert pages Hall.
    induction Hfetched as [|item out items fetched Hp _ IH]; intros pages Hall.
    - apply Forall2_nil_inv_l in Hall as ->. constructor.
    - apply Forall2_cons_inv_l in Hall as (page & pages' & Hpage & Hall & ->).
      constructor; [|by apply IH].
      apply process_batch_returns in Hp as (fields & Hget & ->).
      unfold page_of. rewrite Hget. exact Hpage. }
  assert (Hentry : head (omap metadata_entry fetched)
                   = Some (metadata_dict (item_metadata first))).
  { rewrite Hi in Hfetched. rewrite Hf in Hfetched.
    apply Forall2_cons_1 in Hfetched as [Hp _].
    apply process_batch_returns in Hp as (fields & _ & ->). rewrite Hf. done. }
  rewrite Hentry in Hmd. cbn in Hmd.
  apply update_metadata_returns in Hup
    as [[Hfalse _]|(before & after & Hbefore & _ & -> & H1 & H2 & _ & _ & Hkeep)].
  { by rewrite Hmd in Hfalse. }
  rewrite Hmd in Hbefore. injection Hbefore as <-.
  exists pages, after, first. rewrite Hi. split; [done|]. rewrite <- Hi.
  split; [done|]. rewrite Hresult, Hfeat. split; [done|].
  rewrite H1, H2, Hfeat, Hlen. split; [done|]. split; [done|].
  rewrite !Hkeep.
  - done.
  - intros Hin. repeat (apply elem_of_cons in Hin as [[=]|Hin]). by apply elem_of_nil in Hin.
  - intros Hin. repeat (apply elem_of_cons in Hin as [[=]|Hin]). by apply elem_of_nil in Hin.
  - intros Hin. repeat (apply elem_of_cons in Hin as [[=]|Hin]). by apply elem_of_nil in Hin.
Qed.

(** A page without [features] passes [process_batch] (which counts its
    features as none) but not [combine_batches], which raises on it. *)
Theorem page_without_features_is_fetched_not_combined (item : batch_item)
    (fields : list (string * pyval)) (elapsed : Q) :
  get_features (batch_request item) = Json (PDict fields) →
  dict_get "features" fields = None →
  ∃ fetched,
    process_batch item = Returns fetched ∧
    combine_batches elapsed fetched
    = Raises (ValueError_ "Batch 0 has invalid GeoJSON structure").
Proof.
  intros Hget Hnone. unfold process_batch. rewrite Hget, Hnone. cbn.
  eexists. split; [done|].
  unfold combine_batches.
  cbn [truthy batches_of combine_loop combine_step].
  change (dict_get "geojson_data" _) with (Some (PDict fields)).
  cbv iota beta. by rewrite Hnone.
Qed.

End ServiceFacts.

(** ** The validator *)

Section ValidatorFacts.
Import Upstream Downstream.
Context `{B : GeoBackend} `{T : TempFiles} `{D : @SpatialSql B}.

Lemma statistics_of_returns (feature_count : nat) (valid : list measured)
    (statistics : validation_stats) :
  statistics_of feature_count valid = Returns statistics →
  valid ≠ [] ∧ valid_features statistics = length valid ∧
  input_features statistics = feature_count.
Proof.
  unfold statistics_of. destruct valid as [|first others]; [done|].
  cbn [fmap list_fmap sql_avg]. by intros [= <-].
Qed.

Lemma validation_attempt_returns (input_path : string) (rules : validation_rules)
    (fs : gmap string stored) (valid : list measured) (statistics : validation_stats) :
  validation_attempt input_path rules fs = Returns (valid, statistics) →
  valid ≠ [] ∧ valid_features statistics = length valid ∧
  1 ≤ input_features statistics.
Proof.
  unfold validation_attempt.
  destruct (fs !! input_path ≫= _) as [[f [|]]|]; [|done|done].
  destruct (statistics_error f); [done|].
  case_decide as Hcount; [done|].
  destruct (select_valid rules f) as [valid'|]; [|done].
  destruct (copy_error valid'); [done|].
  destruct (statistics_of _ valid') as [statistics'|] eqn:Hstats; [|done].
  intros [= <- <-].
  apply statistics_of_returns in Hstats as (Hne & Hlen & Hin).
  split; [done|]. split; [done|]. lia.
Qed.

(** What the validator leaves behind. When it returns, it has written the
    valid features to the path that [mkstemp] gave and changed nothing
    else, and both counts it returns are at least one: a file in which no
    feature passes the checks makes it raise (the averages are then NULL),
    it never returns [validated_count = 0]. When it raises, one of three
    things happened: the input path was refused and nothing was touched
    ([ValueError]); the validation failed and the output file is removed
    again ([RuntimeError]); or the spatial extension could not be loaded,
    and then the error is passed on as it is and the empty output file
    stays behind. *)
Theorem validator_outcomes (data : validation_input) (fs : gmap string stored) :
  (∀ out fs', geo_validate_geometries data fs = (Returns out, fs') →
     validated_data_path out = mkstemp (dom fs) ∧
     1 ≤ validated_count out ∧
     1 ≤ original_feature_count out ∧
     ∃ features, length features = validated_count out ∧
                 fs' = <[mkstemp (dom fs) := Validated features]> fs) ∧
  (∀ e fs', geo_validate_geometries data fs = (Raises e, fs') →
     (∃ msg, e = ValueError_ msg ∧ fs' = fs) ∨
     (∃ cause, e = RuntimeErrorFrom "Validation failed: " cause ∧
               fs' = delete (mkstemp (dom fs)) fs) ∨
     (spatial_extension = Some e ∧
      fs' = <[mkstemp (dom fs) := Written EmptyFile]> fs)).
Proof.
  unfold geo_validate_geometries.
  destruct (chosen_path data) as [input_path|].
  2:{ split; [done|]. intros e fs' [= <- <-]. left. eauto. }
  destruct (String.eqb input_path "").
  { split; [done|]. intros e fs' [= <- <-]. left. eauto. }
  destruct (ends_with ".parquet" input_path); cbn [negb].
  2:{ split; [done|]. intros e fs' [= <- <-]. left. eauto. }
  destruct spatial_extension as [failure|].
  { split; [done|]. intros e fs' [= <- <-]. right. right. done. }
  destruct (validation_attempt _ _ _) as [[valid statistics]|cause] eqn:Hrun.
  - split; [|done]. intros out fs' [= <- <-].
    apply validation_attempt_returns in Hrun as (Hne & Hlen & Hin).
    cbn [validated_data_path validated_count original_feature_count].
    split; [done|]. split.
    { rewrite Hlen. destruct valid; [done|simpl; lia]. }
    split; [done|]. exists valid. split; [done|]. by rewrite insert_insert_eq.
  - split; [done|]. intros e fs' [= <- <-]. right. left. exists cause.
    split; [done|]. by rewrite delete_insert_eq.
Qed.

End ValidatorFacts.

Section MergeThenValidate.
Import Upstream Downstream.
Context `{B : GeoBackend} `{T : TempFiles} `{D : @SpatialSql B}.

Lemma written_rows_bound (item : data_item) (fs fs' : gmap string file)
    (out : merge_output) :
  merge_grid item fs = (Ok out, fs') →
  ∃ table, fs' !! out_input_path out = Some (ParquetFile table) ∧
           length (pq_rows table) ≤ out_merged_features_count out.
Proof.
  intros Hrun. unfold merge_grid in Hrun.
  destruct (input_path item) as [path|]; [|done]. case_decide; [done|].
  destruct (fs !! path) as [[gdf0| |]|]; try done.
  destruct (merge_loaded_inv _ _ _ _ _ Hrun) as (c & chunks & merged & Hc & Hch & Hm).
  destruct (merge_loaded_written item gdf0 fs c chunks merged Hc Hch Hm)
    as (table & Heq & Hsub & _ & _).
  rewrite Heq in Hrun. injection Hrun as <- <-.
  set (gdf := Frame (columns gdf0) c (rows gdf0)) in *.
  exists table. cbn [out_input_path out_merged_features_count].
  split; [by rewrite lookup_insert_eq|].
  apply sublist_length in Hsub. rewrite !length_fmap in Hsub.
  etrans; [exact Hsub|].
  destruct (count_originals_stats gdf) as (H12 & H60 & Hdom & _).
  pose proof (merge_all_invariant _ _ _
                (λ c0 s Hs _, count_originals_zero _ c0 s Hs) Hm) as Hinv.
  assert (Hc12 : 12%Z ∈ gridcodes) by (apply gridcodes_elem; by left).
  assert (Hc60 : 60%Z ∈ gridcodes) by (apply gridcodes_elem; by right).
  pose proof (merge_all_statistics _ _ _ 12%Z Hm Hc12 (count_originals_zero gdf)) as S12.
  pose proof (merge_all_statistics _ _ _ 60%Z Hm Hc60 (count_originals_zero gdf)) as S60.
  rewrite H12 in S12. rewrite H60 in S60. cbn in S12, S60.
  rewrite (total_merged_two _ _ _ (eq_trans (proj1 Hinv) Hdom) S12 S60).
  cbn [merged_features]. unfold category_output.
  apply Nat.eq_le_incl.
  apply length_two_classes; [|intros r -> [=]].
  intros r Hr. rewrite <- (output_frame_all_rows merged.1 c) in Hr.
  destruct (output_frame_rows _ _ c r Hinv Hr) as (code & Hcode & _ & Hgc).
  apply gridcodes_elem in Hcode. rewrite Hgc. done.
Qed.


End MergeThenValidate.

(** ** The added properties on concrete inputs *)

Section MoreRuns.
Import Lattice Scenario Cases.

Lemma process_chunk_conserves_count_witness :
  @process_chunk clean adjacent_squares 12 = Ok (Some adjacent_merged) ∧
  sum_list (merged_count <$> rows adjacent_merged) = 2 ∧
  1 ≤ length (rows adjacent_merged) ≤ 2.
Proof.
  assert (H : @process_chunk clean adjacent_squares 12 = Ok (Some adjacent_merged))
    by reflexivity.
  split; [exact H|].
  destruct (@process_chunk_conserves_count clean adjacent_squares 12 adjacent_merged H)
    as (Hsum & _ & Hlen).
  split; [exact Hsum|exact Hlen].
Defined.

Lemma chunks_are_subframes_witness :
  @create_spatial_chunks clean adjacent_squares 4 = Ok adjacent_chunks ∧
  Forall (λ chunk : frame (@feature clean),
            rows chunk ≠ [] ∧ rows chunk `sublist_of` rows adjacent_squares)
         adjacent_chunks ∧
  length adjacent_chunks ≤ 2 * 2.
Proof.
  assert (H : @create_spatial_chunks clean adjacent_squares 4 = Ok adjacent_chunks)
    by reflexivity.
  split; [exact H|].
  destruct (@chunks_are_subframes clean adjacent_squares 4 adjacent_chunks H)
    as [Hall Hlen].
  split; [|exact Hlen].
  eapply Forall_impl; [exact Hall|]. intros chunk (H1 & H2 & _). by split.
Defined.


Lemma merged_counts_account_for_assignments_witness :
  @create_spatial_chunks clean adjacent_squares 4 = Ok adjacent_chunks ∧
  @merge_engine clean adjacent_squares 4 = Ok adjacent_out ∧
  sum_list (merged_count <$> @category_output clean 12 adjacent_out.1)
  = sum_list ((λ chunk : frame (@feature clean),
                 length (filter (λ r, f_gridcode r = 12%Z) (rows chunk)))
                <$> adjacent_chunks) ∧
  (@category_output clean 12 adjacent_out.1 = [] ↔
   sum_list ((λ chunk : frame (@feature clean),
                length (filter (λ r, f_gridcode r = 12%Z) (rows chunk)))
               <$> adjacent_chunks) = 0).
Proof.
  assert (Hc : 12%Z ∈ gridcodes) by (apply gridcodes_elem; by left).
  assert (H1 : @create_spatial_chunks clean adjacent_squares 4 = Ok adjacent_chunks)
    by reflexivity.
  assert (H2 : @merge_engine clean adjacent_squares 4 = Ok adjacent_out)
    by reflexivity.
  split; [exact H1|]. split; [exact H2|].
  destruct (@merged_counts_account_for_assignments clean adjacent_squares 4 12
              adjacent_chunks adjacent_out Hc H1 H2) as (Hsum & _ & _ & Hiff).
  split; [exact Hsum|exact Hiff].
Defined.

Lemma features_without_geometry_are_dropped_witness :
  @merge_engine clean one_without_geometry 4 = Ok without_geometry_out ∧
  @category_output clean 60 without_geometry_out.1 = [] ∧
  without_geometry_out.2 !! 60%Z = Some (CatStats 1 0).
Proof.
  assert (Hc : 60%Z ∈ gridcodes) by (apply gridcodes_elem; by right).
  assert (H : @merge_engine clean one_without_geometry 4 = Ok without_geometry_out)
    by reflexivity.
  split; [exact H|].
  refine (@features_without_geometry_are_dropped clean one_without_geometry 4 60
            without_geometry_out Hc H _).
  intros r Hr Hcode.
  apply elem_of_cons in Hr as [->|Hr]; [discriminate Hcode|].
  apply list_elem_of_singleton in Hr as ->. reflexivity.
Defined.

Lemma test_output_passes_witness :
  @merge_grid clean tmp (item_for "in.parquet" None) (fs_with clean one_square)
    = (Ok square_out, square_run.2) ∧
  @test_output clean (Some square_out) square_run.2 = Passed.
Proof.
  assert (H : @merge_grid clean tmp (item_for "in.parquet" None)
                (fs_with clean one_square) = (Ok square_out, square_run.2))
    by reflexivity.
  split; [exact H|].
  exact (@test_output_passes clean tmp (item_for "in.parquet" None)
           (fs_with clean one_square) square_run.2 square_out H).
Defined.



Lemma merge_grid_statistics_witness :
  let item := item_for "in.parquet" None in
  let fs := fs_with clean one_square in
  @merge_grid clean tmp item fs = (Ok square_out, square_run.2) ∧
  ∃ m12 m60 table,
    out_merge_stats square_out !! 12%Z = Some (CatStats 1 m12) ∧
    out_merge_stats square_out !! 60%Z = Some (CatStats 0 m60) ∧
    out_original_features square_out = 1 + 0 ∧
    out_merged_features_count square_out = m12 + m60 ∧
    square_run.2 !! out_input_path square_out = Some (ParquetFile table) ∧
    length (filter (λ w, w_gridcode w = 12%Z) (pq_rows table)) ≤ m12 ∧
    length (filter (λ w, w_gridcode w = 60%Z) (pq_rows table)) ≤ m60.
Proof.
  intros item fs.
  assert (H1 : input_path item = Some "in.parquet") by reflexivity.
  assert (H2 : "in.parquet" ≠ "") by discriminate.
  assert (H3 : fs !! "in.parquet" = Some (GeoParquetFile one_square)) by reflexivity.
  assert (H : @merge_grid clean tmp item fs = (Ok square_out, square_run.2))
    by reflexivity.
  split; [exact H|].
  destruct (@merge_grid_statistics clean tmp item fs square_run.2 "in.parquet"
              one_square square_out H1 H2 H3 H)
    as (m12 & m60 & table & S12 & S60 & So & Sm & _ & _ & Sf & L12 & L60 & _).
  exists m12, m60, table.
  split; [exact S12|]. split; [exact S60|]. split; [exact So|]. split; [exact Sm|].
  split; [exact Sf|]. split; [exact L12|exact L60].
Defined.



Lemma fallback_shows_in_the_columns_witness :
  let item := item_for "in.parquet" None in
  let fs := fs_with failing far_squares_failing in
  @merge_grid failing tmp item fs = (Ok far_out, far_run.2) ∧
  ∃ table, far_run.2 !! out_input_path far_out = Some (ParquetFile table) ∧
    ("temp_id" ∈ pq_columns table ↔
     ∃ code, code ∈ gridcodes ∧
             @stitch_degraded failing
               (Frame (columns far_squares_failing) (Some epsg4326)
                      (rows far_squares_failing))
               (default 4%Z (num_chunks item)) code = true).
Proof.
  intros item fs.
  assert (H1 : input_path item = Some "in.parquet") by reflexivity.
  assert (H2 : "in.parquet" ≠ "") by discriminate.
  assert (H3 : fs !! "in.parquet" = Some (GeoParquetFile far_squares_failing))
    by reflexivity.
  assert (H4 : require_epsg4326 (crs far_squares_failing) = Ok (Some epsg4326))
    by reflexivity.
  assert (H : @merge_grid failing tmp item fs = (Ok far_out, far_run.2))
    by reflexivity.
  split; [exact H|].
  exact (@fallback_shows_in_the_columns failing tmp item fs far_run.2 "in.parquet"
           far_squares_failing (Some epsg4326) far_out H1 H2 H3 H4 H).
Defined.

End MoreRuns.

Section UpstreamRuns.
Import Upstream UpstreamCases.

Lemma combine_batches_concatenates_witness :
  combine_batches 1 two_batches = Returns two_batches_combined ∧
  ∃ per_batch metadata,
    Forall2 (λ batch items, batch_items batch = Some items)
            (batches_of two_batches) per_batch ∧
    two_batches_combined = combined (mjoin per_batch) metadata ∧
    (∀ entries, metadata = PDict entries → entries ≠ [] →
       dict_get "total_features" entries = Some (of_nat (length (mjoin per_batch))) ∧
       dict_get "num_batches" entries = Some (of_nat (length (batches_of two_batches))) ∧
       dict_get "batch_stats" entries = Some (PList (imap batch_stat per_batch))).
Proof.
  assert (H : combine_batches 1 two_batches = Returns two_batches_combined)
    by reflexivity.
  split; [exact H|].
  exact (combine_batches_concatenates 1 two_batches two_batches_combined H).
Defined.

Lemma first_bad_batch_decides_the_error_witness :
  Forall (λ b, is_Some (batch_items b)) [batch ["a"] None] ∧
  combine_batches 1 (PList ([batch ["a"] None] ++ PInt 5 :: []))
  = Raises (TypeError_ "Batch 1 is not a dictionary").
Proof.
  assert (H : Forall (λ b, is_Some (batch_items b)) [batch ["a"] None]).
  { repeat constructor. by eexists. }
  split; [exact H|].
  refine (proj1 (first_bad_batch_decides_the_error 1 [batch ["a"] None] (PInt 5) [] H) _).
  intros fields. discriminate.
Defined.

Lemma metadata_comes_from_the_first_batch_witness :
  let first := batch ["a"] None in
  let second := batch ["b"] (Some (PDict [])) in
  let third := batch ["c"] (Some (PDict [("source", PStr "wfs")])) in
  batches_of mixed_metadata = [first] ++ second :: [third] ∧
  metadata_entry first = None ∧
  metadata_entry second = Some (PDict []) ∧
  ∀ result, combine_batches 1 mixed_metadata = Returns result →
    ∃ features,
      (truthy (PDict []) = false ∧ result = combined features (PDict [])) ∨
      (∃ old new, PDict [] = PDict old ∧ result = combined features (PDict new) ∧
         ∀ k, k ∉ ["total_features"; "num_batches"; "batch_stats";
                   "processing_time_seconds"; "features_per_second"] →
              dict_get k new = dict_get k old).
Proof.
  intros first second third.
  assert (H1 : batches_of mixed_metadata = [first] ++ second :: [third])
    by reflexivity.
  assert (H2 : Forall (λ b, metadata_entry b = None) [first])
    by (repeat constructor).
  assert (H3 : metadata_entry second = Some (PDict [])) by reflexivity.
  split; [exact H1|]. split; [reflexivity|]. split; [exact H3|].
  exact (proj1 (metadata_comes_from_the_first_batch 1 mixed_metadata [first] second
                  [third] (PDict []) H1 H2 H3)).
Defined.

Lemma batches_tile_the_features_witness :
  @load_wetlands_data three_features by_two = Returns (plan.1, plan.2) ∧
  (0 < default 50000 (cfg_batch_size by_two))%Z ∧
  ∃ total,
    length plan.2 = length plan.1 ∧
    (∀ n, (0 ≤ n < total)%Z →
       ∃ item, item ∈ plan.1 ∧
         (rq_start_index (batch_request item) ≤ n
            < rq_start_index (batch_request item) + rq_count (batch_request item))%Z) ∧
    (∀ item, item ∈ plan.1 →
       (0 ≤ rq_start_index (batch_request item) < total)%Z).
Proof.
  assert (H1 : @load_wetlands_data three_features by_two = Returns (plan.1, plan.2))
    by reflexivity.
  assert (H2 : (0 < default 50000 (cfg_batch_size by_two))%Z) by reflexivity.
  split; [exact H1|]. split; [exact H2|].
  destruct (@batches_tile_the_features three_features by_two plan.1 plan.2 H1 H2)
    as (total & _ & Hlen & Hcover & _ & Hitems).
  exists total. split; [exact Hlen|]. split; [exact Hcover|].
  intros item Hin. exact (proj1 (Hitems item Hin)).
Defined.

Lemma loader_failures_witness :
  @load_wetlands_data three_features by_zero
    = Raises (failed_to_load ZeroDivisionError_) ∧
  ((∃ msg, failed_to_load ZeroDivisionError_ = RequestException_ msg) ∨
   (∃ msg, failed_to_load ZeroDivisionError_ = ParseError_ msg) ∨
   ∃ cause, failed_to_load ZeroDivisionError_ = failed_to_load cause).
Proof.
  assert (H : @load_wetlands_data three_features by_zero
              = Raises (failed_to_load ZeroDivisionError_)) by reflexivity.
  split; [exact H|].
  destruct (@loader_failures three_features by_zero _ H)
    as [(msg & Hmsg & _)|[(msg & Hmsg & _)|(cause & Hcause & _)]].
  - left. by exists msg.
  - right. left. by exists msg.
  - right. right. by exists cause.
Defined.

Lemma pages_are_combined_in_order_witness :
  Forall2 (λ item out, @process_batch three_features item = Returns out)
          planned_items fetched_pages ∧
  combine_batches 1 (PList fetched_pages) = Returns pages_combined ∧
  ∃ pages entries,
    Forall2 (λ item page, @page_of three_features item = Some page)
            planned_items pages ∧
    pages_combined = combined (mjoin pages) (PDict entries) ∧
    dict_get "total_features" entries = Some (of_nat (length (mjoin pages))) ∧
    dict_get "num_batches" entries = Some (of_nat (length planned_items)).
Proof.
  assert (H1 : Forall2 (λ item out, @process_batch three_features item = Returns out)
                       planned_items fetched_pages)
    by (repeat constructor).
  assert (H2 : combine_batches 1 (PList fetched_pages) = Returns pages_combined)
    by reflexivity.
  split; [exact H1|]. split; [exact H2|].
  destruct (@pages_are_combined_in_order three_features 1 planned_items fetched_pages
              pages_combined H1 H2)
    as (pages & entries & first & _ & Hp & Hr & Ht & Hn & _).
  exists pages, entries. split; [exact Hp|]. split; [exact Hr|].
  split; [exact Ht|exact Hn].
Defined.

Lemma page_without_features_is_fetched_not_combined_witness :
  let item := BatchItem 0 plan_metadata in
  @get_features no_features (batch_request item)
    = Json (PDict [("type", PStr "ExceptionReport")]) ∧
  ∃ fetched,
    @process_batch no_features item = Returns fetched ∧
    combine_batches 1 fetched
    = Raises (ValueError_ "Batch 0 has invalid GeoJSON structure").
Proof.
  intros item.
  assert (H : @get_features no_features (batch_request item)
              = Json (PDict [("type", PStr "ExceptionReport")])) by reflexivity.
  split; [exact H|].
  exact (@page_without_features_is_fetched_not_combined no_features item
           [("type", PStr "ExceptionReport")] 1 H eq_refl).
Defined.

End UpstreamRuns.

Section ValidatorRuns.
Import Upstream Downstream Lattice Scenario Cases.


End ValidatorRuns.
